(* ===== verification/_CoqProject ===== *)
-Q . S2P
Prelude.v
Spec.v
Heap.v
Chain.v
Fixtures.v
Append.v
Iter.v
Frame.v
Bubble.v
Sort.v
Join.v
Delete.v
Search.v
Duplicate.v
Remove.v
Api.v
Scenario.v
Main.v
Invariant.v
Store.v
