(* ===== verification/Prelude.v ===== *)
(** * A verification of liblist (bascb/shared_list)

    The repository is one C library, [src/liblist.c] with its interface
    [src/liblist.h], and a demonstration program [src/test/test_list.c].
    The library keeps a singly linked list of opaque [void *] items:
    a [List] container ([struct _list]: [first], [last], [current],
    [total_members]) owns a chain of [Member] nodes ([struct list_member]:
    [next], [item]).  Every operation works on the C heap through those
    pointers, and calls back into the caller for comparison
    ([cmp]), selection ([criterion]), duplication ([duplicate_item]) and
    destruction ([delete_item]) of items.

    ** How the development models the program

    The model is a shallow embedding of the C code over an explicit heap.

    - [Prelude] (this file): the outcome type [res] of a C computation
      ([Ok], [Fault] for undefined behaviour such as a NULL or dangling
      dereference or a signed overflow, [OutOfFuel] for a loop stopped by
      the fuel bound), the state-and-error monad [M] in which the C
      functions are written (with the notation [let* x := m in k]), the bounds
      of a 32-bit C [int], and the generic lemmas and tactics of the
      development (hint database [liblist]).
    - [Spec]: the abstract contract of a list, [alist]: its items in order
      and the iteration cursor as an index.  Each C operation is specified
      by a pure function on [alist] ([a_append], [a_join], [a_next], ...).
    - [Heap]: the C memory.  [Member] and [ListS] are the two structs;
      [Mem] holds the live members and list containers as stdpp [gmap]s from
      locations ([positive]) and an allocation oracle: each [calloc] pops
      one boolean, [false] meaning the allocation returns NULL, so theorems
      that quantify over the oracle cover every pattern of allocation
      failure.  A fresh location is stdpp's [fresh] of the live addresses
      (freed addresses may be reused, as with [malloc]).  [load_*],
      [store_*] and [free_*] fault on NULL and on dead locations, which
      makes use-after-free and double free observable.  The destructor
      callback is an event: each call appends its item to [destroyed].
    - [Chain]: the representation invariant.  [seg h p q ls xs] says that
      following [next] from [p] in the member heap [h] visits the nodes
      [ls] holding the items [xs] and arrives at [q]; [list_ok] adds the
      [struct _list] invariant of spec.md section 3 (last is the last node,
      [total_members] is the length, the cursor is NULL or a node of the
      chain) and [rep s lp A] relates the container at [lp] to the abstract
      list [A].  Chains are acyclic and determined by their head.
    - [Fixtures]: concrete heaps for the witnesses ([demo_mem xs]: a list
      of C [int] items at address 1, members from address 2; [demo_heap]
      the same for items of any type) and the
      comparators [sort_asc]/[sort_desc] of test_list.c ([asc_cmp],
      [desc_cmp]), which the program also uses as search criteria.
    - [Append]: [create_list], [append_to_list], [list_size]
      (liblist.c lines 37-80).
    - [Iter]: [get_next_item] and [reset_list_item] (lines 299-328).
    - [Frame]: what a sequence of calls may change: [frame s s' X N]
      (only the containers [X] and the nodes [N]; every other member is
      exactly as it was, its [footprint]), [owns s0 s X N] (everything
      that changed since [s0] is among [X] and [N], which were free in
      [s0]: the allocation accounting of a client) and [fresh_frame],
      with the lemmas that carry a list's representation across such a
      change.
    - [Bubble]: the reference bubble sort on Rocq lists (one pass and the
      repeat-until-no-swap loop), its termination when the comparator is
      total ([CmpTotal]), its result sorted and a permutation of its input,
      and its stability ([cmp_class]: items accepted in either order).
    - [Sort]: [sort_list] (lines 132-162) on the heap, and its refinement of
      [Bubble]'s reference definition.
    - [Join]: [join_lists] (lines 83-95).
    - [Delete]: [delete_list] (lines 102-122).
    - [Search]: [search_in_list] (lines 174-199), built from the modelled
      [create_list], [append_to_list] and [list_size] as the C code calls
      them; [selected] is the abstract selection.
    - [Duplicate]: [duplicate_list] (lines 265-291), proved equal to
      [search_in_list] with a criterion that accepts every item.
    - [Remove]: [remove_from_list] (lines 208-244): the pass with the
      trailing [previous] pointer, proved by an invariant on the survivors
      so far ([kl], a segment from [first] to the next member to visit)
      and the rest of the chain.
    - [Api]: liblist.h.  The eleven prototypes are the record of
      operations [ListAPI]; [liblist] fills it with the definitions of
      liblist.c.  The behaviour each comment of liblist.h and liblist.c
      documents is a specification over [rep_at] ([create_spec],
      [append_spec] with its codes 0/1/2, ..., [reset_spec]), bundled as
      [ListSpec]; where the code needs more than its comment says, the
      specification carries the code's precondition.  [remove_doc] is the
      comment of [remove_from_list] read literally.
    - [Scenario]: client code of test_list.c written over any [ListAPI]
      and proved from [ListSpec] alone: [print_list] (lines 18-26, the
      values it prints), building a list and printing it back
      ([build_and_read]), sorting a copy ([sorted_copy], lines 77-78),
      a sequence of appends that keeps their codes ([append_codes]), and
      an append made in the middle of an iteration.
    - [Main]: [main] of test_list.c (lines 49-100) over [ListAPI], in its
      five blocks ([build_random], [copies], [split_join], [prune],
      [cleanup]), with [duplicate_number] and the filling loop
      [fill_list]; [rand()] is an input sequence [rnd].  Its proofs carry
      the representation of every live list across the calls with the
      frame predicates of [Frame], and account for every allocation with
      [owns].
    - [Invariant]: the whole heap as the library sees it.  [heap_wf_by s R]
      says that the map [R] gives, for each live container, the nodes of a
      well-formed list ([rep_at]), and that no node belongs to two lists;
      [lib_step] has one rule per function of liblist.h, each with the
      precondition under which the call keeps the heap well formed (room
      in the [int] counter, a cursor not on an item to remove, for
      [join_lists] two distinct lists whose second one is non-empty when
      the first is).
    - [Store]: the library seen from outside, as a store of abstract
      lists.  [abstract s] reads every live container back by walking its
      chain ([walk] of [Chain]) and locating [current] in it, together
      with the destructor trace.  A [call] is one call of liblist.h as
      its caller sees it (function, arguments with the callbacks, result);
      [lib_call] is the C code making it (the rules of [lib_step],
      labelled) and [store_call] the abstract library making it, one or
      more rules per function from the comments of liblist.h, the result
      fixed by the store except where an allocation fails.
      [reachable_refines] shows that every sequence of calls of the C
      library is matched by the same sequence of abstract calls.

    The components interact as the C functions call each other, and the
    test program reaches the library only through liblist.h:
    [search_in_list] and [duplicate_list] call [create_list],
    [append_to_list] and [list_size]; the theorems about them use the
    run lemmas of [Append] ([append_to_list_run], [create_list_run_ok]),
    and the frame lemmas of [Chain] ([untouched], [rep_at_untouched],
    [seg_untouched]) carry a list's representation across a call that
    changes another list.  [Main] and [Store] compose several calls
    through the frame predicates of [Frame].

    Loops over the chain take fuel; the C entry points supply
    [S (size of the member heap)] for list traversals, enough because a
    chain is duplicate free and lives in the heap, and the theorems show
    that the fuel never runs out on a well-formed list.  [sort_list]'s
    outer loop gets [S (n * n)] passes for a heap of [n] members: every
    pass but the last removes at least one inversion, and there are fewer
    than [n * n] inversions.

    ** What the theorems show (the groups of PROJECT.json)

    - refinement: each C operation, run on a heap that represents an
      abstract list, returns the documented result and leaves a heap that
      represents the abstract result, with the rest of the heap framed
      ([append_to_list_refines], [get_next_item_refines],
      [remove_from_list_refines], [join_lists_refines],
      [search_in_list_refines], [duplicate_list_refines],
      [delete_list_spec]); together they show that liblist.c meets the
      specification [ListSpec] of liblist.h ([liblist_spec_run]);
    - allocation failures: [search_in_list] terminates and keeps the
      heap well formed whatever [calloc] answers, dropping the copies
      whose node it cannot allocate ([search_in_list_any_alloc]);
    - error paths: each early return of the C code ([!item], allocation
      failure, [!cmp], [!criterion], empty list) with its result value and
      its state;
    - invariant: every heap reachable by [lib_step] from a well-formed
      heap is well formed ([reachable_wf]), by induction on the steps,
      one preservation lemma per call ([heap_wf_append], ...); the runs
      of the library refine runs of the abstract store, each call being
      the same call, with the same arguments and result, of the abstract
      library on the lists the heaps represent ([reachable_refines], from
      one simulation lemma per call);
    - the test program: for any implementation of liblist.h that meets
      [ListSpec], [main] returns 0 after printing exactly the lines of
      [expected_output] (the random list, its two sorts, the two halves
      sorted and joined, the count removed, the rest sorted) when no
      [calloc] fails and the random items fall on both sides of 50
      ([main_prints]), and it leaks nothing: the heap ends with exactly
      the containers and members it began with, [free] having run on
      the removed items and then on every item of the four deleted
      lists; a list built by appends prints back (a round trip),
      a sorted copy leaves its original untouched, and after any
      sequence of appends to a liblist.c list, with any allocation
      failures, [list_size] counts the calls that returned 0
      ([appends_size]);
    - liveness and types: the iteration always ends, returning the
      remaining items and then NULL within [size + 1] calls
      ([get_next_item_reaches_end]);
    - termination and equivalence: the heap bubble sort computes exactly
      the reference bubble sort, which terminates for a total comparator
      with a sorted permutation, and runs forever on two items that the
      comparator accepts in neither order; [sort_list] is stable
      ([sort_list_stable]);
    - findings: [join_lists] with an empty second list leaves a non-empty
      list whose [last] is NULL, after which [append_to_list] dereferences
      NULL; [remove_from_list] leaves the cursor on a freed member, after
      which [get_next_item] reads freed memory; [append_to_list] with a
      NULL list dereferences NULL; test_list.c prints the NULL result of
      a search that found nothing, a NULL dereference ([main_null_search]),
      and does not check [create_list], so a failed [calloc] there makes
      the filling loop append to NULL ([main_create_fail]);
      [remove_from_list] returns -1, not 0, on an empty list, against its
      comment ([remove_doc_violated]); [join_lists] of a list with itself
      frees the container and turns the list into a cycle through its
      old tail, its members left live but unreachable
      ([join_lists_self]).

    ** Not modelled

    In test_list.c, [printf] is modelled by the values it prints,
    [rand] by an input sequence ([srand] and [time] only seed it), the
    [int] cells the program allocates for its items are not part of the
    list heap (their [calloc] at line 70 consumes an allocator answer; the
    one of [duplicate_number] is taken to succeed), and [free] passed as a
    destructor is the event of [destroyed].  Item contents are opaque:
    callbacks are pure functions of the items (so a duplicator's own
    allocation failures appear as a NULL result, not through the oracle),
    items are never dereferenced by the library, and a destructor call is
    an event in the trace [destroyed], not a free of the item.  [int] counters are kept at
    their width: an increment that leaves the [int] range is undefined
    behaviour and faults. *)

From stdpp Require Export base list option gmap.
From Stdlib Require Export ZArith Lia.

Declare Scope liblist_scope.
Delimit Scope liblist_scope with ll.
Open Scope liblist_scope.

(** ** C [int] *)

Definition INT_MIN : Z := -2147483648.
Definition INT_MAX : Z := 2147483647.

(** [int_range z] holds when [z] is representable as a 32-bit [int]. *)
Definition int_range (z : Z) : bool := (INT_MIN <=? z)%Z && (z <=? INT_MAX)%Z.

(** ** Outcomes of a C computation *)

(** The undefined behaviours the model detects. *)
Inductive ub :=
  | NullDeref        (** dereference of a NULL pointer *)
  | UseAfterFree     (** dereference of a pointer to freed memory *)
  | InvalidFree      (** [free] of a pointer that is not live *)
  | SignedOverflow.  (** [int] arithmetic outside [INT_MIN .. INT_MAX] *)

#[export] Instance ub_eq_dec : EqDecision ub.
Proof. solve_decision. Defined.

Inductive res (A : Type) :=
  | Ok (a : A)
  | Fault (u : ub)
  | OutOfFuel.
Arguments Ok {A} a.
Arguments Fault {A} u.
Arguments OutOfFuel {A}.

(** ** The state-and-error monad *)

Definition M (S A : Type) : Type := S -> res (A * S).

Definition bind_M {S A B} (m : M S A) (k : A -> M S B) : M S B :=
  fun s => match m s with
           | Ok (a, s') => k a s'
           | Fault u => Fault u
           | OutOfFuel => OutOfFuel
           end.

Definition ret {S A} (a : A) : M S A := fun s => Ok (a, s).

(** [let* x := m in k] runs [m], binds its result to [x] and runs [k]. *)
Notation "'let*' x := m 'in' k" := (bind_M m (fun x => k))
  (at level 10, x name, m at level 100, k at level 200) : liblist_scope.
Notation "'let*' ' p := m 'in' k" := (bind_M m (fun x => match x with p => k end))
  (at level 10, p pattern, m at level 100, k at level 200) : liblist_scope.

Section Monad.
Context {S : Type}.

Definition get : M S S := fun s => Ok (s, s).
Definition put (s : S) : M S unit := fun _ => Ok (tt, s).
Definition modify (f : S -> S) : M S unit := fun s => Ok (tt, f s).
Definition fault {A} (u : ub) : M S A := fun _ => Fault u.
Definition out_of_fuel {A} : M S A := fun _ => OutOfFuel.

(** [c = a + b] on [int]: undefined when the sum leaves the range. *)
Definition int_add (a b : Z) : M S Z :=
  if int_range (a + b) then ret (a + b)%Z else fault SignedOverflow.

(** [runs m s a s'] : running [m] from [s] returns [a] in state [s']. *)
Definition runs {A} (m : M S A) (s : S) (a : A) (s' : S) : Prop :=
  m s = Ok (a, s').

Lemma bind_run {A B} (m : M S A) (k : A -> M S B) s :
  bind_M m k s = match m s with
               | Ok (a, s') => k a s'
               | Fault u => Fault u
               | OutOfFuel => OutOfFuel
               end.
Proof. reflexivity. Qed.

Lemma bind_Ok {A B} (m : M S A) (k : A -> M S B) s a s' :
  m s = Ok (a, s') -> bind_M m k s = k a s'.
Proof. intros H. rewrite bind_run, H. reflexivity. Qed.

Lemma ret_run {A} (a : A) s : (ret a : M S A) s = Ok (a, s).
Proof. reflexivity. Qed.

Lemma bind_ret_l {A B} (a : A) (k : A -> M S B) s : bind_M (ret a) k s = k a s.
Proof. reflexivity. Qed.

Lemma bind_assoc {A B C} (m : M S A) (k : A -> M S B) (g : B -> M S C) s :
  bind_M (bind_M m k) g s = bind_M m (fun a => bind_M (k a) g) s.
Proof.
  rewrite !bind_run. destruct (m s) as [[a s']| |]; reflexivity.
Qed.

(** A bind succeeds exactly when both halves succeed. *)
Lemma bind_Ok_inv {A B} (m : M S A) (k : A -> M S B) s b s'' :
  bind_M m k s = Ok (b, s'') ->
  exists a s', m s = Ok (a, s') /\ k a s' = Ok (b, s'').
Proof.
  rewrite bind_run. destruct (m s) as [[a s']| |]; [eauto|discriminate|discriminate].
Qed.

Lemma bind_Fault {A B} (m : M S A) (k : A -> M S B) s u :
  m s = Fault u -> bind_M m k s = Fault u.
Proof. intros H. rewrite bind_run, H. reflexivity. Qed.

Lemma bind_OutOfFuel {A B} (m : M S A) (k : A -> M S B) s :
  m s = OutOfFuel -> bind_M m k s = OutOfFuel.
Proof. intros H. rewrite bind_run, H. reflexivity. Qed.

Lemma int_add_ok a b s :
  int_range (a + b) = true -> (int_add a b : M S Z) s = Ok ((a + b)%Z, s).
Proof. unfold int_add. intros ->. reflexivity. Qed.

Lemma int_add_overflow a b s :
  int_range (a + b) = false -> (int_add a b : M S Z) s = Fault SignedOverflow.
Proof. unfold int_add. intros ->. reflexivity. Qed.
End Monad.

Lemma int_range_spec z : int_range z = true <-> (INT_MIN <= z <= INT_MAX)%Z.
Proof. unfold int_range. rewrite andb_true_iff, !Z.leb_le. tauto. Qed.

(** ** Generic list lemmas *)

(** stdpp's [last] under a name that the [last] field of [struct _list]
    does not hide. *)
Abbreviation list_last := last (only parsing).

Lemma last_Some_elem {A} (l : list A) x : last l = Some x -> x ∈ l.
Proof.
  intros H. rewrite last_lookup in H. by eapply list_elem_of_lookup_2.
Qed.

Lemma lookup_last_index {A} (l : list A) i x :
  l !! i = Some x -> S i = length l -> last l = Some x.
Proof. intros H E. rewrite last_lookup, <- E. exact H. Qed.

Create HintDb liblist.
Create Rewrite HintDb liblist_rw.
#[export] Hint Resolve last_Some_elem : liblist.
#[export] Hint Rewrite @ret_run @bind_ret_l @int_add_ok using (done || lia) : liblist_rw.

(** [mrun] unfolds the monad plumbing of a goal or hypothesis. *)
Ltac mrun :=
  repeat (rewrite ?bind_run, ?ret_run; simpl).

(** [invert_run H] takes apart a successful bind in hypothesis [H]. *)
Ltac invert_run H :=
  let a := fresh "a" in let s := fresh "s" in
  let H1 := fresh "Hrun" in let H2 := fresh "Hrun" in
  apply bind_Ok_inv in H; destruct H as (a & s & H1 & H2).

(** [set_solver] in a proof that composes runs: the run equations
    [m s = Ok _] of the context are cleared first, since [set_solver]
    would otherwise unfold them. *)
Ltac set_solver_runs :=
  repeat match goal with H : _ = Ok _ |- _ => clear H end; set_solver.
