(* ===== verification/Spec.v ===== *)
(** The abstract contract of a list (spec.md section 4): the items in
    order and the position of the external iteration cursor.  Each C
    operation of liblist is specified by a pure function on [alist]; the
    component files prove that the heap code refines them. *)

From S2P Require Import Prelude.

Record alist (Item : Type) := AList {
  elems : list Item;        (** the items, first to last *)
  cursor : option nat       (** [None]: before the first item; [Some i]:
                                the last item returned was item [i] *)
}.
Arguments AList {Item} elems cursor.
Arguments elems {Item} a.
Arguments cursor {Item} a.

Section Spec.
Context {Item : Type}.
Implicit Types (A B : alist Item) (x : Item).

(** A cursor is meaningful when it is unset or indexes an item. *)
Definition cursor_wf A : Prop :=
  match cursor A with None => True | Some i => i < length (elems A) end.

Definition a_empty : alist Item := AList [] None.

Definition a_append x A : alist Item := AList (elems A ++ [x]) (cursor A).

Definition a_join A B : alist Item := AList (elems A ++ elems B) (cursor A).

Definition a_reset A : alist Item := AList (elems A) None.

(** One call of the external iterator: the next item, or [None] and a
    reset cursor once the last item has been returned. *)
Definition a_next A : option Item * alist Item :=
  match elems A with
  | [] => (None, A)
  | x0 :: _ =>
      match cursor A with
      | None => (Some x0, AList (elems A) (Some 0))
      | Some i =>
          if decide (S i = length (elems A)) then (None, AList (elems A) None)
          else (elems A !! S i, AList (elems A) (Some (S i)))
      end
  end.

(** [k] successive calls of the iterator, with the items they return. *)
Fixpoint a_next_n (k : nat) A : list (option Item) * alist Item :=
  match k with
  | 0 => ([], A)
  | S k' =>
      let '(o, A1) := a_next A in
      let '(os, A2) := a_next_n k' A1 in
      (o :: os, A2)
  end.

Lemma a_append_wf x A : cursor_wf A -> cursor_wf (a_append x A).
Proof.
  unfold cursor_wf, a_append; simpl. rewrite length_app.
  destruct (cursor A); simpl; lia.
Qed.

Lemma a_next_wf A : cursor_wf A -> cursor_wf (a_next A).2.
Proof.
  destruct A as [[|x0 l] [i|]]; unfold cursor_wf, a_next; simpl; try done; try lia.
  case_decide; simpl; [done|lia].
Qed.
(** From the cursor at item [i], the iterator returns the remaining
    items, then [None], and is reset. *)
Lemma a_next_n_from xs i :
  S i <= length xs ->
  a_next_n (length xs - i) (AList xs (Some i)) = (map Some (drop (S i) xs) ++ [None], AList xs None).
Proof.
  remember (length xs - i) as k eqn:Hk. revert i Hk.
  induction k as [|k IH]; intros i Hk Hi; [lia|].
  destruct xs as [|x0 xs']; [simpl in Hi; lia|].
  cbn [a_next_n]. unfold a_next. cbn [elems cursor]. case_decide as E.
  - assert (k = 0) as -> by (simpl in *; lia). cbn [a_next_n].
    rewrite drop_ge by (simpl in *; lia). reflexivity.
  - rewrite (IH (S i)) by (simpl in *; lia).
    destruct (lookup_lt_is_Some_2 xs' i) as [y Hy]; [simpl in *; lia|].
    simpl. rewrite Hy. rewrite (drop_S xs' y i Hy). reflexivity.
Qed.

(** From a reset cursor, [length xs + 1] calls return every item in
    order and then [None], and leave the cursor reset. *)
Lemma a_next_n_all xs :
  a_next_n (S (length xs)) (AList xs None) = (map Some xs ++ [None], AList xs None).
Proof.
  destruct xs as [|x0 xs']; [reflexivity|].
  cbn [a_next_n]. unfold a_next at 1. cbn [elems cursor].
  pose proof (a_next_n_from (x0 :: xs') 0) as H. rewrite Nat.sub_0_r in H.
  rewrite H by (simpl; lia). reflexivity.
Qed.

(** The items the iterator has yet to return. *)
Definition a_remaining A : list Item :=
  drop (match cursor A with None => 0 | Some i => S i end) (elems A).

(** Whatever the cursor, the iterator returns [None] after at most
    [length] further items, having returned exactly the remaining ones,
    and is then reset. *)
Lemma a_next_n_reaches_end A :
  cursor_wf A ->
  exists k, k <= length (elems A) /\ a_next_n (S k) A = (map Some (a_remaining A) ++ [None], a_reset A).
Proof.
  destruct A as [xs [i|]]; unfold cursor_wf, a_remaining, a_reset; cbn [elems cursor]; intros Hi.
  - exists (length xs - i - 1). split; [lia|].
    replace (S (length xs - i - 1)) with (length xs - i) by lia. by apply a_next_n_from.
  - exists (length xs). split; [lia|]. rewrite drop_0. apply a_next_n_all.
Qed.

Lemma a_remaining_length A : length (a_remaining A) <= length (elems A).
Proof. unfold a_remaining. rewrite length_drop. lia. Qed.

(** One iterator step either finds nothing left, and resets, or returns
    the first remaining item and leaves the rest. *)
Lemma a_next_remaining A :
  cursor_wf A ->
  (a_remaining A = [] /\ a_next A = (None, a_reset A)) \/
  (exists x r, a_remaining A = x :: r /\ (a_next A).1 = Some x /\ a_remaining (a_next A).2 = r /\
     cursor_wf (a_next A).2 /\ elems (a_next A).2 = elems A).
Proof.
  destruct A as [[|x0 xs'] [i|]]; unfold cursor_wf, a_remaining, a_next, a_reset; cbn [elems cursor];
    intros Hi; [simpl in Hi; lia|by left|..].
  - case_decide as E; [left; split; [apply drop_ge; lia|done]|right].
    destruct (lookup_lt_is_Some_2 (x0 :: xs') (S i)) as [y Hy]; [simpl in *; lia|].
    exists y, (drop (S (S i)) (x0 :: xs')). rewrite (drop_S _ _ _ Hy), Hy. cbn. split_and!; try done.
    simpl in *; lia.
  - right. exists x0, xs'. cbn. split_and!; try done. simpl. lia.
Qed.
End Spec.

#[export] Hint Resolve a_append_wf a_next_wf : liblist.
