(* ===== verification/Heap.v ===== *)
(** The C memory of liblist: the two structs of liblist.c, a heap of live
    members and list containers, [calloc] with an allocation oracle, and
    the loads, stores and frees that fault on NULL or freed pointers. *)

From S2P Require Import Prelude.

(** Addresses.  A C pointer is [ptr]: [None] is NULL. *)
Abbreviation loc := positive (only parsing).
Abbreviation ptr := (option positive) (only parsing).

(** [typedef struct list_member { next; item; } Member] (liblist.c 19-22).
    The item is the caller's [void *]; the library only stores it. *)
Record Member (Item : Type) := mkMember {
  next : ptr;
  item : Item
}.
Arguments mkMember {Item} next item.
Arguments next {Item}.
Arguments item {Item}.

(** [struct _list] (liblist.c 25-30). *)
Record ListS := mkListS {
  first : ptr;
  last : ptr;
  current : ptr;
  total_members : Z
}.

(** The heap: live members and list containers, the allocation oracle
    and the trace of destructor calls. *)
Record Mem (Item : Type) := mkMem {
  members : gmap positive (Member Item);
  lists : gmap positive ListS;
  oracle : list bool;
  destroyed : list Item
}.
Arguments mkMem {Item} members lists oracle destroyed.
Arguments members {Item}.
Arguments lists {Item}.
Arguments oracle {Item}.
Arguments destroyed {Item}.

Definition set_next {Item} (m : Member Item) (n : ptr) : Member Item :=
  mkMember n (item m).
Definition set_item {Item} (m : Member Item) (x : Item) : Member Item :=
  mkMember (next m) x.

Definition set_first (L : ListS) (p : ptr) : ListS :=
  mkListS p (last L) (current L) (total_members L).
Definition set_last (L : ListS) (p : ptr) : ListS :=
  mkListS (first L) p (current L) (total_members L).
Definition set_current (L : ListS) (p : ptr) : ListS :=
  mkListS (first L) (last L) p (total_members L).
Definition set_total (L : ListS) (n : Z) : ListS :=
  mkListS (first L) (last L) (current L) n.

(** [calloc(1, sizeof(List))]: all fields zero. *)
Definition empty_ListS : ListS := mkListS None None None 0.

Section Heap.
Context {Item : Type}.
Local Abbreviation ST := (M (Mem Item)).
Implicit Types (s : Mem Item) (p : ptr).

Definition with_members s (h : gmap positive (Member Item)) : Mem Item :=
  mkMem h (lists s) (oracle s) (destroyed s).
Definition with_lists s (ls : gmap positive ListS) : Mem Item :=
  mkMem (members s) ls (oracle s) (destroyed s).

(** The live addresses; a fresh one is outside them. *)
Definition used s : gset positive := dom (members s) ∪ dom (lists s).

(** Whether the next [calloc] succeeds: the oracle's head, success once
    it is exhausted. *)
Definition calloc_ok : ST bool := fun s =>
  match oracle s with
  | [] => Ok (true, s)
  | b :: o => Ok (b, mkMem (members s) (lists s) o (destroyed s))
  end.

(** [new = calloc(1, sizeof(Member)); new->item = item;]
    (liblist.c 63-67, the NULL check of line 64 is the caller's). *)
Definition alloc_member (x : Item) : ST ptr :=
  let* ok := calloc_ok in
  if ok then
    let* s := get in
    let l := fresh (used s) in
    let* _ := put (with_members s (<[l := mkMember None x]> (members s))) in
    ret (Some l)
  else ret None.

(** [calloc(1, sizeof(List))] (liblist.c 41). *)
Definition alloc_list : ST ptr :=
  let* ok := calloc_ok in
  if ok then
    let* s := get in
    let l := fresh (used s) in
    let* _ := put (with_lists s (<[l := empty_ListS]> (lists s))) in
    ret (Some l)
  else ret None.

(** [*p] for a member pointer. *)
Definition load_member p : ST (Member Item) := fun s =>
  match p with
  | None => Fault NullDeref
  | Some l => match members s !! l with
              | Some m => Ok (m, s)
              | None => Fault UseAfterFree
              end
  end.

Definition store_member p (m : Member Item) : ST unit := fun s =>
  match p with
  | None => Fault NullDeref
  | Some l => match members s !! l with
              | Some _ => Ok (tt, with_members s (<[l := m]> (members s)))
              | None => Fault UseAfterFree
              end
  end.

(** [free(p)]: a no-op on NULL, undefined on a pointer that is not live. *)
Definition free_member p : ST unit := fun s =>
  match p with
  | None => Ok (tt, s)
  | Some l => match members s !! l with
              | Some _ => Ok (tt, with_members s (delete l (members s)))
              | None => Fault InvalidFree
              end
  end.

Definition load_list p : ST ListS := fun s =>
  match p with
  | None => Fault NullDeref
  | Some l => match lists s !! l with
              | Some L => Ok (L, s)
              | None => Fault UseAfterFree
              end
  end.

Definition store_list p (L : ListS) : ST unit := fun s =>
  match p with
  | None => Fault NullDeref
  | Some l => match lists s !! l with
              | Some _ => Ok (tt, with_lists s (<[l := L]> (lists s)))
              | None => Fault UseAfterFree
              end
  end.

Definition free_list p : ST unit := fun s =>
  match p with
  | None => Ok (tt, s)
  | Some l => match lists s !! l with
              | Some _ => Ok (tt, with_lists s (delete l (lists s)))
              | None => Fault InvalidFree
              end
  end.

(** [delete_item(x)]: the caller's destructor, recorded as an event. *)
Definition call_delete (x : Item) : ST unit := fun s =>
  Ok (tt, mkMem (members s) (lists s) (oracle s) (destroyed s ++ [x])).

(** ** Running the primitives *)

(** The items a destructor receives: all of them, or none without one. *)
Definition destroyed_items (d : option (Item -> unit)) (xs : list Item) : list Item :=
  match d with Some _ => xs | None => [] end.

Lemma destroyed_items_app d xs ys :
  destroyed_items d (xs ++ ys) = destroyed_items d xs ++ destroyed_items d ys.
Proof. by destruct d. Qed.

Lemma load_member_run s l m :
  members s !! l = Some m -> load_member (Some l) s = Ok (m, s).
Proof. simpl. intros ->. reflexivity. Qed.

Lemma store_member_run s l m m' :
  members s !! l = Some m ->
  store_member (Some l) m' s = Ok (tt, with_members s (<[l := m']> (members s))).
Proof. simpl. intros ->. reflexivity. Qed.

Lemma free_member_run s l m :
  members s !! l = Some m ->
  free_member (Some l) s = Ok (tt, with_members s (delete l (members s))).
Proof. simpl. intros ->. reflexivity. Qed.

Lemma load_list_run s l L :
  lists s !! l = Some L -> load_list (Some l) s = Ok (L, s).
Proof. simpl. intros ->. reflexivity. Qed.

Lemma store_list_run s l L L' :
  lists s !! l = Some L ->
  store_list (Some l) L' s = Ok (tt, with_lists s (<[l := L']> (lists s))).
Proof. simpl. intros ->. reflexivity. Qed.

Lemma free_list_run s l L :
  lists s !! l = Some L ->
  free_list (Some l) s = Ok (tt, with_lists s (delete l (lists s))).
Proof. simpl. intros ->. reflexivity. Qed.

(** The fresh address of an allocation is not live. *)
Lemma fresh_member_free s : members s !! fresh (used s) = None.
Proof.
  apply not_elem_of_dom. pose proof (is_fresh (used s)). unfold used in *. set_solver.
Qed.

Lemma fresh_list_free s : lists s !! fresh (used s) = None.
Proof.
  apply not_elem_of_dom. pose proof (is_fresh (used s)). unfold used in *. set_solver.
Qed.

(** The state after [calloc] consumed one answer of the oracle. *)
Definition pop_oracle s : Mem Item :=
  mkMem (members s) (lists s) (tail (oracle s)) (destroyed s).

Lemma calloc_ok_run s :
  calloc_ok s = Ok (default true (head (oracle s)), pop_oracle s).
Proof. unfold calloc_ok, pop_oracle. destruct s as [h ls [|b o] d]; reflexivity. Qed.

Lemma alloc_member_run_ok s x :
  head (oracle s) <> Some false ->
  alloc_member x s =
    Ok (Some (fresh (used s)),
        with_members (pop_oracle s)
          (<[fresh (used s) := mkMember None x]> (members s))).
Proof.
  intros H. unfold alloc_member. rewrite bind_run, calloc_ok_run.
  destruct s as [h ls [|[] o] d]; simpl in *; try reflexivity. congruence.
Qed.

Lemma alloc_member_run_fail s x :
  head (oracle s) = Some false -> alloc_member x s = Ok (None, pop_oracle s).
Proof.
  intros H. unfold alloc_member. rewrite bind_run, calloc_ok_run, H. reflexivity.
Qed.

Lemma alloc_list_run_ok s :
  head (oracle s) <> Some false ->
  alloc_list s =
    Ok (Some (fresh (used s)),
        with_lists (pop_oracle s) (<[fresh (used s) := empty_ListS]> (lists s))).
Proof.
  intros H. unfold alloc_list. rewrite bind_run, calloc_ok_run.
  destruct s as [h ls [|[] o] d]; simpl in *; try reflexivity. congruence.
Qed.

Lemma alloc_list_run_fail s :
  head (oracle s) = Some false -> alloc_list s = Ok (None, pop_oracle s).
Proof.
  intros H. unfold alloc_list. rewrite bind_run, calloc_ok_run, H. reflexivity.
Qed.

(** An allocation oracle without [false]: every [calloc] succeeds. *)
Lemma no_fail_head (o : list bool) : false ∉ o -> head o <> Some false.
Proof. destruct o; simpl; [done|]. intros H [= ->]. apply H. left. Qed.

Lemma no_fail_tail (o : list bool) : false ∉ o -> false ∉ tail o.
Proof. destruct o; simpl; [done|]. intros H Hin. apply H. by right. Qed.

Lemma used_pop_oracle s : used (pop_oracle s) = used s.
Proof. reflexivity. Qed.
End Heap.

(** Unfold the heap primitives of a goal, and simplify the record and map
    plumbing they leave. *)
Ltac heap_unfold :=
  unfold bind_M, ret, get, put, fault, out_of_fuel, load_list, store_list,
    free_list, load_member, store_member, free_member, call_delete, int_add.

Ltac heap_simpl :=
  cbn [ret fault with_members with_lists members lists oracle destroyed pop_oracle next
       item first last current total_members set_first set_last set_current
       set_total set_next set_item] in *.

Ltac hrun :=
  repeat progress (heap_simpl; rewrite ?lookup_insert_eq, ?lookup_delete_eq;
                   rewrite ?lookup_insert_ne, ?lookup_delete_ne by done;
                   try simplify_map_eq).
