(* ===== verification/Chain.v ===== *)
(** The representation invariant of liblist: a chain of [Member]s
    linked by [next], and the invariant of [struct _list] relating a
    container to the abstract list [alist] of [Spec]. *)

From S2P Require Import Prelude Spec Heap.

Section Chain.
Context {Item : Type}.
Implicit Types (h : gmap positive (Member Item)) (ls : list positive)
  (xs : list Item) (p q r : ptr).

(** [seg h p q ls xs]: following [next] from [p] visits the members
    [ls], holding the items [xs], and arrives at [q]. *)
Inductive seg h : ptr -> ptr -> list positive -> list Item -> Prop :=
  | seg_nil p : seg h p p [] []
  | seg_cons l m q ls xs :
      h !! l = Some m -> seg h (next m) q ls xs ->
      seg h (Some l) q (l :: ls) (item m :: xs).

(** A NULL-terminated chain. *)
Definition chain h p ls xs : Prop := seg h p None ls xs.

(** The cursor [current] against the abstract cursor index. *)
Definition cur_rel ls (cur : ptr) (c : option nat) : Prop :=
  match c with
  | None => cur = None
  | Some i => cur = ls !! i /\ i < length ls
  end.

(** The invariant of [struct _list] (spec.md section 3), for the
    container [L] with nodes [ls] representing [A]. *)
Record list_ok h (L : ListS) ls (A : alist Item) : Prop := {
  ok_chain : chain h (first L) ls (elems A);
  ok_last : last L = list_last ls;
  ok_total : total_members L = Z.of_nat (length ls);
  ok_range : (Z.of_nat (length ls) <= INT_MAX)%Z;
  ok_cur : cur_rel ls (current L) (cursor A)
}.

(** The container at address [lp] is live, has the nodes [ls] and
    represents [A]. *)
Definition rep_at (s : Mem Item) (lp : positive) ls (A : alist Item) : Prop :=
  exists L, lists s !! lp = Some L /\ list_ok (members s) L ls A.

Definition rep (s : Mem Item) (lp : positive) (A : alist Item) : Prop :=
  exists ls, rep_at s lp ls A.

(** A step that changes at most the container [lp] and the members
    [ls] leaves everything else as it was. *)
Definition untouched (s s' : Mem Item) (lp : positive) ls : Prop :=
  (forall lq, lq <> lp -> lists s' !! lq = lists s !! lq) /\
  (forall l m, l ∉ ls -> members s !! l = Some m -> members s' !! l = Some m).

(** ** Segments *)

Lemma seg_length h p q ls xs : seg h p q ls xs -> length ls = length xs.
Proof. induction 1; simpl; lia. Qed.

Lemma seg_app h p q r ls1 ls2 xs1 xs2 :
  seg h p q ls1 xs1 -> seg h q r ls2 xs2 -> seg h p r (ls1 ++ ls2) (xs1 ++ xs2).
Proof. induction 1; intros; simpl; [done|]. econstructor; eauto. Qed.

Lemma seg_app_inv h p r ls1 ls2 xs :
  seg h p r (ls1 ++ ls2) xs ->
  exists q xs1 xs2, xs = xs1 ++ xs2 /\ seg h p q ls1 xs1 /\ seg h q r ls2 xs2.
Proof.
  revert p xs. induction ls1 as [|l ls1 IH]; intros p xs H; simpl in H.
  - exists p, [], xs. split_and!; [done|constructor|done].
  - inversion H as [|? m ? ? xs' Hl Hs]; subst.
    destruct (IH _ _ Hs) as (q & xs1 & xs2 & -> & H1 & H2).
    exists q, (item m :: xs1), xs2. split_and!; [done|econstructor; eauto|done].
Qed.

Lemma seg_snoc h p l m ls xs :
  seg h p (Some l) ls xs -> h !! l = Some m ->
  seg h p (next m) (ls ++ [l]) (xs ++ [item m]).
Proof. intros H1 H2. eapply seg_app; [exact H1|]. econstructor; [exact H2|constructor]. Qed.

(** Members outside the segment do not matter. *)
Lemma seg_frame h h' p q ls xs :
  seg h p q ls xs -> (forall l, l ∈ ls -> h' !! l = h !! l) -> seg h' p q ls xs.
Proof.
  induction 1 as [|l m q ls xs Hl Hs IH]; intros Hag; [constructor|].
  econstructor.
  - rewrite Hag; [exact Hl|set_solver].
  - apply IH. intros l' Hl'. apply Hag. set_solver.
Qed.

Lemma seg_live h p q ls xs l : seg h p q ls xs -> l ∈ ls -> is_Some (h !! l).
Proof.
  induction 1 as [|l' m q ls xs Hl Hs IH]; [set_solver|].
  rewrite elem_of_cons. intros [->|Hin]; [by eexists|auto].
Qed.

Lemma seg_single_inv h p q l xs :
  seg h p q [l] xs ->
  p = Some l /\ exists m, h !! l = Some m /\ xs = [item m] /\ next m = q.
Proof.
  inversion 1 as [|? m ? ? ? Hm Hs]; subst.
  inversion Hs; subst. eauto 6.
Qed.

Lemma seg_fresh_notin h p q ls xs l : seg h p q ls xs -> h !! l = None -> l ∉ ls.
Proof. intros H Hl Hin. destruct (seg_live _ _ _ _ _ _ H Hin). congruence. Qed.

Lemma seg_head h p q ls xs : seg h p q ls xs -> ls <> [] -> p = head ls.
Proof. destruct 1; [done|reflexivity]. Qed.

(** ** NULL-terminated chains *)

Lemma chain_nil_inv h ls xs : chain h None ls xs -> ls = [] /\ xs = [].
Proof. inversion 1; auto. Qed.

Lemma chain_nil_l h p xs : chain h p [] xs -> p = None /\ xs = [].
Proof. inversion 1; auto. Qed.

Lemma chain_nil_r h p ls : chain h p ls [] -> p = None /\ ls = [].
Proof. inversion 1; auto. Qed.

Lemma chain_head h p ls xs : chain h p ls xs -> p = head ls.
Proof. unfold chain. inversion 1; reflexivity. Qed.

Lemma chain_det h p ls1 xs1 ls2 xs2 :
  chain h p ls1 xs1 -> chain h p ls2 xs2 -> ls1 = ls2 /\ xs1 = xs2.
Proof.
  unfold chain. intros H1. remember None as z eqn:Ez.
  revert ls2 xs2. induction H1 as [p|l m q ls xs Hl Hs IH]; intros ls2 xs2 H2; subst.
  - by apply chain_nil_inv in H2 as [-> ->].
  - inversion H2 as [|? m' ? ? ? Hl' Hs']; subst.
    rewrite Hl in Hl'. injection Hl' as <-.
    destruct (IH eq_refl _ _ Hs') as [-> ->]. done.
Qed.

(** A chain never visits a member twice. *)
Lemma chain_NoDup h p ls xs : chain h p ls xs -> NoDup ls.
Proof.
  unfold chain. revert p xs. induction ls as [|l ls IH]; intros p xs H; [constructor|].
  inversion H as [|? m ? ? ? Hl Hs]; subst.
  constructor; [|eapply IH; eauto].
  intros Hin. apply list_elem_of_split in Hin as (ls1 & ls2 & ->).
  apply seg_app_inv in Hs as (q & xs1 & xs2 & _ & _ & H2).
  inversion H2; subst.
  destruct (chain_det _ _ _ _ _ _ H H2) as [E _].
  apply (f_equal length) in E. simpl in E. rewrite length_app in E. simpl in E. lia.
Qed.

(** The last member of a chain ends it. *)
Lemma chain_last h p ls xs l :
  chain h p ls xs -> list_last ls = Some l ->
  exists m, h !! l = Some m /\ next m = None.
Proof.
  unfold chain. intros H Hl.
  destruct (list_last ls) eqn:E; [|done]. injection Hl as ->.
  apply last_Some in E as [ls' ->].
  apply seg_app_inv in H as (q & xs1 & xs2 & _ & _ & H2).
  apply seg_single_inv in H2 as (_ & m & Hm & _ & Hn). eauto.
Qed.

(** Retargeting: pointing the last member of a segment elsewhere
    ([previous->next = ...]) makes the segment end there. *)
Lemma seg_retarget h p q ls xs lz mz q' :
  seg h p q ls xs -> NoDup ls -> list_last ls = Some lz -> h !! lz = Some mz ->
  seg (<[lz := set_next mz q']> h) p q' ls xs.
Proof.
  intros H Hnd Hl Hz. apply last_Some in Hl as [ls' ->].
  apply seg_app_inv in H as (q1 & xs1 & xs' & -> & H1 & Hz1).
  apply seg_single_inv in Hz1 as (-> & m & Hm & -> & Hn).
  rewrite Hz in Hm. injection Hm as <-.
  apply NoDup_app in Hnd as (_ & Hdisj & _).
  eapply seg_app.
  - eapply seg_frame; [exact H1|]. intros l Hin. rewrite lookup_insert_ne; [done|].
    intros <-. apply (Hdisj lz); set_solver.
  - apply (seg_cons _ lz (set_next mz q')); [by rewrite lookup_insert_eq|]. constructor.
Qed.

(** Linking: pointing the last member of one chain at the head of a
    disjoint chain concatenates them ([list->last->next = ...]). *)
Lemma chain_link h p ls xs lz mz q ls2 xs2 :
  chain h p ls xs -> list_last ls = Some lz -> h !! lz = Some mz ->
  chain h q ls2 xs2 -> ls ## ls2 ->
  chain (<[lz := set_next mz q]> h) p (ls ++ ls2) (xs ++ xs2).
Proof.
  unfold chain. intros H Hl Hz H2 Hdisj. eapply seg_app.
  - eapply seg_retarget; eauto using chain_NoDup.
  - eapply seg_frame; [exact H2|]. intros l Hin. rewrite lookup_insert_ne; [done|].
    intros <-. apply (Hdisj lz); [by apply last_Some_elem|done].
Qed.

(** A fresh member is a one-element chain, and adding it keeps the
    chains of the live members. *)
Lemma chain_fresh h l x : chain (<[l := mkMember None x]> h) (Some l) [l] [x].
Proof. apply (seg_cons _ l (mkMember None x)); [by rewrite lookup_insert_eq|constructor]. Qed.

Lemma seg_insert_fresh h p q ls xs l m :
  seg h p q ls xs -> h !! l = None -> seg (<[l := m]> h) p q ls xs.
Proof.
  intros H Hl. eapply seg_frame; [exact H|]. intros l' Hin.
  rewrite lookup_insert_ne; [done|]. intros ->. by apply (seg_fresh_notin _ _ _ _ _ _ H Hl).
Qed.

Lemma cur_rel_app ls ls' cur c : cur_rel ls cur c -> cur_rel (ls ++ ls') cur c.
Proof.
  destruct c as [i|]; simpl; [|done]. intros [-> Hi].
  rewrite lookup_app_l, length_app; [split; [done|lia]|done].
Qed.

(** The member at position [i] of a chain holds item [i] and points
    to member [i + 1] (NULL after the last one). *)
Lemma chain_lookup h p ls xs i l :
  chain h p ls xs -> ls !! i = Some l ->
  exists m, h !! l = Some m /\ next m = ls !! S i /\ xs !! i = Some (item m).
Proof.
  unfold chain. revert p xs i. induction ls as [|l0 ls IH]; intros p xs i H Hi; [done|].
  inversion H as [|? m ? ? ? Hm Hs]; subst. destruct i as [|i]; simpl in *.
  - injection Hi as <-. exists m. split_and!; [done| |done].
    inversion Hs; simpl; congruence.
  - eauto.
Qed.

(** In a chain, positions are determined by pointers. *)
Lemma chain_lookup_inj h p ls xs i j :
  chain h p ls xs -> is_Some (ls !! i) -> ls !! i = ls !! j -> i = j.
Proof.
  intros Hc [l Hi] Hij. eapply NoDup_lookup; [eauto using chain_NoDup|exact Hi|].
  by rewrite <- Hij.
Qed.

(** A chain is no longer than the heap it lives in. *)
Lemma chain_length_le h p ls xs : chain h p ls xs -> length ls <= size h.
Proof.
  intros Hc. rewrite <- (size_list_to_set (C := gset positive) ls) by eauto using chain_NoDup.
  rewrite <- size_dom. apply subseteq_size. intros l Hl.
  apply elem_of_list_to_set in Hl. apply elem_of_dom. eauto using seg_live.
Qed.

(** ** The container invariant *)

(** The invariant does not depend on [current] beyond [ok_cur]. *)
Lemma list_ok_current h L cur ls A c :
  list_ok h (set_current L cur) ls A -> cur_rel ls (current L) c ->
  list_ok h L ls (AList (elems A) c).
Proof. intros [Hc Hl Ht Hr _] Hcur. by split. Qed.

Lemma list_ok_NoDup h L ls A : list_ok h L ls A -> NoDup ls.
Proof. intros []. eauto using chain_NoDup. Qed.

Lemma list_ok_length h L ls A : list_ok h L ls A -> length ls = length (elems A).
Proof. intros []. eauto using seg_length. Qed.

Lemma list_ok_first h L ls A : list_ok h L ls A -> first L = head ls.
Proof. intros []. eauto using chain_head. Qed.

Lemma rep_at_frame s s' lp ls A :
  rep_at s lp ls A ->
  lists s' !! lp = lists s !! lp ->
  (forall l, l ∈ ls -> members s' !! l = members s !! l) ->
  rep_at s' lp ls A.
Proof.
  intros (L & HL & [Hc Hl Ht Hr Hcur]) Hlp Hm.
  exists L. split; [by rewrite Hlp|]. split; auto. eapply seg_frame; eauto.
Qed.

(** Consuming an allocation answer changes no list. *)
Lemma rep_at_pop_oracle s lp ls A : rep_at s lp ls A -> rep_at (pop_oracle s) lp ls A.
Proof. intros Hrep. by eapply rep_at_frame. Qed.

(** Nodes that were free are not nodes of a live list. *)
Lemma rep_at_fresh_disjoint s lp ls A lsn :
  rep_at s lp ls A -> (forall l, l ∈ lsn -> members s !! l = None) -> ls ## lsn.
Proof.
  intros (L & _ & Hok) Hfr l H1 H2. destruct (seg_live _ _ _ _ _ l (ok_chain _ _ _ _ Hok) H1) as [m Hm].
  by rewrite Hfr in Hm.
Qed.

Lemma untouched_refl s lp ls : untouched s s lp ls.
Proof. done. Qed.

Lemma untouched_trans s1 s2 s3 lp ls ls' :
  untouched s1 s2 lp ls -> untouched s2 s3 lp ls' ->
  (forall l, l ∈ ls' -> l ∈ ls \/ members s1 !! l = None) -> untouched s1 s3 lp ls.
Proof.
  intros [Hl1 Hm1] [Hl2 Hm2] Hsub. split.
  - intros lq Hq. by rewrite Hl2, Hl1.
  - intros l m Hl Hm. apply Hm2; [|by apply Hm1].
    intros Hin. destruct (Hsub l Hin) as [?|?]; [done|congruence].
Qed.

(** A chain whose nodes are disjoint from those a step changes is
    still there after the step. *)
Lemma seg_untouched s s' lp ls p q lsrc xs :
  untouched s s' lp ls -> lsrc ## ls ->
  seg (members s) p q lsrc xs -> seg (members s') p q lsrc xs.
Proof.
  intros [_ Hm] Hdisj Hc. eapply seg_frame; [exact Hc|]. intros l Hin.
  destruct (seg_live _ _ _ _ _ l Hc Hin) as [m Hlm].
  rewrite Hlm. apply Hm; [|done]. intros Hin'. by apply (Hdisj l).
Qed.

(** Another list, with nodes disjoint from those a step changes,
    still represents what it did. *)
Lemma rep_at_untouched s s' lp ls lq lsq B :
  untouched s s' lp ls -> lq <> lp -> lsq ## ls ->
  rep_at s lq lsq B -> rep_at s' lq lsq B.
Proof.
  intros Hu Hne Hdisj (L & HL & [Hc Hl Ht Hr Hcur]). exists L. split.
  - destruct Hu as [Hls _]. by rewrite Hls.
  - split; try done. by eapply seg_untouched.
Qed.

(** The footprint of a step on the members: only the nodes [N] may
    differ, so no other member is allocated, written or freed. *)
Definition footprint (s s' : Mem Item) (N : list positive) : Prop :=
  forall l, l ∉ N -> members s' !! l = members s !! l.

Lemma footprint_trans s1 s2 s3 N1 N2 :
  footprint s1 s2 N1 -> footprint s2 s3 N2 -> footprint s1 s3 (N1 ++ N2).
Proof. intros H1 H2 l Hl. rewrite H2, H1; [done|set_solver|set_solver]. Qed.

Lemma footprint_mono s s' N N' : footprint s s' N -> N ⊆ N' -> footprint s s' N'.
Proof. intros H HN l Hl. apply H. set_solver. Qed.

Lemma footprint_keep s s' N l m :
  footprint s s' N -> l ∉ N -> members s !! l = Some m -> members s' !! l = Some m.
Proof. intros H Hl Hm. by rewrite H. Qed.

(** A step that leaves the other members alone and keeps the list's
    own nodes live frees no member. *)
Lemma untouched_live s s' lp ls ls' B l :
  untouched s s' lp ls -> rep_at s' lp ls' B -> ls ⊆ ls' ->
  is_Some (members s !! l) -> is_Some (members s' !! l).
Proof.
  intros [_ Hm] (L & _ & [Hc _ _ _ _]) Hsub [m Hl].
  destruct (decide (l ∈ ls)) as [Hin|Hin].
  - eapply seg_live; [exact Hc|set_solver].
  - eexists. by apply Hm.
Qed.
End Chain.

(** ** Deciding the invariant

    [walk] follows a chain as the C loops do; with [S (length ls)] steps of
    fuel it decides [chain], which makes [list_ok] and [rep_at] decidable
    and lets concrete heaps be checked by computation. *)
Section Walk.
Context {Item : Type} `{EqDecision Item}.
Implicit Types (h : gmap positive (Member Item)) (ls : list positive) (xs : list Item).

Fixpoint walk (fuel : nat) h (p : ptr) : option (list positive * list Item) :=
  match p with
  | None => Some ([], [])
  | Some l =>
      match fuel with
      | 0 => None
      | S f =>
          match h !! l with
          | None => None
          | Some m =>
              match walk f h (next m) with
              | Some (ls, xs) => Some (l :: ls, item m :: xs)
              | None => None
              end
          end
      end
  end.

Lemma walk_sound fuel h p ls xs : walk fuel h p = Some (ls, xs) -> chain h p ls xs.
Proof.
  unfold chain. revert p ls xs. induction fuel as [|f IH]; intros [l|] ls xs; simpl.
  - done.
  - intros [= <- <-]. apply seg_nil.
  - destruct (h !! l) as [m|] eqn:Hl; [|done].
    destruct (walk f h (next m)) as [[ls' xs']|] eqn:Hw; [|done].
    intros [= <- <-]. econstructor; eauto.
  - intros [= <- <-]. apply seg_nil.
Qed.

Lemma walk_complete fuel h p ls xs :
  chain h p ls xs -> length ls < fuel -> walk fuel h p = Some (ls, xs).
Proof.
  unfold chain. intros H. remember None as z eqn:Ez. revert fuel.
  induction H as [p|l m q ls xs Hl Hs IH]; intros fuel Hf; subst.
  - by destruct fuel.
  - destruct fuel as [|f]; simpl in *; [lia|]. rewrite Hl, (IH eq_refl f) by lia. done.
Qed.

#[export] Instance chain_dec h p ls xs : Decision (chain h p ls xs).
Proof.
  destruct (decide (walk (S (length ls)) h p = Some (ls, xs))) as [Hw|Hw].
  - left. exact (walk_sound _ _ _ _ _ Hw).
  - right. intros Hc. apply Hw, walk_complete; [done|lia].
Defined.

#[export] Instance cur_rel_dec ls cur c : Decision (cur_rel ls cur c).
Proof. destruct c; simpl; apply _. Defined.

#[export] Instance list_ok_dec h L ls (A : alist Item) : Decision (list_ok h L ls A).
Proof.
  destruct (decide (chain h (first L) ls (elems A) /\ last L = list_last ls /\
            total_members L = Z.of_nat (length ls) /\
            (Z.of_nat (length ls) <= INT_MAX)%Z /\ cur_rel ls (current L) (cursor A)))
    as [(? & ? & ? & ? & ?)|Hn]; [left; by split|right; intros [? ? ? ? ?]; tauto].
Defined.

#[export] Instance rep_at_dec s lp ls (A : alist Item) : Decision (rep_at s lp ls A).
Proof.
  destruct (lists s !! lp) as [L|] eqn:E.
  - destruct (decide (list_ok (members s) L ls A)) as [Hok|Hok].
    + left. by exists L.
    + right. intros (L' & E' & Hok'). rewrite E in E'. by injection E' as <-.
  - right. intros (L' & E' & _). congruence.
Defined.
End Walk.

#[export] Hint Constructors seg : liblist.
#[export] Hint Resolve seg_app seg_snoc chain_NoDup list_ok_NoDup : liblist.
