(* ===== verification/Fixtures.v ===== *)
(** Concrete heaps used by the witnesses: lists of C [int] items, as in
    the demonstration program, laid out in memory by [demo_mem]. *)

From S2P Require Import Prelude Spec Heap Chain.

(** Members at consecutive addresses from [base], linked in order. *)
Fixpoint build_members {Item} (base : positive) (xs : list Item) : gmap positive (Member Item) :=
  match xs with
  | [] => ∅
  | [x] => {[base := mkMember None x]}
  | x :: xs' => <[base := mkMember (Some (Pos.succ base)) x]> (build_members (Pos.succ base) xs')
  end.

Fixpoint build_locs (base : positive) (n : nat) : list positive :=
  match n with
  | 0 => []
  | S n' => base :: build_locs (Pos.succ base) n'
  end.

(** A heap holding one list container at address 1 whose members,
    at addresses 2, 3, ..., hold [xs]; the allocator always succeeds. *)
Definition demo_mem (xs : list Z) : Mem Z :=
  let ls := build_locs 2 (length xs) in
  mkMem (build_members 2 xs)
    {[1%positive := mkListS (head ls) (list_last ls) None (Z.of_nat (length xs))]}
    [] [].

(** The same layout for items of any type. *)
Definition demo_heap {Item} (xs : list Item) : Mem Item :=
  let ls := build_locs 2 (length xs) in
  mkMem (build_members 2 xs)
    {[1%positive := mkListS (head ls) (list_last ls) None (Z.of_nat (length xs))]}
    [] [].

Definition demo_locs (xs : list Z) : list positive := build_locs 2 (length xs).

(** The same heap, with a second container at address [100] whose
    members, from address [101], hold [ys]. *)
Definition demo_mem2 (xs ys : list Z) : Mem Z :=
  let ls := build_locs 101 (length ys) in
  mkMem (build_members 101 ys ∪ members (demo_mem xs))
    (<[100%positive := mkListS (head ls) (list_last ls) None (Z.of_nat (length ys))]>
       (lists (demo_mem xs)))
    [] [].

Example demo_mem_rep : rep_at (demo_mem [5; 3; 8; 1]%Z) 1 [2; 3; 4; 5]%positive
                              (AList [5; 3; 8; 1]%Z None).
Proof. apply (bool_decide_unpack _). vm_compute. reflexivity. Qed.

(** The heap of [demo_mem xs] with the cursor of the list on item [i]. *)
Definition demo_mem_at (xs : list Z) (i : nat) : Mem Z :=
  let ls := build_locs 2 (length xs) in
  mkMem (build_members 2 xs)
    {[1%positive := mkListS (head ls) (list_last ls) (ls !! i) (Z.of_nat (length xs))]}
    [] [].

(** The same heap with the allocation oracle [o]. *)
Definition with_oracle (s : Mem Z) (o : list bool) : Mem Z :=
  mkMem (members s) (lists s) o (destroyed s).

(** A one-member list whose [int] counter already holds [INT_MAX]. *)
Definition full_counter_mem : Mem Z :=
  mkMem (build_members 2 [9%Z]) {[1%positive := mkListS (Some 2%positive) (Some 2%positive) None INT_MAX]}
    [] [].

(** Two one-member lists whose [int] counters sum past [INT_MAX]. *)
Definition full_pair_mem : Mem Z :=
  mkMem (<[101%positive := mkMember None 4%Z]> (build_members 2 [9%Z]))
    (<[100%positive := mkListS (Some 101%positive) (Some 101%positive) None 1]>
       {[1%positive := mkListS (Some 2%positive) (Some 2%positive) None INT_MAX]})
    [] [].

(** The comparators of test_list.c on [int] items (the items' values
    stand for the pointers to them): [int sort_asc(void *a, void *b)]
    and [int sort_desc(void *a, void *b)], which the program also uses
    as search criteria against a reference value. *)
Definition asc_cmp (a b : Z) : Z := if Z.leb a b then 1%Z else 0%Z.

Definition desc_cmp (a b : Z) : Z := if Z.leb b a then 1%Z else 0%Z.

(** [decide_rep] proves a representation fact of a concrete heap by
    running its decision procedure. *)
Ltac decide_rep := apply (bool_decide_unpack _); vm_compute; reflexivity.
