(* ===== verification/Append.v ===== *)
(** [create_list], [append_to_list] and [list_size] (liblist.c 37-80):
    their translation, their error paths and their refinement of
    [a_empty] and [a_append]. *)

From S2P Require Import Prelude Spec Heap Chain Fixtures.

Section Append.
Context {Item : Type}.
Local Abbreviation ST := (M (Mem Item)).

(** [List *create_list()] (liblist.c 37-46). *)
Definition create_list : ST ptr :=
  let* new := alloc_list in
  match new with
  | None => ret None
  | Some _ => ret new
  end.

(** [int append_to_list(List *list, void *item)] (liblist.c 56-75):
    0 on success, 1 when [item] is NULL, 2 when [calloc] fails. *)
Definition append_to_list (list : ptr) (item : option Item) : ST Z :=
  match item with
  | None => ret 1%Z
  | Some x =>
      let* new := alloc_member x in
      match new with
      | None => ret 2%Z
      | Some _ =>
          let* L := load_list list in
          let* _ := match first L with
                    | None => store_list list (set_first L new)
                    | Some _ =>
                        let* lm := load_member (last L) in
                        store_member (last L) (set_next lm new)
                    end in
          let* L := load_list list in
          let* _ := store_list list (set_last L new) in
          let* L := load_list list in
          let* n := int_add (total_members L) 1 in
          let* _ := store_list list (set_total L n) in
          ret 0%Z
      end
  end.

(** [int list_size(List *list)] (liblist.c 78-80). *)
Definition list_size (list : ptr) : ST Z :=
  let* L := load_list list in
  ret (total_members L).
End Append.


Section AppendProofs.
Context {Item : Type}.
Implicit Types (s : Mem Item) (A : alist Item).

(** The container after [append_to_list] linked the fresh member [l]
    behind the nodes [ls]. *)
Lemma list_ok_append h L ls A l x h' L' :
  list_ok h L ls A ->
  chain h' (first L') (ls ++ [l]) (elems A ++ [x]) ->
  last L' = Some l -> total_members L' = (total_members L + 1)%Z ->
  current L' = current L -> (Z.of_nat (length ls) < INT_MAX)%Z ->
  list_ok h' L' (ls ++ [l]) (a_append x A).
Proof.
  intros [Hc Hlast Htot Hrange Hcur] Hc' HL Ht Hcu Hlen. split; simpl.
  - exact Hc'.
  - by rewrite HL, last_snoc.
  - rewrite Ht, Htot, length_app. simpl. lia.
  - rewrite length_app. simpl. lia.
  - rewrite Hcu. by apply cur_rel_app.
Qed.

Lemma int_range_succ_length (ls : list positive) :
  (Z.of_nat (length ls) < INT_MAX)%Z -> int_range (Z.of_nat (length ls) + 1) = true.
Proof. intros H. apply int_range_spec. unfold INT_MIN. lia. Qed.

Lemma create_list_run_ok s :
  head (oracle s) <> Some false ->
  create_list s = Ok (Some (fresh (used s)),
                      with_lists (pop_oracle s) (<[fresh (used s) := empty_ListS]> (lists s))).
Proof. intros H. unfold create_list. by rewrite bind_run, alloc_list_run_ok. Qed.

Lemma create_list_run_fail s :
  head (oracle s) = Some false -> create_list s = Ok (None, pop_oracle s).
Proof. intros H. unfold create_list. by rewrite bind_run, alloc_list_run_fail. Qed.

(** A freshly allocated container represents the empty list. *)
Lemma rep_at_fresh_empty s l (ls : gmap positive ListS) :
  rep_at (with_lists s (<[l := empty_ListS]> ls)) l [] a_empty.
Proof.
  eexists. split; [simpl; by rewrite lookup_insert_eq|]. split; simpl; try done. apply seg_nil.
Qed.

(** One successful append, the step of the copying loops of
    [search_in_list] and [duplicate_list]. *)
Lemma append_to_list_run s lp ls A x :
  rep_at s lp ls A -> head (oracle s) <> Some false ->
  (Z.of_nat (length ls) < INT_MAX)%Z ->
  exists l s', append_to_list (Some lp) (Some x) s = Ok (0%Z, s') /\
    rep_at s' lp (ls ++ [l]) (a_append x A) /\ members s !! l = None /\
    untouched s s' lp ls /\ oracle s' = tail (oracle s) /\
    destroyed s' = destroyed s /\ footprint s s' (ls ++ [l]).
Proof.
  intros (L & HL & Hok) Hor Hlen. pose proof Hok as [Hc Hlast Htot Hrange Hcur].
  pose proof (fresh_member_free s) as Hfr. set (l := fresh (used s)) in *.
  pose proof (seg_fresh_notin _ _ _ _ _ _ Hc Hfr) as Hnotin.
  pose proof (int_range_succ_length _ Hlen) as Hi.
  unfold append_to_list. rewrite bind_run, alloc_member_run_ok by done. fold l.
  heap_unfold. hrun.
  pose proof (chain_head _ _ _ _ Hc) as Hh.
  destruct (first L) as [p0|] eqn:Hf.
  - destruct (list_last ls) as [lz|] eqn:Hlz; [|apply last_None in Hlz; subst; discriminate].
    destruct (chain_last _ _ _ _ _ Hc Hlz) as (mz & Hmz & Hnz).
    assert (lz ∈ ls) by eauto with liblist.
    assert (lz <> l) by (intros ->; congruence).
    rewrite Hlast. hrun. rewrite Htot, Hi. hrun.
    eexists l, _. split; [reflexivity|]. split_and!; try done.
    + eexists. split; [by simplify_map_eq|].
      eapply list_ok_append; eauto; simpl; [|by rewrite Htot].
      eapply chain_link; [apply seg_insert_fresh; [rewrite Hf; exact Hc|exact Hfr]|exact Hlz|by simplify_map_eq|
                          apply chain_fresh|set_solver].
    + split; intros; hrun; [done|]. rewrite !lookup_insert_ne; [done|congruence|set_solver].
    + intros l' Hl'. simpl. rewrite !lookup_insert_ne; [done|set_solver|set_solver].
  - destruct ls; [|discriminate]. apply chain_nil_inv in Hc as [_ HA].
    hrun. replace (total_members L + 1)%Z with 1%Z by (rewrite Htot; reflexivity).
    change (int_range 1) with true. hrun.
    eexists l, _. split; [reflexivity|]. split_and!; try done.
    + eexists. split; [by simplify_map_eq|].
      apply (list_ok_append (members s) L [] A l x); simpl; try done.
      * rewrite HA. apply chain_fresh.
      * by rewrite Htot.
    + split; intros; hrun; done.
    + intros l' Hl'. simpl. rewrite lookup_insert_ne; [done|set_solver].
Qed.

(** C1: appending a present item to a well-formed list with room in
    its [int] counter succeeds (0), links one fresh member behind the
    old last one, and leaves the rest of the heap as it was: no member
    but the list's own nodes and the new one changes. *)
Theorem append_to_list_refines s lp ls A x :
  rep_at s lp ls A -> head (oracle s) <> Some false ->
  (Z.of_nat (length ls) < INT_MAX)%Z ->
  exists l s', append_to_list (Some lp) (Some x) s = Ok (0%Z, s') /\
    rep_at s' lp (ls ++ [l]) (a_append x A) /\ members s !! l = None /\
    untouched s s' lp ls /\ oracle s' = tail (oracle s) /\
    destroyed s' = destroyed s /\ footprint s s' (ls ++ [l]).
Proof. apply append_to_list_run. Qed.

(** A failed allocation makes [append_to_list] return 2. *)
Lemma append_to_list_run_fail s (lp : ptr) (x : Item) :
  head (oracle s) = Some false -> append_to_list lp (Some x) s = Ok (2%Z, pop_oracle s).
Proof. intros H. unfold append_to_list. by rewrite bind_run, alloc_member_run_fail. Qed.

(** C27: the early returns of [append_to_list]: 1 for a NULL item, with
    no allocation, and 2 when [calloc] returns NULL, with the heap
    unchanged but for the consumed allocation. *)
Theorem append_to_list_errors s (lp : ptr) (x : Item) :
  append_to_list lp None s = Ok (1%Z, s) /\
  (head (oracle s) = Some false ->
   append_to_list lp (Some x) s = Ok (2%Z, pop_oracle s)).
Proof.
  split; [reflexivity|]. apply append_to_list_run_fail.
Qed.

(** C32: [append_to_list] does not check its [list] argument: with a
    NULL list it dereferences NULL once the member is allocated. *)
Theorem append_to_list_null_list s (x : Item) :
  head (oracle s) <> Some false -> append_to_list None (Some x) s = Fault NullDeref.
Proof.
  intros H. unfold append_to_list. rewrite bind_run, alloc_member_run_ok by done.
  reflexivity.
Qed.

(** C33: the counter is a C [int]: appending to a non-empty list whose
    [total_members] is [INT_MAX] links the member and then overflows. *)
Theorem append_to_list_overflow s lp L lz mz x :
  lists s !! lp = Some L -> first L <> None -> last L = Some lz ->
  members s !! lz = Some mz -> total_members L = INT_MAX ->
  head (oracle s) <> Some false ->
  append_to_list (Some lp) (Some x) s = Fault SignedOverflow.
Proof.
  intros HL Hf Hl Hz Ht Hor.
  pose proof (fresh_member_free s) as Hfr. set (l := fresh (used s)) in *.
  assert (lz <> l) by (intros ->; congruence).
  unfold append_to_list. rewrite bind_run, alloc_member_run_ok by done. fold l.
  heap_unfold. hrun. destruct (first L); [|done]. hrun.
  rewrite Ht. reflexivity.
Qed.

(** The run of [list_size] on a well-formed list. *)
Lemma list_size_run s lp ls A :
  rep_at s lp ls A -> list_size (Some lp) s = Ok (Z.of_nat (length (elems A)), s).
Proof.
  intros (L & HL & Hok). unfold list_size. heap_unfold. hrun.
  rewrite (ok_total _ _ _ _ Hok), (list_ok_length _ _ _ _ Hok). reflexivity.
Qed.

(** C36: [list_size] returns the number of items. *)
Theorem list_size_spec s lp ls A :
  rep_at s lp ls A -> list_size (Some lp) s = Ok (Z.of_nat (length (elems A)), s).
Proof. by apply list_size_run. Qed.

(** C35: [create_list] returns a fresh empty list, or NULL when
    [calloc] fails. *)
Theorem create_list_spec s :
  (head (oracle s) <> Some false ->
   exists l s', create_list s = Ok (Some l, s') /\ rep_at s' l [] a_empty /\
     lists s !! l = None /\ members s' = members s /\
     (forall lq, lq <> l -> lists s' !! lq = lists s !! lq)) /\
  (head (oracle s) = Some false -> create_list s = Ok (None, pop_oracle s)).
Proof.
  split; [|apply create_list_run_fail].
  intros H. rewrite create_list_run_ok by done.
  eexists _, _. split_and!; [reflexivity|apply rep_at_fresh_empty|apply fresh_list_free|done|].
  intros lq Hne. simpl. by rewrite lookup_insert_ne.
Qed.

End AppendProofs.

(** ** Witnesses *)

Lemma append_to_list_refines_witness :
  exists l s', append_to_list (Some 1%positive) (Some 7%Z) (demo_mem [5; 3; 8; 1]%Z) = Ok (0%Z, s') /\
    rep_at s' 1 (demo_locs [5; 3; 8; 1]%Z ++ [l]) (a_append 7%Z (AList [5; 3; 8; 1]%Z None)) /\
    members (demo_mem [5; 3; 8; 1]%Z) !! l = None /\
    untouched (demo_mem [5; 3; 8; 1]%Z) s' 1 (demo_locs [5; 3; 8; 1]%Z) /\
    oracle s' = tail (oracle (demo_mem [5; 3; 8; 1]%Z)) /\
    destroyed s' = destroyed (demo_mem [5; 3; 8; 1]%Z) /\
    footprint (demo_mem [5; 3; 8; 1]%Z) s' (demo_locs [5; 3; 8; 1]%Z ++ [l]).
Proof.
  apply append_to_list_refines; [decide_rep|done|vm_compute; reflexivity].
Defined.

Lemma append_to_list_errors_witness :
  append_to_list (Some 1%positive) None (demo_mem [4]%Z) = Ok (1%Z, demo_mem [4]%Z) /\
  append_to_list (Some 1%positive) (Some 2%Z) (with_oracle (demo_mem [4]%Z) [false]) =
    Ok (2%Z, pop_oracle (with_oracle (demo_mem [4]%Z) [false])).
Proof.
  destruct (append_to_list_errors (with_oracle (demo_mem [4]%Z) [false]) (Some 1%positive) 2%Z)
    as [_ H2].
  split; [exact (proj1 (append_to_list_errors (demo_mem [4]%Z) (Some 1%positive) 2%Z))|].
  apply H2. reflexivity.
Defined.

Lemma append_to_list_null_list_witness :
  append_to_list None (Some 4%Z) (demo_mem []) = Fault NullDeref.
Proof. apply append_to_list_null_list. done. Defined.

Lemma append_to_list_overflow_witness :
  append_to_list (Some 1%positive) (Some 5%Z) full_counter_mem = Fault SignedOverflow.
Proof.
  apply (append_to_list_overflow _ _ (mkListS (Some 2%positive) (Some 2%positive) None INT_MAX)
           2 (mkMember None 9%Z)); try reflexivity; done.
Defined.

Lemma list_size_spec_witness :
  list_size (Some 1%positive) (demo_mem [5; 3; 8; 1]%Z) =
    Ok (Z.of_nat (length (elems (AList [5; 3; 8; 1]%Z None))), demo_mem [5; 3; 8; 1]%Z).
Proof. apply (list_size_spec _ _ (demo_locs [5; 3; 8; 1]%Z)). decide_rep. Defined.

Lemma create_list_spec_witness :
  (exists l s', create_list (demo_mem [1]%Z) = Ok (Some l, s') /\ rep_at s' l [] a_empty /\
     lists (demo_mem [1]%Z) !! l = None /\ members s' = members (demo_mem [1]%Z) /\
     (forall lq, lq <> l -> lists s' !! lq = lists (demo_mem [1]%Z) !! lq)) /\
  create_list (with_oracle (demo_mem [1]%Z) [false]) =
    Ok (None, pop_oracle (with_oracle (demo_mem [1]%Z) [false])).
Proof.
  split; [apply (create_list_spec (demo_mem [1]%Z)); done|].
  apply (create_list_spec (with_oracle (demo_mem [1]%Z) [false])). reflexivity.
Defined.

