(* ===== verification/Iter.v ===== *)
(** The external iterator of liblist, [get_next_item] and
    [reset_list_item] (liblist.c 299-328): its translation over the
    [current] cursor of [struct _list], its refinement of [a_next], and
    the iteration protocol of spec.md section 8. *)

From S2P Require Import Prelude Spec Heap Chain Fixtures.

Section Iter.
Context {Item : Type}.
Local Abbreviation ST := (M (Mem Item)).

(** [void *get_next_item(List *list)] (liblist.c 299-320).  The test
    [list->current == list->last] compares pointers. *)
Definition get_next_item (list : ptr) : ST (option Item) :=
  match list with
  | None => ret None
  | Some _ =>
      let* L := load_list list in
      match first L with
      | None => ret None
      | Some _ =>
          if decide (current L = last L) then
            let* _ := store_list list (set_current L None) in
            ret None
          else
            let* cur := match current L with
                        | Some _ =>
                            let* m := load_member (current L) in
                            ret (next m)
                        | None => ret (first L)
                        end in
            let* L := load_list list in
            let* _ := store_list list (set_current L cur) in
            let* L := load_list list in
            let* m := load_member (current L) in
            ret (Some (item m))
      end
  end.

(** [void reset_list_item(List *list)] (liblist.c 323-328). *)
Definition reset_list_item (list : ptr) : ST unit :=
  match list with
  | None => ret tt
  | Some _ =>
      let* L := load_list list in
      store_list list (set_current L None)
  end.

(** [k] successive calls of [get_next_item], as the [while] loop of
    [print_list] in test_list.c makes them. *)
Fixpoint get_next_n (k : nat) (lp : ptr) : ST (list (option Item)) :=
  match k with
  | 0 => ret []
  | S k' =>
      let* o := get_next_item lp in
      let* os := get_next_n k' lp in
      ret (o :: os)
  end.
End Iter.

Section IterProofs.
Context {Item : Type}.
Implicit Types (s : Mem Item) (A : alist Item).

(** The state after an iterator step: only [current] of [lp] changed. *)
Definition cursor_step s s' lp : Prop :=
  members s' = members s /\ destroyed s' = destroyed s /\ oracle s' = oracle s /\
  forall lq, lq <> lp -> lists s' !! lq = lists s !! lq.

Lemma cursor_step_refl s lp : cursor_step s s lp.
Proof. done. Qed.

Lemma cursor_step_trans s1 s2 s3 lp :
  cursor_step s1 s2 lp -> cursor_step s2 s3 lp -> cursor_step s1 s3 lp.
Proof.
  intros (H1 & H2 & H3 & H4) (H1' & H2' & H3' & H4').
  split_and!; try congruence. intros lq Hq. rewrite H4', H4; done.
Qed.

(** Setting [current] to a pointer related to a new cursor keeps the
    invariant. *)
Lemma list_ok_set_current h L ls A cur c :
  list_ok h L ls A -> cur_rel ls cur c ->
  list_ok h (set_current L cur) ls (AList (elems A) c).
Proof. intros [Hc Hl Ht Hr _] Hcur. by split. Qed.

Lemma rep_at_set_current s lp L ls A cur c :
  lists s !! lp = Some L -> list_ok (members s) L ls A -> cur_rel ls cur c ->
  rep_at (with_lists s (<[lp := set_current L cur]> (lists s))) lp ls (AList (elems A) c) /\
  cursor_step s (with_lists s (<[lp := set_current L cur]> (lists s))) lp.
Proof.
  intros HL Hok Hcur. split.
  - eexists. split; [simpl; by rewrite lookup_insert_eq|]. by apply list_ok_set_current.
  - split_and!; try done. intros lq Hq. simpl. by rewrite lookup_insert_ne.
Qed.

(** The branches of [get_next_item] on a well-formed list. *)
Lemma get_next_item_empty s lp ls A :
  rep_at s lp ls A -> elems A = [] -> get_next_item (Some lp) s = Ok (None, s).
Proof.
  intros (L & HL & Hok) HA. pose proof (ok_chain _ _ _ _ Hok) as Hc. rewrite HA in Hc.
  apply chain_nil_r in Hc as [Hf _]. unfold get_next_item. heap_unfold. hrun. by rewrite ?Hf.
Qed.

Lemma get_next_item_start s lp ls A x0 xs' :
  rep_at s lp ls A -> elems A = x0 :: xs' -> cursor A = None ->
  exists s', get_next_item (Some lp) s = Ok (Some x0, s') /\
    rep_at s' lp ls (AList (elems A) (Some 0)) /\ cursor_step s s' lp.
Proof.
  intros (L & HL & Hok) HA Hci. pose proof Hok as [Hc Hlast _ _ Hcur]. rewrite Hci in Hcur.
  rewrite HA in Hc. destruct ls as [|l0 ls']; [by apply seg_length in Hc|].
  pose proof (chain_head _ _ _ _ Hc) as Hh. simpl in Hh, Hcur.
  destruct (chain_lookup _ _ _ _ 0 l0 Hc) as (m0 & Hm0 & _ & Hx0); [done|]. injection Hx0 as ->.
  unfold get_next_item. heap_unfold. hrun. rewrite ?Hh, ?Hcur, ?Hlast.
  rewrite decide_False by (intros E; symmetry in E; by apply last_None in E).
  hrun. destruct (rep_at_set_current s lp L (l0 :: ls') A (Some l0) (Some 0)) as [Hr Hs];
    [done|done|split; [done|simpl; lia]|].
  eexists. split; [reflexivity|]. by split.
Qed.

Lemma get_next_item_end s lp ls A i :
  rep_at s lp ls A -> cursor A = Some i -> S i = length (elems A) ->
  exists s', get_next_item (Some lp) s = Ok (None, s') /\
    rep_at s' lp ls (AList (elems A) None) /\ cursor_step s s' lp.
Proof.
  intros (L & HL & Hok) Hci Hend. pose proof Hok as [Hc Hlast _ _ Hcur]. rewrite Hci in Hcur.
  destruct Hcur as [Hcur Hi]. pose proof (list_ok_length _ _ _ _ Hok) as Hlen.
  destruct ls as [|l0 ls']; [simpl in Hi; lia|].
  pose proof (chain_head _ _ _ _ Hc) as Hh. simpl in Hh.
  unfold get_next_item. heap_unfold. hrun. rewrite ?Hh.
  rewrite decide_True by (rewrite Hcur, Hlast, last_lookup; f_equal; simpl in *; lia).
  hrun. destruct (rep_at_set_current s lp L (l0 :: ls') A None None) as [Hr Hs]; [done..|].
  eexists. split; [reflexivity|]. by split.
Qed.

Lemma get_next_item_advance s lp ls A i :
  rep_at s lp ls A -> cursor A = Some i -> S i < length (elems A) ->
  exists s', get_next_item (Some lp) s = Ok (elems A !! S i, s') /\
    rep_at s' lp ls (AList (elems A) (Some (S i))) /\ cursor_step s s' lp.
Proof.
  intros (L & HL & Hok) Hci Hlt. pose proof Hok as [Hc Hlast _ _ Hcur]. rewrite Hci in Hcur.
  destruct Hcur as [Hcur Hi]. pose proof (list_ok_length _ _ _ _ Hok) as Hlen.
  destruct (lookup_lt_is_Some_2 ls i Hi) as [li Hli].
  destruct (lookup_lt_is_Some_2 ls (S i)) as [lj Hlj]; [lia|].
  destruct (chain_lookup _ _ _ _ _ _ Hc Hli) as (mi & Hmi & Hnext & _).
  destruct (chain_lookup _ _ _ _ _ _ Hc Hlj) as (mj & Hmj & _ & Hxj).
  destruct ls as [|l0 ls']; [done|]. pose proof (chain_head _ _ _ _ Hc) as Hh. simpl in Hh.
  unfold get_next_item. heap_unfold. hrun. rewrite ?Hh.
  rewrite decide_False; last first.
  { rewrite Hcur, Hlast, last_lookup. intros E.
    apply (chain_lookup_inj _ _ _ _ _ _ Hc) in E; [simpl in *; lia|by apply lookup_lt_is_Some]. }
  rewrite ?Hcur, ?Hli. hrun. rewrite ?Hnext, ?Hlj. hrun.
  destruct (rep_at_set_current s lp L (l0 :: ls') A (Some lj) (Some (S i))) as [Hr Hs];
    [done|done|split; [done|simpl; lia]|].
  eexists. split; [by rewrite ?Hxj|]. by split.
Qed.

(** The run of [get_next_item] on a well-formed list. *)
Lemma get_next_item_run s lp ls A :
  rep_at s lp ls A ->
  exists s', get_next_item (Some lp) s = Ok ((a_next A).1, s') /\
    rep_at s' lp ls (a_next A).2 /\ cursor_step s s' lp.
Proof.
  intros Hr. pose proof Hr as (L & _ & Hok). pose proof (list_ok_length _ _ _ _ Hok) as Hlen.
  pose proof (ok_cur _ _ _ _ Hok) as Hcur. unfold a_next.
  destruct (elems A) as [|x0 xs'] eqn:HA.
  - exists s. split_and!; [by rewrite (get_next_item_empty s lp ls A)|by destruct A; simpl in *; subst|done].
  - destruct (cursor A) as [i|] eqn:Hci.
    + rewrite <- HA. case_decide as Hend.
      * by apply (get_next_item_end _ _ _ _ i).
      * apply get_next_item_advance; try done. simpl in Hcur. rewrite HA in *. simpl in *. lia.
    + rewrite <- HA. by apply get_next_item_start with xs'.
Qed.

(** C4: one call of [get_next_item] on a well-formed list returns the
    next item (or NULL past the end, resetting the cursor) exactly as the
    abstract iterator [a_next], and changes nothing but [current]. *)
Theorem get_next_item_refines s lp ls A :
  rep_at s lp ls A ->
  exists s', get_next_item (Some lp) s = Ok ((a_next A).1, s') /\
    rep_at s' lp ls (a_next A).2 /\ cursor_step s s' lp.
Proof. by apply get_next_item_run. Qed.

(** The run of [reset_list_item] on a well-formed list. *)
Lemma reset_list_item_run s lp ls A :
  rep_at s lp ls A ->
  exists s', reset_list_item (Some lp) s = Ok (tt, s') /\ rep_at s' lp ls (a_reset A) /\
    cursor_step s s' lp.
Proof.
  intros (L & HL & Hok). unfold reset_list_item. heap_unfold. hrun.
  destruct (rep_at_set_current s lp L ls A None None) as [Hr Hs]; [done..|].
  eexists. split; [reflexivity|]. by split.
Qed.

(** C37: [reset_list_item] puts the cursor back before the first item. *)
Theorem reset_list_item_spec s lp ls A :
  rep_at s lp ls A ->
  exists s', reset_list_item (Some lp) s = Ok (tt, s') /\ rep_at s' lp ls (a_reset A) /\
    cursor_step s s' lp.
Proof. by apply reset_list_item_run. Qed.

(** [k] iterator calls refine [k] abstract iterator steps. *)
Lemma get_next_n_refines k s lp ls A :
  rep_at s lp ls A ->
  exists s', get_next_n k (Some lp) s = Ok ((a_next_n k A).1, s') /\
    rep_at s' lp ls (a_next_n k A).2 /\ cursor_step s s' lp.
Proof.
  revert s A. induction k as [|k IH]; intros s A Hr.
  - exists s. split_and!; [reflexivity|done|apply cursor_step_refl].
  - destruct (get_next_item_run s lp ls A Hr) as (s1 & H1 & Hr1 & Hs1).
    destruct (IH s1 _ Hr1) as (s2 & H2 & Hr2 & Hs2).
    simpl. rewrite (bind_Ok _ _ _ _ _ H1), (bind_Ok _ _ _ _ _ H2).
    destruct (a_next A) as [o A1]; simpl in *.
    destruct (a_next_n k A1) as [os A2]; simpl in *.
    exists s2. split_and!; [reflexivity|done|eauto using cursor_step_trans].
Qed.

(** C22: the iteration protocol of spec.md section 8: after
    [reset_list_item], [size + 1] calls of [get_next_item] return every
    item once, in list order, then NULL; the list is then back in its
    reset state, so the sequence repeats identically. *)
Theorem reset_iterate_all s lp ls A :
  rep_at s lp ls A ->
  exists s', (let* _ := reset_list_item (Some lp) in
              get_next_n (S (length (elems A))) (Some lp)) s =
             Ok (map Some (elems A) ++ [None], s') /\
    rep_at s' lp ls (a_reset A) /\ cursor_step s s' lp.
Proof.
  intros Hr. destruct (reset_list_item_run s lp ls A Hr) as (s1 & H1 & Hr1 & Hs1).
  destruct (get_next_n_refines (S (length (elems A))) s1 lp ls (a_reset A) Hr1)
    as (s2 & H2 & Hr2 & Hs2).
  unfold a_reset in H2, Hr2. cbn [elems] in H2, Hr2.
  rewrite a_next_n_all in H2, Hr2. cbn [fst snd] in H2, Hr2.
  exists s2. rewrite (bind_Ok _ _ _ _ _ H1). split_and!; [exact H2|exact Hr2|].
  eauto using cursor_step_trans.
Qed.

(** The cursor of a well-formed list indexes one of its items. *)
Lemma rep_at_cursor_wf s lp ls A : rep_at s lp ls A -> cursor_wf A.
Proof.
  intros (L & _ & Hok). pose proof (ok_cur _ _ _ _ Hok) as Hcur.
  unfold cursor_wf. rewrite <- (list_ok_length _ _ _ _ Hok).
  destruct (cursor A); [by destruct Hcur|done].
Qed.

(** C14: the iteration always ends: from any position of the cursor of a
    well-formed list, at most [size + 1] calls of [get_next_item] return
    the items not yet returned, in order, and then NULL, after which the
    list is back in its reset state. *)
Theorem get_next_item_reaches_end s lp ls A :
  rep_at s lp ls A ->
  exists k s', k <= length (elems A) /\
    get_next_n (S k) (Some lp) s = Ok (map Some (a_remaining A) ++ [None], s') /\
    rep_at s' lp ls (a_reset A) /\ cursor_step s s' lp.
Proof.
  intros Hr. destruct (a_next_n_reaches_end A (rep_at_cursor_wf _ _ _ _ Hr)) as (k & Hk & Hn).
  destruct (get_next_n_refines (S k) s lp ls A Hr) as (s' & H & Hr' & Hs).
  rewrite Hn in H, Hr'. exists k, s'. by split_and!.
Qed.
End IterProofs.

(** ** Witnesses *)

Lemma get_next_item_refines_witness :
  exists s', get_next_item (Some 1%positive) (demo_mem [5; 3; 8; 1]%Z) =
    Ok ((a_next (AList [5; 3; 8; 1]%Z None)).1, s') /\
    rep_at s' 1 (demo_locs [5; 3; 8; 1]%Z) (a_next (AList [5; 3; 8; 1]%Z None)).2 /\
    cursor_step (demo_mem [5; 3; 8; 1]%Z) s' 1.
Proof. apply get_next_item_refines. decide_rep. Defined.

Lemma reset_list_item_spec_witness :
  exists s', reset_list_item (Some 1%positive) (demo_mem [5; 3]%Z) = Ok (tt, s') /\
    rep_at s' 1 (demo_locs [5; 3]%Z) (a_reset (AList [5; 3]%Z None)) /\
    cursor_step (demo_mem [5; 3]%Z) s' 1.
Proof. apply reset_list_item_spec. decide_rep. Defined.

Lemma reset_iterate_all_witness :
  exists s', (let* _ := reset_list_item (Some 1%positive) in
              get_next_n (S (length (elems (AList [5; 3; 8; 1]%Z None)))) (Some 1%positive))
               (demo_mem [5; 3; 8; 1]%Z) =
             Ok (map Some (elems (AList [5; 3; 8; 1]%Z None)) ++ [None], s') /\
    rep_at s' 1 (demo_locs [5; 3; 8; 1]%Z) (a_reset (AList [5; 3; 8; 1]%Z None)) /\
    cursor_step (demo_mem [5; 3; 8; 1]%Z) s' 1.
Proof. apply reset_iterate_all. decide_rep. Defined.


(** The cursor on the second of four items: two more items, then NULL. *)
Lemma get_next_item_reaches_end_witness :
  exists k s', k <= length (elems (AList [5; 3; 8; 1]%Z (Some 1))) /\
    get_next_n (S k) (Some 1%positive) (demo_mem_at [5; 3; 8; 1]%Z 1) =
      Ok (map Some (a_remaining (AList [5; 3; 8; 1]%Z (Some 1))) ++ [None], s') /\
    rep_at s' 1 (demo_locs [5; 3; 8; 1]%Z) (a_reset (AList [5; 3; 8; 1]%Z (Some 1))) /\
    cursor_step (demo_mem_at [5; 3; 8; 1]%Z 1) s' 1.
Proof. apply get_next_item_reaches_end. decide_rep. Defined.
