(* ===== verification/Frame.v ===== *)
(** Framing: what a sequence of calls may change.  [frame s s' X N]
    says that between [s] and [s'] only the containers [X] and the
    member nodes [N] changed and no other live member was freed;
    [fresh_frame] that everything that changed was fresh in [s], so that
    every list live in [s] is kept.  Clients of several calls (the test
    program, the abstract store of [Store]) compose these facts instead
    of the calls' individual post-conditions. *)

From S2P Require Import Prelude Spec Heap Chain Iter.

Section Frame.
Context {Item : Type}.
Implicit Types (s : Mem Item).

(** An iterator step on [lp] keeps every other list. *)
Lemma rep_at_cursor_step s s' lp lq lsq (B : alist Item) :
  cursor_step s s' lp -> lq <> lp -> rep_at s lq lsq B -> rep_at s' lq lsq B.
Proof.
  intros (Hm & _ & _ & Hl) Hne Hr. eapply rep_at_frame; [exact Hr|by apply Hl|]. by rewrite Hm.
Qed.

Lemma rep_at_fresh_addr s lq lsq (B : alist Item) nl :
  rep_at s lq lsq B -> lists s !! nl = None -> lq <> nl.
Proof. intros (L & HL & _) Hn ->. congruence. Qed.

(** Between two heaps, only the containers [X] and the nodes [N] may
    have changed, and no live member was freed elsewhere. *)
Definition frame (s s' : Mem Item) (X N : list positive) : Prop :=
  (forall lq, lq ∉ X -> lists s' !! lq = lists s !! lq) /\ footprint s s' N.

Lemma frame_trans s1 s2 s3 X1 N1 X2 N2 :
  frame s1 s2 X1 N1 -> frame s2 s3 X2 N2 -> frame s1 s3 (X1 ++ X2) (N1 ++ N2).
Proof.
  intros [Hl1 Hm1] [Hl2 Hm2]. split.
  - intros lq Hq. rewrite Hl2, Hl1 by set_solver. done.
  - by apply (footprint_trans _ s2).
Qed.

Lemma frame_rep s s' X N lq lsq (B : alist Item) :
  frame s s' X N -> lq ∉ X -> lsq ## N -> rep_at s lq lsq B -> rep_at s' lq lsq B.
Proof.
  intros [Hl Hm] Hq Hd Hr. pose proof Hr as (L & _ & Hok).
  eapply rep_at_frame; [exact Hr|by apply Hl|]. intros l Hin. apply Hm. intros HN. by apply (Hd l).
Qed.

Lemma frame_mono s s' X N X' N' : frame s s' X N -> X ⊆ X' -> N ⊆ N' -> frame s s' X' N'.
Proof.
  intros [Hl Hm] HX HN. split; [intros lq Hq; apply Hl; set_solver|by eapply footprint_mono].
Qed.

Lemma delete_frame s s' lp ls :
  lists s' = delete lp (lists s) ->
  (forall l, members s' !! l = if decide (l ∈ ls) then None else members s !! l) ->
  frame s s' [lp] ls.
Proof.
  intros Hl Hm. split.
  - intros lq Hq. rewrite Hl, lookup_delete_ne; [done|set_solver].
  - intros l Hn. by rewrite Hm, decide_False.
Qed.

Lemma untouched_frame s s' lp ls N : untouched s s' lp ls -> footprint s s' N -> frame s s' [lp] N.
Proof. intros [Hl _] Hm. split; [|done]. intros lq Hq. apply Hl. set_solver. Qed.

Lemma cursor_step_frame s s' lp : cursor_step s s' lp -> frame s s' [lp] [].
Proof.
  intros (Hm & _ & _ & Hl). split; [intros lq Hq; apply Hl; set_solver|]. intros l _. by rewrite Hm.
Qed.

(** A live list is kept by a change of fresh containers and nodes. *)
Lemma frame_rep_fresh s s' X N lq lsq (B : alist Item) :
  frame s s' X N -> (forall l, l ∈ X -> lists s !! l = None) ->
  (forall l, l ∈ N -> members s !! l = None) -> rep_at s lq lsq B -> rep_at s' lq lsq B.
Proof.
  intros Hf HX HN Hr. eapply frame_rep; [exact Hf| |by eapply rep_at_fresh_disjoint|exact Hr].
  intros Hq. destruct Hr as (L & HL & _). rewrite HX in HL; [discriminate|done].
Qed.

(** Allocation accounting: everything that differs between [s0] and
    [s] is among the containers [X] and the nodes [N], all of which were
    free in [s0].  A client that ends with [X] and [N] empty has freed
    everything it allocated. *)
Definition owns (s0 s : Mem Item) (X N : list positive) : Prop :=
  frame s0 s X N /\ (forall l, l ∈ X -> lists s0 !! l = None) /\
    (forall l, l ∈ N -> members s0 !! l = None).

(** Everything that changed between two heaps was fresh in the first:
    the lists live in it are kept. *)
Definition fresh_frame (s s' : Mem Item) : Prop := exists X N, owns s s' X N.

Lemma owns_refl s : owns s s [] [].
Proof. split_and!; [split; [done|by intros l _]|set_solver|set_solver]. Qed.

(** A step that changes containers and nodes owned or free. *)
Lemma owns_grow s0 s s' X N Y M :
  owns s0 s X N -> frame s s' Y M ->
  (forall l, l ∈ Y -> l ∈ X \/ lists s !! l = None) ->
  (forall l, l ∈ M -> l ∈ N \/ members s !! l = None) ->
  owns s0 s' (X ++ Y) (N ++ M).
Proof.
  intros ([Hl Hm] & HX & HN) Hf HY HM. split_and!; [exact (frame_trans _ _ _ _ _ _ _ (conj Hl Hm) Hf)| |].
  - intros l [?|Hy]%elem_of_app; [auto|]. destruct (HY l Hy) as [?|Hn]; [auto|].
    destruct (decide (l ∈ X)); [auto|]. by rewrite <- Hl.
  - intros l [?|Hy]%elem_of_app; [auto|]. destruct (HM l Hy) as [?|Hn]; [auto|].
    destruct (decide (l ∈ N)); [auto|]. by rewrite <- Hm.
Qed.

(** What is owned and free again is no longer owned. *)
Lemma owns_shrink s0 s X N X2 N2 :
  owns s0 s X N -> (forall l, l ∈ X -> l ∈ X2 \/ lists s !! l = None) ->
  (forall l, l ∈ N -> l ∈ N2 \/ members s !! l = None) -> X2 ⊆ X -> N2 ⊆ N -> owns s0 s X2 N2.
Proof.
  intros ([Hl Hm] & HX & HN) H1 H2 H3 H4. split_and!; [split| |].
  - intros l Hl2. destruct (decide (l ∈ X)) as [Hx|Hx]; [|by apply Hl].
    destruct (H1 l Hx) as [? | Hn]; [done|]. by rewrite Hn, HX.
  - intros l Hl2. destruct (decide (l ∈ N)) as [Hx|Hx]; [|by apply Hm].
    destruct (H2 l Hx) as [? | Hn]; [done|]. by rewrite Hn, HN.
  - intros l Hl'. apply HX. set_solver.
  - intros l Hl'. apply HN. set_solver.
Qed.

Lemma owns_trans s0 s s' X N Y M : owns s0 s X N -> owns s s' Y M -> owns s0 s' (X ++ Y) (N ++ M).
Proof. intros H (Hf & HY & HM). apply (owns_grow _ _ _ _ _ _ _ H Hf); auto. Qed.

(** A step confined to what is owned keeps the accounting. *)
Lemma owns_step s0 s s' X N Y M : owns s0 s X N -> frame s s' Y M -> Y ⊆ X -> M ⊆ N -> owns s0 s' X N.
Proof.
  intros H Hf HY HM. apply (owns_shrink _ _ (X ++ Y) (N ++ M)); [|set_solver..].
  apply (owns_grow _ _ _ _ _ _ _ H Hf); set_solver.
Qed.

Lemma owns_cursor s0 s s' X N lp : owns s0 s X N -> cursor_step s s' lp -> lp ∈ X -> owns s0 s' X N.
Proof. intros H Hc Hl. apply (owns_step _ _ _ _ _ _ _ H (cursor_step_frame _ _ _ Hc)); set_solver. Qed.

Lemma owns_rep s s' X N lq lsq (B : alist Item) : owns s s' X N -> rep_at s lq lsq B -> rep_at s' lq lsq B.
Proof. intros (Hf & HX & HN). by apply frame_rep_fresh with X N. Qed.

(** A free member or container that a step does not touch stays free. *)
Lemma frame_members_none s s' X N l : frame s s' X N -> l ∉ N -> members s !! l = None -> members s' !! l = None.
Proof. intros [_ Hm] Hl H. by rewrite Hm. Qed.

Lemma frame_lists_none s s' X N l : frame s s' X N -> l ∉ X -> lists s !! l = None -> lists s' !! l = None.
Proof. intros [Hl _] Hx H. by rewrite Hl. Qed.

(** A node free after a step that changed only nodes of a live list
    was free before it. *)
Lemma footprint_fresh_rep s s' N lp ls (A : alist Item) x :
  footprint s s' N -> rep_at s' lp ls A -> N ⊆ ls -> members s' !! x = None -> members s !! x = None.
Proof.
  intros Hf (L & _ & Hok) HN Hx. destruct (decide (x ∈ N)) as [Hin|Hin]; [|by rewrite <- Hf].
  destruct (seg_live _ _ _ _ _ x (ok_chain _ _ _ _ Hok)) as [m Hm]; [set_solver|congruence].
Qed.

(** Nothing owned: the heap is back to [s0]. *)
Lemma owns_nil s0 s : owns s0 s [] [] -> lists s = lists s0 /\ members s = members s0.
Proof.
  intros ([Hl Hm] & _ & _). split; apply map_eq; intros l; [apply Hl|apply Hm]; set_solver.
Qed.

Lemma fresh_frame_rep s s' lq lsq (B : alist Item) : fresh_frame s s' -> rep_at s lq lsq B -> rep_at s' lq lsq B.
Proof. intros (X & N & Hf & HX & HN). by apply frame_rep_fresh with X N. Qed.

(** What is free after a fresh change was free before it. *)
Lemma fresh_frame_lists s s' l : fresh_frame s s' -> lists s' !! l = None -> lists s !! l = None.
Proof.
  intros (X & N & [Hl _] & HX & _) H. destruct (decide (l ∈ X)); [auto|]. by rewrite <- Hl.
Qed.

Lemma fresh_frame_members s s' l : fresh_frame s s' -> members s' !! l = None -> members s !! l = None.
Proof.
  intros (X & N & [_ Hm] & _ & HN) H. destruct (members s !! l) as [m|] eqn:E; [|done].
  destruct (decide (l ∈ N)) as [?|Hn]; [by rewrite HN in E|]. by rewrite (Hm l Hn), E in H.
Qed.

(** A change of containers and nodes fresh in [s], after a fresh
    change of [s]. *)
Lemma fresh_frame_step s s1 s2 X N :
  fresh_frame s s1 -> frame s1 s2 X N -> (forall l, l ∈ X -> lists s !! l = None) ->
  (forall l, l ∈ N -> members s !! l = None) -> fresh_frame s s2.
Proof.
  intros (X1 & N1 & Hf1 & HX1 & HN1) Hf2 HX HN. exists (X1 ++ X), (N1 ++ N).
  split; [by eapply frame_trans|]. split; intros l [?|?]%elem_of_app; auto.
Qed.

Lemma fresh_frame_trans s s1 s2 : fresh_frame s s1 -> fresh_frame s1 s2 -> fresh_frame s s2.
Proof.
  intros Hf1 (X & N & Hf2 & HX & HN). apply (fresh_frame_step _ _ _ X N Hf1 Hf2).
  - intros l Hl. by apply (fresh_frame_lists _ _ _ Hf1), HX.
  - intros l Hl. by apply (fresh_frame_members _ _ _ Hf1), HN.
Qed.
End Frame.
