(* ===== verification/Bubble.v ===== *)
(** The bubble sort of [sort_list] (liblist.c 132-162) on Rocq lists: the
    reference definition the heap code is proved to compute.  A pass
    carries a "bubble" through the list, swapping it with its right
    neighbour whenever the caller's comparator says the pair is not in
    order; passes repeat until one makes no swap.  The file proves that
    a pass is a permutation that removes exactly one inversion per swap,
    hence that the loop terminates when the comparator is total, with a
    sorted permutation of its input, and that it never terminates for a
    comparator that is not total. *)

From S2P Require Import Prelude.
From Stdlib Require Import Sorting.Sorted Sorting.Permutation.

(** The caller's contract on [cmp] (spec.md section 6): [cmp a b <> 0]
    means that [a] and [b] are in order.  [sort_list] needs totality
    (of two items, one order is acceptable) to terminate, and
    transitivity for the adjacent-pair sortedness to be global. *)
Class CmpTotal {Item} (cmp : Item -> Item -> Z) : Prop :=
  cmp_total : forall a b, cmp a b = 0%Z -> cmp b a <> 0%Z.

Class CmpTrans {Item} (cmp : Item -> Item -> Z) : Prop :=
  cmp_trans : forall a b c, cmp a b <> 0%Z -> cmp b c <> 0%Z -> cmp a c <> 0%Z.

Section Bubble.
Context {Item : Type} (cmp : Item -> Item -> Z).

(** [cmp(a, b)] as the C test [!cmp(present->item, next->item)] reads
    it (liblist.c 150): any non-zero value, negative ones included, means
    "in order". *)
Definition in_order (a b : Item) : bool := negb (Z.eqb (cmp a b) 0).

Definition ordered (a b : Item) : Prop := in_order a b = true.

(** One pass from the bubble [x] over [rest]: the resulting list and the
    number of swaps ([swap_count] of liblist.c 155). *)
Fixpoint bubble (x : Item) (rest : list Item) : list Item * nat :=
  match rest with
  | [] => ([x], 0)
  | y :: r =>
      if in_order x y then
        let '(l, k) := bubble y r in (x :: l, k)
      else
        let '(l, k) := bubble x r in (y :: l, S k)
  end.

(** The inner loop of liblist.c 146-159 on a non-empty list. *)
Definition bubble_pass (xs : list Item) : list Item * nat :=
  match xs with
  | [] => ([], 0)
  | x :: r => bubble x r
  end.

(** The outer loop of liblist.c 142-160: passes until one makes no swap;
    [fuel] bounds the number of passes. *)
Fixpoint bubble_sort (fuel : nat) (xs : list Item) : option (list Item) :=
  match fuel with
  | 0 => None
  | S f =>
      let '(ys, k) := bubble_pass xs in
      if Nat.eqb k 0 then Some ys else bubble_sort f ys
  end.

(** The number of items of [r] out of order with [x]. *)
Fixpoint count_out (x : Item) (r : list Item) : nat :=
  match r with
  | [] => 0
  | y :: r' => (if in_order x y then 0 else 1) + count_out x r'
  end.

(** Inversions: pairs, in list order, that are not in order. *)
Fixpoint inversions (xs : list Item) : nat :=
  match xs with
  | [] => 0
  | x :: r => count_out x r + inversions r
  end.

Lemma bubble_perm x r : Permutation (x :: r) (bubble x r).1.
Proof.
  revert x. induction r as [|y r IH]; intros x; simpl; [done|].
  destruct (in_order x y).
  - specialize (IH y). destruct (bubble y r) as [l k]. simpl in *. by constructor.
  - specialize (IH x). destruct (bubble x r) as [l k]. simpl in *.
    etrans; [apply perm_swap|]. by constructor.
Qed.

Lemma bubble_pass_perm xs : Permutation xs (bubble_pass xs).1.
Proof. destruct xs; simpl; [done|apply bubble_perm]. Qed.

Lemma bubble_length x r : length (bubble x r).1 = S (length r).
Proof. by rewrite <- (Permutation_length (bubble_perm x r)). Qed.

(** A pass without swaps changes nothing and finds every adjacent pair
    in order. *)
Lemma bubble_no_swap x r :
  (bubble x r).2 = 0 -> (bubble x r).1 = x :: r /\ Sorted ordered (x :: r).
Proof.
  revert x. induction r as [|y r IH]; intros x; simpl.
  - intros _. split; [done|repeat constructor].
  - destruct (in_order x y) eqn:Hxy.
    + specialize (IH y). destruct (bubble y r) as [l k]. simpl in *.
      intros Hk. destruct (IH Hk) as [-> Hs]. split; [done|].
      constructor; [done|by constructor].
    + destruct (bubble x r) as [l k]. simpl. discriminate.
Qed.

Lemma count_out_perm x r r' : Permutation r r' -> count_out x r = count_out x r'.
Proof. induction 1; simpl; lia. Qed.

(** Under totality, each swap removes exactly one inversion. *)
Lemma bubble_inversions `{!CmpTotal cmp} x r :
  inversions (x :: r) = inversions (bubble x r).1 + (bubble x r).2.
Proof.
  revert x. induction r as [|y r IH]; intros x; simpl; [lia|].
  destruct (in_order x y) eqn:Hxy.
  - specialize (IH y). pose proof (bubble_perm y r) as Hp.
    destruct (bubble y r) as [l k]. simpl in *.
    rewrite <- (count_out_perm x _ _ Hp). simpl. rewrite Hxy. lia.
  - specialize (IH x). pose proof (bubble_perm x r) as Hp.
    destruct (bubble x r) as [l k]. simpl in *.
    rewrite <- (count_out_perm y _ _ Hp). simpl.
    assert (in_order y x = true) as ->.
    { unfold in_order in *. apply negb_false_iff, Z.eqb_eq in Hxy.
      apply negb_true_iff, Z.eqb_neq. by apply cmp_total. }
    lia.
Qed.

Lemma count_out_le x r : count_out x r <= length r.
Proof. induction r as [|y r IH]; simpl; [lia|]. destruct (in_order x y); lia. Qed.

Lemma inversions_le xs : inversions xs <= length xs * length xs.
Proof.
  induction xs as [|x r IH]; simpl; [lia|]. pose proof (count_out_le x r). nia.
Qed.

(** Termination and correctness of the reference sort: with more passes
    than inversions it returns a sorted permutation of its input. *)
Lemma bubble_sort_correct `{!CmpTotal cmp} fuel xs :
  inversions xs < fuel ->
  exists ys, bubble_sort fuel xs = Some ys /\ Sorted ordered ys /\ Permutation xs ys.
Proof.
  revert xs. induction fuel as [|f IH]; intros xs Hf; [lia|]. simpl.
  destruct xs as [|x r]; simpl.
  - exists []. split_and!; [done|constructor|done].
  - pose proof (bubble_inversions x r) as Hinv. pose proof (bubble_perm x r) as Hp.
    pose proof (bubble_no_swap x r) as Hns.
    destruct (bubble x r) as [l k] eqn:Hb. simpl in *.
    destruct (Nat.eqb_spec k 0) as [->|Hk].
    + destruct (Hns eq_refl) as [-> Hs]. eexists. split_and!; [done|exact Hs|done].
    + destruct (IH l) as (ys & H1 & H2 & H3); [lia|].
      exists ys. split_and!; [done|done|by etrans].
Qed.

(** More passes do not change a result. *)
Lemma bubble_sort_mono fuel fuel' xs ys :
  bubble_sort fuel xs = Some ys -> fuel <= fuel' -> bubble_sort fuel' xs = Some ys.
Proof.
  revert fuel' xs. induction fuel as [|f IH]; intros fuel' xs H Hle; [done|].
  destruct fuel' as [|f']; [lia|]. simpl in *.
  destruct (bubble_pass xs) as [l k]. destruct (Nat.eqb k 0); [done|].
  apply IH; [done|lia].
Qed.

(** Stability.  A class [Q] of items that the comparator accepts in
    either order (items with equal keys, for a comparator on keys) is
    never reordered: a pass only swaps a pair that is not in order. *)
Definition cmp_class (Q : Item -> bool) : Prop :=
  forall a b, Q a = true -> Q b = true -> in_order a b = true.

Lemma bubble_stable Q x r : cmp_class Q -> List.filter Q (bubble x r).1 = List.filter Q (x :: r).
Proof.
  intros HQ. revert x. induction r as [|y r IH]; intros x; [done|]. simpl.
  destruct (in_order x y) eqn:Hxy.
  - destruct (bubble y r) as [l k] eqn:Hb. specialize (IH y). rewrite Hb in IH. simpl in *. by rewrite IH.
  - destruct (bubble x r) as [l k] eqn:Hb. simpl. specialize (IH x). rewrite Hb in IH. simpl in IH.
    destruct (Q y) eqn:Hy; destruct (Q x) eqn:Hx; rewrite IH; [|done|done|done].
    by rewrite (HQ x y Hx Hy) in Hxy.
Qed.

Lemma bubble_sort_stable Q fuel xs ys :
  cmp_class Q -> bubble_sort fuel xs = Some ys -> List.filter Q ys = List.filter Q xs.
Proof.
  intros HQ. revert xs. induction fuel as [|f IH]; intros xs; [done|]. simpl.
  assert (List.filter Q (bubble_pass xs).1 = List.filter Q xs) as Hp
    by (destruct xs; [done|by apply bubble_stable]).
  destruct (bubble_pass xs) as [l k]. simpl in Hp.
  destruct (Nat.eqb k 0); [intros [= <-]; done|]. intros H. rewrite <- Hp. by apply IH.
Qed.
End Bubble.

#[export] Hint Resolve bubble_pass_perm bubble_perm : liblist.

Section BubbleFacts.
Context {Item : Type}.

(** Two items that the comparator accepts in neither order are swapped
    back and forth by every pass: a strict comparator ([a < b]) on two
    equal items, for instance, makes the passes run forever. *)
Lemma bubble_sort_diverges (cmp : Item -> Item -> Z) fuel a b :
  cmp a b = 0%Z -> cmp b a = 0%Z -> bubble_sort cmp fuel [a; b] = None.
Proof.
  intros Hab Hba. revert a b Hab Hba. induction fuel as [|f IH]; intros a b Hab Hba; [done|].
  simpl. unfold in_order. rewrite Hab. simpl. by apply IH.
Qed.

(** With a transitive comparator the adjacent-pair order is global. *)
Lemma sorted_strongly (cmp : Item -> Item -> Z) `{!CmpTrans cmp} ys :
  Sorted (ordered cmp) ys -> StronglySorted (ordered cmp) ys.
Proof.
  apply Sorted_StronglySorted. intros a b c. unfold ordered, in_order.
  rewrite !negb_true_iff, !Z.eqb_neq. apply cmp_trans.
Qed.
End BubbleFacts.
