(* ===== verification/Sort.v ===== *)
(** [sort_list] (liblist.c 132-162) on the heap: the inner loop swaps the
    items of adjacent members in place, the outer loop repeats passes
    until one makes no swap.  The file proves that the heap code computes
    exactly the reference [bubble_sort] of [Bubble] (for any comparator,
    divergence included), and hence sorts for a total comparator. *)

From S2P Require Import Prelude Spec Heap Chain Fixtures Bubble.
From Stdlib Require Import Sorting.Sorted Sorting.Permutation.

Section Sort.
Context {Item : Type}.
Local Abbreviation ST := (M (Mem Item)).

(** One pass: the inner [while (next)] loop of liblist.c 146-159, from
    the members [present] and [next = present->next]; returns
    [swap_count]. *)
Fixpoint sort_pass (fuel : nat) (cmp : Item -> Item -> Z) (present next : ptr)
    (swap_count : Z) : ST Z :=
  match fuel with
  | 0 => out_of_fuel
  | S f =>
      match next with
      | None => ret swap_count
      | Some _ =>
          let* pm := load_member present in
          let* nm := load_member next in
          let* swap_count :=
            if Z.eqb (cmp (item pm) (item nm)) 0 then
              let aux := item pm in
              let* nm := load_member next in
              let* pm := load_member present in
              let* _ := store_member present (set_item pm (item nm)) in
              let* nm := load_member next in
              let* _ := store_member next (set_item nm aux) in
              int_add swap_count 1
            else ret swap_count in
          let* nm := load_member next in
          sort_pass f cmp next (Heap.next nm) swap_count
      end
  end.

(** The outer [while (swap_count)] loop of liblist.c 142-160 (its first
    test always passes, [swap_count] starting at 1); [fuel] bounds the
    passes, [inner] the steps of each pass. *)
Fixpoint sort_passes (fuel inner : nat) (cmp : Item -> Item -> Z) (list : ptr) : ST unit :=
  match fuel with
  | 0 => out_of_fuel
  | S f =>
      let* L := load_list list in
      let* pm := load_member (first L) in
      let* swap_count := sort_pass inner cmp (first L) (next pm) 0 in
      if Z.eqb swap_count 0 then ret tt else sort_passes f inner cmp list
  end.

(** [List *sort_list(List *list, int ( *cmp)(void *item_a, void *item_b))]
    (liblist.c 132-162).  A pass visits each member once and there are
    at most [n] live members, [n * n] bounds the inversions of the
    list, and every pass but the last removes one. *)
Definition sort_list (list : ptr) (cmp : option (Item -> Item -> Z)) : ST ptr :=
  match list, cmp with
  | Some _, Some c =>
      let* L := load_list list in
      match first L with
      | None => ret None
      | Some _ =>
          let* s := get in
          let n := size (members s) in
          let* _ := sort_passes (S (n * n)) (S n) c list in
          ret list
      end
  | _, _ => ret None
  end.
End Sort.

Section SortProofs.
Context {Item : Type}.
Implicit Types (s : Mem Item) (A : alist Item).

(** A step that writes members only. *)
Definition only_members s s' : Prop :=
  lists s' = lists s /\ oracle s' = oracle s /\ destroyed s' = destroyed s.

Lemma only_members_refl s : only_members s s.
Proof. done. Qed.

Lemma only_members_trans s1 s2 s3 :
  only_members s1 s2 -> only_members s2 s3 -> only_members s1 s3.
Proof. intros (? & ? & ?) (? & ? & ?). split_and!; congruence. Qed.

Lemma only_members_with s h : only_members s (with_members s h).
Proof. done. Qed.

(** One heap pass computes one reference pass: starting from the bubble
    member [lp0], whose successors [ls] hold [r], it leaves the members
    [lp0 :: ls] holding [bubble cmp (item m0) r] and returns the number of
    swaps added to [sc]. *)
Lemma sort_pass_run (cmp : Item -> Item -> Z) ls : forall fuel s lp0 m0 r sc,
  members s !! lp0 = Some m0 -> chain (members s) (next m0) ls r -> lp0 ∉ ls ->
  length ls < fuel -> (0 <= sc)%Z -> (sc + Z.of_nat (length ls) <= INT_MAX)%Z ->
  exists s', sort_pass fuel cmp (Some lp0) (next m0) sc s =
               Ok ((sc + Z.of_nat (bubble cmp (item m0) r).2)%Z, s') /\
    only_members s s' /\
    chain (members s') (Some lp0) (lp0 :: ls) (bubble cmp (item m0) r).1 /\
    (forall l, l ∉ lp0 :: ls -> members s' !! l = members s !! l).
Proof.
  induction ls as [|l1 ls IH]; intros fuel s lp0 m0 r sc Hm0 Hc Hnot Hf Hsc Hrange;
    (destruct fuel as [|f]; [simpl in Hf; lia|]).
  - inversion Hc; subst. rename select (next m0 = None) into Hn. rewrite Hn. simpl.
    exists s. rewrite Z.add_0_r. split_and!; [done|done| |done].
    apply (seg_cons _ lp0 m0); [done|]. rewrite Hn. apply seg_nil.
  - inversion Hc as [|? m1 ? ? r' Hm1 Hc']; subst.
    rename select (Some l1 = next m0) into Hn.
    pose proof (chain_NoDup _ _ _ _ Hc) as Hnd. apply NoDup_cons in Hnd as [Hl1 Hnd].
    assert (lp0 <> l1) by set_solver. assert (lp0 ∉ ls) by set_solver.
    cbn [sort_pass]. heap_unfold. hrun. simpl.
    unfold in_order. destruct (Z.eqb_spec (cmp (item m0) (item m1)) 0) as [Hz|Hz]; simpl.
    + (* the pair is out of order: swap the items *)
      hrun. replace (int_range (sc + 1)) with true
        by (symmetry; apply int_range_spec; unfold INT_MIN; simpl in Hrange; lia).
      hrun.
      set (s2 := with_members s (<[l1 := set_item m1 (item m0)]>
                                   (<[lp0 := set_item m0 (item m1)]> (members s)))).
      destruct (IH f s2 l1 (set_item m1 (item m0)) r' (sc + 1)%Z) as (s' & Hrun & Hom & Hc2 & Hfr);
        [subst s2; simpl; by rewrite lookup_insert_eq| | done |simpl in Hf; lia|lia|simpl in Hrange; lia|].
      { subst s2. simpl. eapply seg_frame; [exact Hc'|]. intros l Hl.
        rewrite !lookup_insert_ne; [done|set_solver..]. }
      simpl in Hrun. simpl. destruct (bubble cmp (item m0) r') as [bl k] eqn:Hb. simpl in *.
      exists s'. split_and!.
      * transitivity (sort_pass f cmp (Some l1) (next m1) (sc + 1) s2); [reflexivity|].
        rewrite Hrun. do 2 f_equal. lia.
      * eapply only_members_trans; [apply only_members_with|exact Hom].
      * apply (seg_cons _ lp0 (set_item m0 (item m1)));
          [|cbn [next set_item]; rewrite <- Hn; rewrite Hb in Hc2; exact Hc2].
        rewrite Hfr by set_solver. subst s2. simpl. by rewrite lookup_insert_ne, lookup_insert_eq.
      * intros l Hl. rewrite Hfr by set_solver. subst s2. simpl.
        rewrite !lookup_insert_ne; [done|set_solver..].
    + (* in order: move on *)
      destruct (IH f s l1 m1 r' sc) as (s' & Hrun & Hom & Hc2 & Hfr);
        [done|done|done|simpl in Hf; lia|lia|simpl in Hrange; lia|].
      hrun. rewrite Hrun. destruct (bubble cmp (item m1) r') as [bl k] eqn:Hb. simpl in *.
      exists s'. split_and!; [done|done| |].
      * apply (seg_cons _ lp0 m0); [|by rewrite <- Hn].
        rewrite Hfr by set_solver. done.
      * intros l Hl. apply Hfr. set_solver.
Qed.

(** The heap passes compute the reference passes: as many as
    [bubble_sort] with the same fuel, ending with the same items, or
    running out of fuel exactly when it does. *)
Lemma sort_passes_run (cmp : Item -> Item -> Z) fuel inner : forall s lp L ls xs,
  lists s !! lp = Some L -> chain (members s) (first L) ls xs -> ls <> [] ->
  length ls <= inner -> (Z.of_nat (length ls) <= INT_MAX)%Z ->
  (forall ys, bubble_sort cmp fuel xs = Some ys ->
     exists s', sort_passes fuel inner cmp (Some lp) s = Ok (tt, s') /\
       only_members s s' /\ chain (members s') (first L) ls ys /\
       (forall l, l ∉ ls -> members s' !! l = members s !! l)) /\
  (bubble_sort cmp fuel xs = None -> sort_passes fuel inner cmp (Some lp) s = OutOfFuel).
Proof.
  induction fuel as [|f IH]; intros s lp L ls xs HL Hc Hne Hin Hrange; [done|].
  destruct ls as [|l0 ls']; [done|].
  pose proof (chain_head _ _ _ _ Hc) as Hh. simpl in Hh.
  rewrite Hh in Hc. inversion Hc as [|? m0 ? ? r Hm0 Hc']; subst.
  pose proof (chain_NoDup _ _ _ _ Hc) as Hnd. apply NoDup_cons in Hnd as [Hl0 _].
  destruct (sort_pass_run cmp ls' inner s l0 m0 r 0) as (s1 & Hrun & Hom & Hc1 & Hfr);
    [done|done|done|simpl in Hin; lia|lia|simpl in Hrange; lia|].
  cbn [sort_passes bubble_sort bubble_pass]. heap_unfold. hrun.
  rewrite Hrun. destruct (bubble cmp (item m0) r) as [bl k] eqn:Hb. simpl in *.
  destruct (Nat.eqb_spec k 0) as [->|Hk]; simpl.
  - split; [|done]. intros ys [= <-]. exists s1. split_and!; [done|done|try rewrite Hh; done|done].
  - replace (0 + Z.of_nat k =? 0)%Z with false by (symmetry; apply Z.eqb_neq; lia).
    destruct Hom as (Hl1 & Ho1 & Hd1).
    destruct (IH s1 lp L (l0 :: ls') bl) as [IH1 IH2]; [by rewrite Hl1|try rewrite Hh; done|done..|].
    split; [|exact IH2]. intros ys Hys.
    destruct (IH1 ys Hys) as (s2 & H2 & Hom2 & Hc2 & Hfr2).
    exists s2. split_and!; [done| |by rewrite <- Hh|].
    + eapply only_members_trans; [|exact Hom2]. done.
    + intros l Hl. rewrite Hfr2 by done. apply Hfr. set_solver.
Qed.

(** The representation after the passes rewrote the items of [ls]. *)
Lemma rep_at_resorted s s' lp L ls A ys :
  lists s !! lp = Some L -> list_ok (members s) L ls A -> only_members s s' ->
  chain (members s') (first L) ls ys ->
  rep_at s' lp ls (AList ys (cursor A)).
Proof.
  intros HL [Hc Hl Ht Hr Hcur] (Hls & _ & _) Hc'.
  exists L. split; [by rewrite Hls|]. split; simpl; try done.
Qed.

(** The run of [sort_list] on a non-empty list, for any comparator. *)
Lemma sort_list_run s lp ls A (cmp : Item -> Item -> Z) :
  rep_at s lp ls A -> elems A <> [] ->
  (forall ys, bubble_sort cmp (S (size (members s) * size (members s))) (elems A) = Some ys ->
     exists s', sort_list (Some lp) (Some cmp) s = Ok (Some lp, s') /\
       rep_at s' lp ls (AList ys (cursor A)) /\ only_members s s' /\
       (forall l, l ∉ ls -> members s' !! l = members s !! l)) /\
  (bubble_sort cmp (S (size (members s) * size (members s))) (elems A) = None ->
     sort_list (Some lp) (Some cmp) s = OutOfFuel).
Proof.
  intros (L & HL & Hok) Hne. pose proof Hok as [Hc Hl Ht Hr Hcur].
  assert (ls <> []) as Hls
    by (intros ->; apply seg_length in Hc; destruct (elems A); simpl in *; congruence).
  pose proof (chain_length_le _ _ _ _ Hc) as Hsz.
  destruct (sort_passes_run cmp (S (size (members s) * size (members s))) (S (size (members s)))
              s lp L ls (elems A)) as [H1 H2]; [done..|lia|done|].
  unfold sort_list. heap_unfold. hrun.
  destruct (first L) eqn:Hf; [|destruct ls; [done|]; apply chain_head in Hc; simpl in Hc; congruence].
  split.
  - intros ys Hys. destruct (H1 ys Hys) as (s' & Hrun & Hom & Hc' & Hfr).
    rewrite Hrun. exists s'. split_and!; [done| |done|done].
    eapply rep_at_resorted; [done..|by rewrite Hf].
  - intros Hnone. by rewrite (H2 Hnone).
Qed.

(** C3: equivalence of [sort_list] with the reference bubble sort, for
    any comparator: on a non-empty well-formed list, [sort_list] returns
    the list with its items rearranged exactly as [bubble_sort] with
    [n * n + 1] passes does ([n] the number of live members), and runs
    out of passes exactly when [bubble_sort] does. *)
Theorem sort_list_refines s lp ls A (cmp : Item -> Item -> Z) :
  rep_at s lp ls A -> elems A <> [] ->
  (forall ys, bubble_sort cmp (S (size (members s) * size (members s))) (elems A) = Some ys ->
     exists s', sort_list (Some lp) (Some cmp) s = Ok (Some lp, s') /\
       rep_at s' lp ls (AList ys (cursor A)) /\ only_members s s' /\
       (forall l, l ∉ ls -> members s' !! l = members s !! l)) /\
  (bubble_sort cmp (S (size (members s) * size (members s))) (elems A) = None ->
     sort_list (Some lp) (Some cmp) s = OutOfFuel).
Proof. by apply sort_list_run. Qed.

(** The run of [sort_list] with a total comparator, shared with the
    flows of [Scenario]. *)
(** [sort_list] with a total comparator computes [bubble_sort] within
    [size * size] passes. *)
Lemma sort_list_bubble_run s lp ls A (cmp : Item -> Item -> Z) `{!CmpTotal cmp} :
  rep_at s lp ls A -> elems A <> [] ->
  exists fuel ys s', bubble_sort cmp fuel (elems A) = Some ys /\
    sort_list (Some lp) (Some cmp) s = Ok (Some lp, s') /\
    rep_at s' lp ls (AList ys (cursor A)) /\
    Sorted (ordered cmp) ys /\ Permutation (elems A) ys /\ only_members s s' /\
    (forall l, l ∉ ls -> members s' !! l = members s !! l).
Proof.
  intros Hrep Hne. pose proof Hrep as (L & _ & Hok).
  pose proof (chain_length_le _ _ _ _ (ok_chain _ _ _ _ Hok)) as Hsz.
  rewrite (list_ok_length _ _ _ _ Hok) in Hsz.
  destruct (bubble_sort_correct cmp (S (size (members s) * size (members s))) (elems A))
    as (ys & Hys & Hsorted & Hperm).
  { pose proof (inversions_le cmp (elems A)). nia. }
  destruct (sort_list_run s lp ls A cmp Hrep Hne) as [H1 _].
  destruct (H1 ys Hys) as (s' & Hrun & Hr' & Hom & Hfr).
  exists (S (size (members s) * size (members s))), ys, s'. split_and!; done.
Qed.

Lemma sort_list_sorts_run s lp ls A (cmp : Item -> Item -> Z) `{!CmpTotal cmp} :
  rep_at s lp ls A -> elems A <> [] ->
  exists ys s', sort_list (Some lp) (Some cmp) s = Ok (Some lp, s') /\
    rep_at s' lp ls (AList ys (cursor A)) /\
    Sorted (ordered cmp) ys /\ Permutation (elems A) ys /\ only_members s s' /\
    (forall l, l ∉ ls -> members s' !! l = members s !! l).
Proof.
  intros Hrep Hne. destruct (sort_list_bubble_run s lp ls A cmp Hrep Hne) as (f & ys & s' & _ & H).
  by exists ys, s'.
Qed.

(** C2: [sort_list] with a total comparator sorts: it terminates and
    returns the list, whose items are now a permutation of the old ones
    with every adjacent pair in order; only the items of the list's own
    members change. *)
Theorem sort_list_sorts s lp ls A (cmp : Item -> Item -> Z) `{!CmpTotal cmp} :
  rep_at s lp ls A -> elems A <> [] ->
  exists ys s', sort_list (Some lp) (Some cmp) s = Ok (Some lp, s') /\
    rep_at s' lp ls (AList ys (cursor A)) /\
    Sorted (ordered cmp) ys /\ Permutation (elems A) ys /\ only_members s s' /\
    (forall l, l ∉ ls -> members s' !! l = members s !! l).
Proof. by apply sort_list_sorts_run. Qed.

(** C15: [sort_list] is stable: items that the comparator accepts in
    either order (items with equal keys, for a comparator on keys) keep
    their relative order, since the passes only swap a pair that is not
    in order (liblist.c 150). *)
Theorem sort_list_stable s lp ls A (cmp : Item -> Item -> Z) `{!CmpTotal cmp} :
  rep_at s lp ls A -> elems A <> [] ->
  exists ys s', sort_list (Some lp) (Some cmp) s = Ok (Some lp, s') /\
    rep_at s' lp ls (AList ys (cursor A)) /\
    forall Q, cmp_class cmp Q -> List.filter Q ys = List.filter Q (elems A).
Proof.
  intros Hrep Hne. destruct (sort_list_bubble_run s lp ls A cmp Hrep Hne) as (f & ys & s' & Hb & H1 & H2 & _).
  exists ys, s'. split_and!; [done|done|]. intros Q HQ. by eapply bubble_sort_stable.
Qed.


(** C28: the early return of [sort_list]: NULL without touching the
    heap for a NULL list, a NULL comparator or an empty list. *)
Theorem sort_list_errors s (p : ptr) (cmp : option (Item -> Item -> Z)) lp ls A :
  sort_list None cmp s = Ok (None, s) /\ sort_list p None s = Ok (None, s) /\
  (rep_at s lp ls A -> elems A = [] -> sort_list (Some lp) cmp s = Ok (None, s)).
Proof.
  split_and!; [by destruct cmp|by destruct p|].
  intros (L & HL & Hok) HA. destruct cmp as [c|]; [|done].
  pose proof (ok_chain _ _ _ _ Hok) as Hc. rewrite HA in Hc.
  apply chain_nil_r in Hc as [Hc _]. unfold sort_list. heap_unfold. hrun. done.
Qed.

(** C26: [sort_list] does not terminate when the comparator is not
    total: on a two-item list whose items the comparator accepts in
    neither order (two equal items under a strict comparator), every
    bound on the number of passes is exceeded, so the C loop
    [while (swap_count)] never exits. *)
Theorem sort_list_diverges s lp ls a b cur (cmp : Item -> Item -> Z) :
  cmp a b = 0%Z -> cmp b a = 0%Z -> rep_at s lp ls (AList [a; b] cur) ->
  sort_list (Some lp) (Some cmp) s = OutOfFuel /\
  (forall fuel inner, 2 <= inner -> sort_passes fuel inner cmp (Some lp) s = OutOfFuel).
Proof.
  intros Hab Hba Hrep. split.
  - apply (sort_list_run s lp ls _ cmp Hrep); [done|]. by apply bubble_sort_diverges.
  - intros fuel inner Hin. destruct Hrep as (L & HL & [Hc Hl Ht Hr Hcur]).
    pose proof (seg_length _ _ _ _ _ Hc) as Hlen. simpl in Hlen.
    apply (sort_passes_run cmp fuel inner s lp L ls [a; b]); try done; try lia.
    + by destruct ls.
    + by apply bubble_sort_diverges.
Qed.
End SortProofs.

(** ** Witnesses *)

Lemma sort_list_refines_witness :
  (forall ys, bubble_sort asc_cmp (S (size (members (demo_mem [5; 3; 8; 1]%Z)) *
                                     size (members (demo_mem [5; 3; 8; 1]%Z))))
                (elems (AList [5; 3; 8; 1]%Z None)) = Some ys ->
     exists s', sort_list (Some 1%positive) (Some asc_cmp) (demo_mem [5; 3; 8; 1]%Z) =
                  Ok (Some 1%positive, s') /\
       rep_at s' 1 (demo_locs [5; 3; 8; 1]%Z) (AList ys (cursor (AList [5; 3; 8; 1]%Z None))) /\
       only_members (demo_mem [5; 3; 8; 1]%Z) s' /\
       (forall l, l ∉ demo_locs [5; 3; 8; 1]%Z ->
                  members s' !! l = members (demo_mem [5; 3; 8; 1]%Z) !! l)) /\
  (bubble_sort asc_cmp (S (size (members (demo_mem [5; 3; 8; 1]%Z)) *
                          size (members (demo_mem [5; 3; 8; 1]%Z))))
     (elems (AList [5; 3; 8; 1]%Z None)) = None ->
   sort_list (Some 1%positive) (Some asc_cmp) (demo_mem [5; 3; 8; 1]%Z) = OutOfFuel).
Proof. apply sort_list_refines; [decide_rep|done]. Defined.

#[export] Instance asc_cmp_total : CmpTotal asc_cmp.
Proof. intros a b. unfold asc_cmp. destruct (Z.leb_spec a b), (Z.leb_spec b a); lia. Qed.

Lemma sort_list_sorts_witness :
  exists ys s', sort_list (Some 1%positive) (Some asc_cmp) (demo_mem [5; 3; 8; 1]%Z) =
                  Ok (Some 1%positive, s') /\
    rep_at s' 1 (demo_locs [5; 3; 8; 1]%Z) (AList ys None) /\
    Sorted (ordered asc_cmp) ys /\ Permutation [5; 3; 8; 1]%Z ys /\
    only_members (demo_mem [5; 3; 8; 1]%Z) s' /\
    (forall l, l ∉ demo_locs [5; 3; 8; 1]%Z ->
               members s' !! l = members (demo_mem [5; 3; 8; 1]%Z) !! l).
Proof.
  apply (sort_list_sorts _ _ _ (AList [5; 3; 8; 1]%Z None) asc_cmp); [decide_rep|done].
Defined.

(** A comparator on the key of (key, tag) pairs, in the style of
    [sort_asc]. *)
Definition key_cmp (a b : Z * Z) : Z := if Z.leb a.1 b.1 then 1%Z else 0%Z.

#[export] Instance key_cmp_total : CmpTotal key_cmp.
Proof. intros a b. unfold key_cmp. destruct (Z.leb_spec a.1 b.1), (Z.leb_spec b.1 a.1); lia. Qed.

Lemma sort_list_stable_witness :
  exists ys s', sort_list (Some 1%positive) (Some key_cmp) (demo_heap [(2, 0); (1, 1); (2, 2); (1, 3)]%Z) =
                  Ok (Some 1%positive, s') /\
    rep_at s' 1 (build_locs 2 4) (AList ys None) /\
    forall Q, cmp_class key_cmp Q -> List.filter Q ys = List.filter Q [(2, 0); (1, 1); (2, 2); (1, 3)]%Z.
Proof.
  apply (sort_list_stable _ _ _ (AList [(2, 0); (1, 1); (2, 2); (1, 3)]%Z None) key_cmp); [decide_rep|done].
Defined.

Lemma sort_list_errors_witness :
  sort_list None (Some asc_cmp) (demo_mem [2]%Z) = Ok (None, demo_mem [2]%Z) /\
  sort_list (Some 1%positive) None (demo_mem [2]%Z) = Ok (None, demo_mem [2]%Z) /\
  sort_list (Some 1%positive) (Some asc_cmp) (demo_mem []) = Ok (None, demo_mem []).
Proof.
  destruct (sort_list_errors (demo_mem []) (Some 1%positive) (Some asc_cmp) 1 [] (AList [] None))
    as (_ & _ & H3).
  split_and!; [apply (sort_list_errors (demo_mem [2]%Z) (Some 1%positive) (Some asc_cmp) 1 [] a_empty)..|].
  apply H3; [decide_rep|done].
Defined.

(** A strict [<] comparator, which the ascending sort of test_list.c
    would be with [<] in place of [<=]. *)
Definition lt_cmp (a b : Z) : Z := if Z.ltb a b then 1%Z else 0%Z.

Lemma sort_list_diverges_witness :
  sort_list (Some 1%positive) (Some lt_cmp) (demo_mem [4; 4]%Z) = OutOfFuel /\
  (forall fuel inner, 2 <= inner ->
     sort_passes fuel inner lt_cmp (Some 1%positive) (demo_mem [4; 4]%Z) = OutOfFuel).
Proof.
  apply (sort_list_diverges _ _ (demo_locs [4; 4]%Z) 4%Z 4%Z None); [done|done|decide_rep].
Defined.
