(* ===== verification/Join.v ===== *)
(** [join_lists] (liblist.c 83-95): the second list's chain is linked
    behind the first list's last member and the second container is
    freed.  The file proves the refinement of [a_join] when the second
    list is not empty (or the first one is), and shows what the code does
    when a non-empty list is joined with an empty one: the first list is
    left with a NULL [last], and the next [append_to_list] on it
    dereferences NULL. *)

From S2P Require Import Prelude Spec Heap Chain Fixtures Append.

Section Join.
Context {Item : Type}.
Local Abbreviation ST := (M (Mem Item)).

(** [void join_lists(List *first, List *second)] (liblist.c 83-95). *)
Definition join_lists (first_l second_l : ptr) : ST unit :=
  let* Lf := load_list first_l in
  let* _ := match last Lf with
            | Some _ =>
                let* Ls := load_list second_l in
                let* m := load_member (last Lf) in
                store_member (last Lf) (set_next m (first Ls))
            | None =>
                let* Ls := load_list second_l in
                let* Lf := load_list first_l in
                store_list first_l (set_first Lf (first Ls))
            end in
  let* Ls := load_list second_l in
  let* Lf := load_list first_l in
  let* _ := store_list first_l (set_last Lf (last Ls)) in
  let* Ls := load_list second_l in
  let* Lf := load_list first_l in
  let* n := int_add (total_members Lf) (total_members Ls) in
  let* _ := store_list first_l (set_total Lf n) in
  free_list second_l.
End Join.

Section JoinProofs.
Context {Item : Type}.
Implicit Types (s : Mem Item) (A B : alist Item).

Lemma int_range_length_sum (n1 n2 : nat) :
  (Z.of_nat (n1 + n2) <= INT_MAX)%Z -> int_range (Z.of_nat n1 + Z.of_nat n2) = true.
Proof. intros H. apply int_range_spec. unfold INT_MIN. lia. Qed.

(** The container invariant after the join. *)
Lemma list_ok_join h lsf lss A B L' :
  chain h (first L') (lsf ++ lss) (elems A ++ elems B) ->
  last L' = list_last (lsf ++ lss) ->
  total_members L' = Z.of_nat (length lsf + length lss) ->
  (Z.of_nat (length lsf + length lss) <= INT_MAX)%Z ->
  cur_rel lsf (current L') (cursor A) -> list_ok h L' (lsf ++ lss) (a_join A B).
Proof.
  intros Hc Hl Ht Hr Hcu. split; simpl; try done.
  - by rewrite Ht, length_app.
  - by rewrite length_app.
  - by apply cur_rel_app.
Qed.

(** The run of [join_lists] on two disjoint lists, the second non-empty or the first empty. *)
Lemma join_lists_run s lf ls lsf lss A B :
  rep_at s lf lsf A -> rep_at s ls lss B -> lf <> ls -> lsf ## lss ->
  (lsf = [] \/ lss <> []) -> (Z.of_nat (length lsf + length lss) <= INT_MAX)%Z ->
  exists s', join_lists (Some lf) (Some ls) s = Ok (tt, s') /\
    rep_at s' lf (lsf ++ lss) (a_join A B) /\ lists s' !! ls = None /\
    (forall lq, lq <> lf -> lq <> ls -> lists s' !! lq = lists s !! lq) /\
    footprint s s' lsf /\
    oracle s' = oracle s /\ destroyed s' = destroyed s.
Proof.
  intros (Lf & HLf & Hokf) (Ls & HLs & Hoks) Hne Hdisj Hcase Hrange.
  pose proof Hokf as [Hcf Hlf Htf Hrf Hcurf]. pose proof Hoks as [Hcs Hls Hts Hrs Hcurs].
  pose proof (int_range_length_sum _ _ Hrange) as Hi.
  pose proof (seg_length _ _ _ _ _ Hcs) as Hlens.
  unfold join_lists. heap_unfold. hrun.
  destruct (list_last lsf) as [lz|] eqn:Hlz; rewrite Hlf.
  - (* the first list is not empty: link its last member *)
    destruct Hcase as [->|Hlss]; [done|].
    destruct (chain_last _ _ _ _ _ Hcf Hlz) as (mz & Hmz & Hnz).
    hrun. rewrite Htf, Hts, Hi. hrun.
    eexists. split; [reflexivity|]. split_and!; try done.
    + eexists. split; [by simplify_map_eq|].
      apply list_ok_join; simpl; try done.
      * eapply chain_link; [exact Hcf|exact Hlz|exact Hmz|exact Hcs|exact Hdisj].
      * rewrite Hls, last_app. destruct (list_last lss) eqn:E; [done|].
        by apply last_None in E.
      * lia.
    + simpl. by rewrite lookup_delete_eq.
    + intros lq H1 H2. simpl. by rewrite lookup_delete_ne, !lookup_insert_ne.
    + intros l Hl. simpl. rewrite lookup_insert_ne; [done|].
      intros ->. apply Hl. eauto with liblist.
  - (* the first list is empty: it becomes the second one *)
    apply last_None in Hlz as ->. apply chain_nil_l in Hcf as [_ HA].
    hrun. rewrite Htf, Hts, Hi. hrun.
    eexists. split; [reflexivity|]. split_and!; try done.
    + eexists. split; [by simplify_map_eq|].
      apply (list_ok_join _ [] lss); simpl; try done.
      by rewrite HA.
    + simpl. by rewrite lookup_delete_eq.
    + intros lq H1 H2. simpl. by rewrite lookup_delete_ne, !lookup_insert_ne.
Qed.

(** C8: joining a list with a disjoint, non-empty list (or joining an
    empty list with any list) concatenates them in order, frees the
    second container, and touches no other list and no member outside
    the first list. *)
Theorem join_lists_refines s lf ls lsf lss A B :
  rep_at s lf lsf A -> rep_at s ls lss B -> lf <> ls -> lsf ## lss ->
  (lsf = [] \/ lss <> []) -> (Z.of_nat (length lsf + length lss) <= INT_MAX)%Z ->
  exists s', join_lists (Some lf) (Some ls) s = Ok (tt, s') /\
    rep_at s' lf (lsf ++ lss) (a_join A B) /\ lists s' !! ls = None /\
    (forall lq, lq <> lf -> lq <> ls -> lists s' !! lq = lists s !! lq) /\
    footprint s s' lsf /\
    oracle s' = oracle s /\ destroyed s' = destroyed s.
Proof. by apply join_lists_run. Qed.

(** C16: the code does not handle an empty second list: joining a
    non-empty list with an empty one stores the second list's NULL [last]
    into the first list, which then has members but no last member: the
    invariant of spec.md section 3 is broken, and the next
    [append_to_list] on it dereferences NULL. *)
Theorem join_lists_empty_second s lf ls lsf A B x :
  rep_at s lf lsf A -> rep_at s ls [] B -> lf <> ls -> lsf <> [] ->
  exists s' L', join_lists (Some lf) (Some ls) s = Ok (tt, s') /\
    lists s' !! lf = Some L' /\ first L' <> None /\ last L' = None /\
    (forall A', ~ rep s' lf A') /\
    (head (oracle s') <> Some false ->
     append_to_list (Some lf) (Some x) s' = Fault NullDeref).
Proof.
  intros (Lf & HLf & Hokf) (Ls & HLs & Hoks) Hne Hlsf.
  pose proof Hokf as [Hcf Hlf Htf Hrf Hcurf]. pose proof Hoks as [Hcs Hls Hts Hrs Hcurs].
  pose proof (chain_head _ _ _ _ Hcf) as Hh.
  destruct (list_last lsf) as [lz|] eqn:Hlz; [|by apply last_None in Hlz].
  destruct (chain_last _ _ _ _ _ Hcf Hlz) as (mz & Hmz & Hnz).
  apply chain_nil_l in Hcs as [Hfs _]. simpl in Hls, Hts.
  assert (int_range (total_members Lf + total_members Ls) = true) as Hi
    by (rewrite Htf, Hts; apply int_range_spec; unfold INT_MIN; lia).
  unfold join_lists. heap_unfold. hrun. rewrite Hi. hrun.
  rewrite Hfs, Hls. simpl.
  eexists _, _. split; [reflexivity|]. simpl. rewrite lookup_delete_ne, lookup_insert_eq by done.
  split_and!; [reflexivity| | | |].
  - simpl. rewrite Hh. by destruct lsf.
  - done.
  - intros A' (ls' & L'' & HL'' & [Hc'' Hl'' _ _ _]). simpl in *.
    rewrite lookup_delete_ne, lookup_insert_eq in HL'' by done. injection HL'' as <-.
    simpl in *. rewrite Hh in Hc''. destruct lsf as [|l0 lsf']; [done|].
    apply chain_head in Hc''. destruct ls'; [done|]. simpl in *.
    symmetry in Hl''. apply last_None in Hl''. done.
  - intros Hor. unfold append_to_list. rewrite bind_run, alloc_member_run_ok by done.
    heap_unfold. hrun. simpl. rewrite Hh. by destruct lsf.
Qed.

(** C34: the counter of the joined list is a C [int]: when the two
    counters sum past [INT_MAX], [join_lists] overflows, after it has
    already linked the second chain, although spec.md section 4 asks that
    the join cannot fail once its preconditions hold. *)
Theorem join_lists_overflow s lf ls Lf Ls lz mz :
  lists s !! lf = Some Lf -> lists s !! ls = Some Ls -> lf <> ls ->
  last Lf = Some lz -> members s !! lz = Some mz ->
  (INT_MAX < total_members Lf + total_members Ls)%Z ->
  join_lists (Some lf) (Some ls) s = Fault SignedOverflow.
Proof.
  intros HLf HLs Hne Hl Hz Hover.
  assert (int_range (total_members Lf + total_members Ls) = false) as Hi
    by (destruct (int_range _) eqn:E; [apply int_range_spec in E; lia|done]).
  unfold join_lists. heap_unfold. hrun. rewrite ?Hl. hrun. by rewrite ?Hi.
Qed.

(** C17: [join_lists(l, l)], which neither the code nor spec.md rules
    out, joins a non-empty list with itself: the last member is linked
    back to the first one, making the chain a cycle, and the container
    is freed, so every member of the list stays allocated with nothing
    pointing to it (a leak of the whole list) and the caller's pointer
    dangles. *)
Theorem join_lists_self s l ls A :
  rep_at s l ls A -> elems A <> [] -> (Z.of_nat (length ls + length ls) <= INT_MAX)%Z ->
  exists lz mz s', join_lists (Some l) (Some l) s = Ok (tt, s') /\
    lists s' = delete l (lists s) /\ list_last ls = Some lz /\ members s !! lz = Some mz /\
    members s' !! lz = Some (set_next mz (head ls)) /\
    (forall x, x ∈ ls -> is_Some (members s' !! x)).
Proof.
  intros (L & HL & Hok) Hne Hb. pose proof Hok as [Hc Hlast Htot Hrange Hcur].
  pose proof (int_range_length_sum _ _ Hb) as Hi.
  destruct (list_last ls) as [lz|] eqn:Hlz.
  2:{ apply last_None in Hlz as ->. apply chain_nil_l in Hc as [_ HA]. by rewrite HA in Hne. }
  destruct (chain_last _ _ _ _ _ Hc Hlz) as (mz & Hmz & _).
  unfold join_lists. heap_unfold. hrun. rewrite Hlast, ?Hlz. hrun. rewrite Htot, Hi. hrun.
  eexists lz, mz, _. split; [reflexivity|]. split_and!; [|done|done| |].
  - simpl. by rewrite !delete_insert_eq.
  - simpl. rewrite lookup_insert_eq. by rewrite (chain_head _ _ _ _ Hc).
  - intros x Hx. simpl. destruct (decide (x = lz)) as [->|?]; [by rewrite lookup_insert_eq|].
    rewrite lookup_insert_ne by done. by eapply seg_live.
Qed.
End JoinProofs.

(** ** Witnesses *)

Lemma join_lists_refines_witness :
  exists s', join_lists (Some 1%positive) (Some 100%positive) (demo_mem2 [5; 3] [8; 1])%Z =
      Ok (tt, s') /\
    rep_at s' 1 ([2; 3]%positive ++ [101; 102]%positive) (a_join (AList [5; 3] None) (AList [8; 1] None))%Z /\
    lists s' !! 100%positive = None /\
    (forall lq, lq <> 1%positive -> lq <> 100%positive ->
       lists s' !! lq = lists (demo_mem2 [5; 3] [8; 1])%Z !! lq) /\
    footprint (demo_mem2 [5; 3] [8; 1])%Z s' [2; 3]%positive /\
    oracle s' = oracle (demo_mem2 [5; 3] [8; 1])%Z /\
    destroyed s' = destroyed (demo_mem2 [5; 3] [8; 1])%Z.
Proof.
  apply join_lists_refines; [decide_rep|decide_rep|done|set_solver|right; done|].
  vm_compute. discriminate.
Defined.

Lemma join_lists_empty_second_witness :
  exists s' L', join_lists (Some 1%positive) (Some 100%positive) (demo_mem2 [5; 3] [])%Z =
      Ok (tt, s') /\
    lists s' !! 1%positive = Some L' /\ first L' <> None /\ last L' = None /\
    (forall A', ~ rep s' 1 A') /\
    (head (oracle s') <> Some false ->
     append_to_list (Some 1%positive) (Some 7%Z) s' = Fault NullDeref).
Proof.
  apply (join_lists_empty_second _ 1 100 [2; 3]%positive (AList [5; 3]%Z None) (AList [] None));
    [decide_rep|decide_rep|done|done].
Defined.

Lemma join_lists_overflow_witness :
  join_lists (Some 1%positive) (Some 100%positive) full_pair_mem = Fault SignedOverflow.
Proof.
  apply (join_lists_overflow _ 1 100 (mkListS (Some 2%positive) (Some 2%positive) None INT_MAX)
           (mkListS (Some 101%positive) (Some 101%positive) None 1) 2 (mkMember None 9%Z));
    reflexivity || done.
Defined.

Lemma join_lists_self_witness :
  exists lz mz s', join_lists (Some 1%positive) (Some 1%positive) (demo_mem [5; 3]%Z) = Ok (tt, s') /\
    lists s' = delete 1%positive (lists (demo_mem [5; 3]%Z)) /\
    list_last (demo_locs [5; 3]%Z) = Some lz /\ members (demo_mem [5; 3]%Z) !! lz = Some mz /\
    members s' !! lz = Some (set_next mz (head (demo_locs [5; 3]%Z))) /\
    (forall x, x ∈ demo_locs [5; 3]%Z -> is_Some (members s' !! x)).
Proof.
  apply (join_lists_self _ _ _ (AList [5; 3]%Z None)); [decide_rep|done|vm_compute; discriminate].
Defined.
