(* ===== verification/Delete.v ===== *)
(** [delete_list] (liblist.c 102-122): every member is released in
    order, after the caller's destructor (when one is given) ran on its
    item, and then the container is released. *)

From S2P Require Import Prelude Spec Heap Chain Fixtures.

Section Delete.
Context {Item : Type}.
Local Abbreviation ST := (M (Mem Item)).

(** The [while (next != NULL)] loop of liblist.c 112-119. *)
Fixpoint delete_members (fuel : nat) (delete_item : option (Item -> unit)) (nxt : ptr) : ST unit :=
  match fuel with
  | 0 => out_of_fuel
  | S f =>
      match nxt with
      | None => ret tt
      | Some _ =>
          let aux := nxt in
          let* m := load_member aux in
          let* _ := match delete_item with
                    | Some _ =>
                        let* m := load_member aux in
                        call_delete (item m)
                    | None => ret tt
                    end in
          let* _ := free_member aux in
          delete_members f delete_item (next m)
      end
  end.

(** [void delete_list(List *list, void ( *delete_item)(void *item))]
    (liblist.c 102-122); the loop visits each live member at most once. *)
Definition delete_list (list : ptr) (delete_item : option (Item -> unit)) : ST unit :=
  match list with
  | None => ret tt
  | Some _ =>
      let* L := load_list list in
      let* s := get in
      let* _ := delete_members (S (size (members s))) delete_item (first L) in
      free_list list
  end.
End Delete.

Section DeleteProofs.
Context {Item : Type}.
Implicit Types (s : Mem Item) (A : alist Item).

(** The loop frees exactly the members of the chain and hands their
    items to the destructor, in order. *)
Lemma delete_members_run d ls : forall fuel s p xs,
  chain (members s) p ls xs -> length ls < fuel ->
  exists s', delete_members fuel d p s = Ok (tt, s') /\
    lists s' = lists s /\ oracle s' = oracle s /\
    (forall l, members s' !! l = if decide (l ∈ ls) then None else members s !! l) /\
    destroyed s' = destroyed s ++ destroyed_items d xs.
Proof.
  induction ls as [|l ls IH]; intros fuel s p xs Hc Hf;
    (destruct fuel as [|f]; [simpl in Hf; lia|]).
  - apply chain_nil_l in Hc as [-> ->]. exists s. split_and!; try done.
    destruct d; simpl; by rewrite app_nil_r.
  - inversion Hc as [|? m ? ? xs' Hm Hc']; subst.
    pose proof (chain_NoDup _ _ _ _ Hc) as Hnd. apply NoDup_cons in Hnd as [Hl _].
    set (s1 := with_members (mkMem (members s) (lists s) (oracle s)
                               (match d with Some _ => destroyed s ++ [item m]
                                        | None => destroyed s end))
                            (delete l (members s))).
    destruct (IH f s1 (next m) xs') as (s' & Hrun & Hls & Hor & Hmem & Hd);
      [|simpl in Hf; lia|].
    { subst s1. eapply seg_frame; [exact Hc'|]. intros l' Hl'. simpl.
      rewrite lookup_delete_ne; [done|set_solver]. }
    exists s'. split_and!.
    + cbn [delete_members]. heap_unfold. hrun.
      destruct d; hrun; exact Hrun.
    + done.
    + done.
    + intros l'. rewrite Hmem. subst s1. simpl.
      destruct (decide (l' = l)) as [->|Hne].
      * rewrite lookup_delete_eq. repeat case_decide; done || set_solver.
      * rewrite lookup_delete_ne by done. repeat case_decide; done || set_solver.
    + rewrite Hd. subst s1. simpl. destruct d; simpl; [by rewrite <- app_assoc|done].
Qed.

(** The run of [delete_list] on a well-formed list and on NULL. *)
Lemma delete_list_run s lp ls A (d : option (Item -> unit)) :
  delete_list None d s = Ok (tt, s) /\
  (rep_at s lp ls A ->
   exists s', delete_list (Some lp) d s = Ok (tt, s') /\
     lists s' = delete lp (lists s) /\ oracle s' = oracle s /\
     (forall l, members s' !! l = if decide (l ∈ ls) then None else members s !! l) /\
     destroyed s' = destroyed s ++ destroyed_items d (elems A)).
Proof.
  split; [done|]. intros (L & HL & Hok). pose proof (ok_chain _ _ _ _ Hok) as Hc.
  pose proof (chain_length_le _ _ _ _ Hc) as Hsz.
  destruct (delete_members_run d ls (S (size (members s))) s (first L) (elems A))
    as (s' & Hrun & Hls & Hor & Hmem & Hd); [done|lia|].
  unfold delete_list. heap_unfold. hrun. rewrite Hrun. rewrite Hls, HL.
  eexists. split; [reflexivity|]. simpl. split_and!; done.
Qed.

(** C12: [delete_list] on a well-formed list frees every member of the
    list and the container, touching no other member or list, and runs
    the destructor, when one is given, exactly once on each item, in list
    order; with a NULL list it does nothing. *)
Theorem delete_list_spec s lp ls A (d : option (Item -> unit)) :
  delete_list None d s = Ok (tt, s) /\
  (rep_at s lp ls A ->
   exists s', delete_list (Some lp) d s = Ok (tt, s') /\
     lists s' = delete lp (lists s) /\ oracle s' = oracle s /\
     (forall l, members s' !! l = if decide (l ∈ ls) then None else members s !! l) /\
     destroyed s' = destroyed s ++ destroyed_items d (elems A)).
Proof. by apply delete_list_run. Qed.
End DeleteProofs.

(** ** Witness *)

Lemma delete_list_spec_witness :
  delete_list None (Some (fun _ => tt)) (demo_mem [5; 3]%Z) = Ok (tt, demo_mem [5; 3]%Z) /\
  exists s', delete_list (Some 1%positive) (Some (fun _ => tt)) (demo_mem [5; 3]%Z) = Ok (tt, s') /\
    lists s' = delete 1%positive (lists (demo_mem [5; 3]%Z)) /\
    oracle s' = oracle (demo_mem [5; 3]%Z) /\
    (forall l, members s' !! l = if decide (l ∈ demo_locs [5; 3]%Z) then None
                                 else members (demo_mem [5; 3]%Z) !! l) /\
    destroyed s' = destroyed (demo_mem [5; 3]%Z) ++
                     destroyed_items (Some (fun _ => tt)) (elems (AList [5; 3]%Z None)).
Proof.
  destruct (delete_list_spec (demo_mem [5; 3]%Z) 1 (demo_locs [5; 3]%Z) (AList [5; 3]%Z None)
              (Some (fun _ => tt))) as [H1 H2].
  split; [exact H1|]. apply H2. decide_rep.
Defined.
