(* ===== verification/Search.v ===== *)
(** [search_in_list] (liblist.c 174-199): a new list holding the
    caller's copies of the items that meet a criterion, in order, or
    NULL when none does.  The file proves the refinement of a selection
    function on the items, the collapse of an empty result to NULL (the
    new container is freed), and the early returns; and, for any answers
    of the allocator, that the call terminates with NULL or with a list
    of a subsequence of the selected items, a failed append dropping its
    copy. *)

From S2P Require Import Prelude Spec Heap Chain Fixtures Append.

Section Search.
Context {Item P : Type}.
Local Abbreviation ST := (M (Mem Item)).

(** The [while (next)] loop of liblist.c 187-192.  The callbacks
    [criterion] and [duplicate_item] are the caller's; a duplicate that
    fails is NULL, which [append_to_list] rejects with 1. *)
Fixpoint search_loop (fuel : nat) (criterion : Item -> P -> Z) (search_params : P)
    (duplicate_item : Item -> option Item) (new nxt : ptr) : ST unit :=
  match fuel with
  | 0 => out_of_fuel
  | S f =>
      match nxt with
      | None => ret tt
      | Some _ =>
          let* m := load_member nxt in
          let* _ := if Z.eqb (criterion (item m) search_params) 0 then ret tt
                    else
                      let* m := load_member nxt in
                      let* _ := append_to_list new (duplicate_item (item m)) in
                      ret tt in
          let* m := load_member nxt in
          search_loop f criterion search_params duplicate_item new (next m)
      end
  end.

(** [List *search_in_list(List *list, int ( *criterion)(void *item,
    void *search_params), void *search_params, void *( *duplicate_item)(void
    *item))] (liblist.c 174-199); the loop visits each live member at
    most once. *)
Definition search_in_list (list : ptr) (criterion : option (Item -> P -> Z))
    (search_params : P) (duplicate_item : option (Item -> option Item)) : ST ptr :=
  match list, criterion with
  | Some _, Some crit =>
      let* L := load_list list in
      match first L, duplicate_item with
      | Some _, Some dup =>
          let* new := create_list in
          match new with
          | None => ret None
          | Some _ =>
              let* L := load_list list in
              let* s := get in
              let* _ := search_loop (S (size (members s))) crit search_params dup new (first L) in
              let* n := list_size new in
              if Z.eqb n 0 then
                let* _ := free_list new in
                ret None
              else ret new
          end
      | _, _ => ret None
      end
  | _, _ => ret None
  end.
End Search.

Section SearchProofs.
Context {Item P : Type} (crit : Item -> P -> Z) (prm : P) (dup : Item -> option Item).
Implicit Types (s : Mem Item) (A B : alist Item).

(** The items [search_in_list] copies: the duplicates of the items
    that meet the criterion, skipping the duplicates that fail. *)
Fixpoint selected (xs : list Item) : list Item :=
  match xs with
  | [] => []
  | x :: r =>
      if Z.eqb (crit x prm) 0 then selected r
      else match dup x with Some y => y :: selected r | None => selected r end
  end.

(** What the loop promises, for any answers of the allocator: it
    appends to the new list a subsequence [ys] of the selected items of
    the chain it walks, on fresh nodes, and changes nothing else; with
    nothing appended it changes no member and no list; and when no
    allocation fails, [ys] is the whole selection. *)
Definition search_post (xs : list Item) (new : positive) lsn B s s' : Prop :=
  exists lsn' ys, rep_at s' new (lsn ++ lsn') (AList (elems B ++ ys) (cursor B)) /\
    untouched s s' new lsn /\ footprint s s' (lsn ++ lsn') /\ destroyed s' = destroyed s /\
    (forall l, l ∈ lsn' -> members s !! l = None) /\ (ys `sublist_of` selected xs) /\
    (ys = [] -> members s' = members s /\ lists s' = lists s) /\
    (false ∉ oracle s -> ys = selected xs /\ (false ∉ oracle s') /\ (selected xs = [] -> s' = s)).

Lemma search_post_nil new lsn B s : rep_at s new lsn B -> search_post [] new lsn B s s.
Proof.
  intros Hr. exists [], []. rewrite !app_nil_r. destruct B. split_and!; try done; set_solver.
Qed.

(** An item that is not copied: rejected, or its duplicate failed. *)
Lemma search_post_skip x xs new lsn B s s' :
  selected (x :: xs) = selected xs -> search_post xs new lsn B s s' -> search_post (x :: xs) new lsn B s s'.
Proof.
  intros Hsel (lsn' & ys & Hr & Hu & Hfp & Hd & Hfr & Hsub & Hnil & Hor).
  exists lsn', ys. rewrite Hsel. split_and!; done.
Qed.

(** A copy whose member could not be allocated is dropped. *)
Lemma search_post_fail x xs y new lsn B s s' :
  selected (x :: xs) = y :: selected xs -> head (oracle s) = Some false ->
  search_post xs new lsn B (pop_oracle s) s' -> search_post (x :: xs) new lsn B s s'.
Proof.
  intros Hsel Hf (lsn' & ys & Hr & Hu & Hfp & Hd & Hfr & Hsub & Hnil & Hor).
  exists lsn', ys. rewrite Hsel. split_and!; try done.
  - by apply sublist_cons.
  - intros Hor'. by apply no_fail_head in Hor'.
Qed.

(** A copy appended on the fresh node [l']. *)
Lemma search_post_append x xs y new lsn B l' s s1 s' :
  selected (x :: xs) = y :: selected xs ->
  rep_at s1 new (lsn ++ [l']) (a_append y B) -> members s !! l' = None ->
  untouched s s1 new lsn -> oracle s1 = tail (oracle s) -> destroyed s1 = destroyed s ->
  footprint s s1 (lsn ++ [l']) ->
  search_post xs new (lsn ++ [l']) (a_append y B) s1 s' -> search_post (x :: xs) new lsn B s s'.
Proof.
  intros Hsel Hr1 Hl' Hu Hor1 Hd1 Hfp1 (lsn'' & ys & Hr & Hu' & Hfp & Hd & Hfr & Hsub & _ & Hor).
  exists (l' :: lsn''), (y :: ys). rewrite Hsel. split_and!; try congruence.
  - replace (lsn ++ l' :: lsn'') with ((lsn ++ [l']) ++ lsn'') by by rewrite <- app_assoc.
    replace (elems B ++ y :: ys) with ((elems B ++ [y]) ++ ys) by by rewrite <- app_assoc.
    exact Hr.
  - apply (untouched_trans _ _ _ _ _ _ Hu Hu').
    intros l1 [?|H1%list_elem_of_singleton]%elem_of_app; [auto|subst; auto].
  - eapply footprint_mono; [exact (footprint_trans _ _ _ _ _ Hfp1 Hfp)|set_solver].
  - intros l1 [->|Hin]%elem_of_cons; [done|].
    destruct (members s !! l1) eqn:E; [exfalso|done].
    destruct (untouched_live s s1 new lsn (lsn ++ [l']) (a_append y B) l1 Hu Hr1)
      as [? E']; [set_solver|by eexists|]. specialize (Hfr l1 Hin). congruence.
  - by apply sublist_skip.
  - intros Hor0. destruct Hor as (-> & ? & _); [rewrite Hor1; by apply no_fail_tail|]. done.
Qed.

(** The loop terminates on a well-formed chain, whatever the allocator
    answers, and keeps its promise. *)
Lemma search_loop_gen : forall lsrc fuel s p xs new lsn B,
  chain (members s) p lsrc xs -> length lsrc < fuel ->
  rep_at s new lsn B -> lsrc ## lsn ->
  (Z.of_nat (length lsn + length xs) <= INT_MAX)%Z ->
  exists s', search_loop fuel crit prm dup (Some new) p s = Ok (tt, s') /\ search_post xs new lsn B s s'.
Proof.
  induction lsrc as [|l lsrc IH]; intros fuel s p xs new lsn B Hc Hf Hr Hdisj Hlen;
    (destruct fuel as [|f]; [simpl in Hf; lia|]).
  - apply chain_nil_l in Hc as [-> ->]. exists s. split; [done|by apply search_post_nil].
  - inversion Hc as [|? m ? ? xs' Hm Hc']; subst.
    assert (l ∉ lsn) as Hl by (intros Hin; by apply (Hdisj l); [left|]).
    assert (lsrc ## lsn) as Hdisj' by (intros l1 H1 H2; by apply (Hdisj l1); [right|]).
    simpl in Hf, Hlen.
    cbn [search_loop]. heap_unfold. hrun.
    destruct (Z.eqb (crit (item m) prm) 0) eqn:Hc0; [|destruct (dup (item m)) as [y|] eqn:Hy].
    + hrun. destruct (IH f s (next m) xs' new lsn B) as (s' & Hrun & Hpost); [done|lia|done|done|lia|].
      exists s'. split; [done|]. apply search_post_skip; [|done]. simpl. by rewrite Hc0.
    + assert (selected (item m :: xs') = y :: selected xs') as Hsel by (simpl; by rewrite Hc0, Hy).
      rewrite Hm. cbv beta iota. rewrite Hy.
      destruct (decide (head (oracle s) = Some false)) as [Hfail|Hok].
      * rewrite append_to_list_run_fail by done. cbv beta iota. cbn [pop_oracle members]. rewrite Hm. cbv beta iota.
        destruct (IH f (pop_oracle s) (next m) xs' new lsn B) as (s' & Hrun & Hpost);
          [done|lia|by apply rep_at_pop_oracle|done|lia|].
        exists s'. split; [done|]. by eapply search_post_fail.
      * destruct (append_to_list_run s new lsn B y Hr) as (l' & s1 & Happ & Hr1 & Hfr & Hu & Hor1 & Hd1 & Hfp1);
          [done|lia|].
        assert (members s1 !! l = Some m) as Hm1 by (apply Hu; done).
        rewrite Happ. cbv beta iota. rewrite Hm1. cbv beta iota.
        destruct (IH f s1 (next m) xs' new (lsn ++ [l']) (a_append y B)) as (s' & Hrun & Hpost).
        { eapply seg_untouched; [exact Hu|exact Hdisj'|exact Hc']. }
        { lia. }
        { exact Hr1. }
        { intros l1 H1 H2. apply elem_of_app in H2 as [H2|H2%list_elem_of_singleton];
            [by apply (Hdisj' l1)|subst l1].
          destruct (seg_live _ _ _ _ _ _ Hc' H1); congruence. }
        { rewrite length_app. simpl. lia. }
        exists s'. split; [done|]. by eapply search_post_append.
    + unfold append_to_list. hrun. destruct (IH f s (next m) xs' new lsn B) as (s' & Hrun & Hpost);
        [done|lia|done|done|lia|].
      exists s'. split; [done|]. apply search_post_skip; [|done]. simpl. by rewrite Hc0, Hy.
Qed.

(** When no allocation fails, the loop appends the whole selection. *)
Lemma search_loop_run lsrc fuel s p xs new lsn B :
  chain (members s) p lsrc xs -> length lsrc < fuel ->
  rep_at s new lsn B -> lsrc ## lsn -> false ∉ oracle s ->
  (Z.of_nat (length lsn + length xs) <= INT_MAX)%Z ->
  exists lsn' s', search_loop fuel crit prm dup (Some new) p s = Ok (tt, s') /\
    rep_at s' new (lsn ++ lsn') (AList (elems B ++ selected xs) (cursor B)) /\
    untouched s s' new lsn /\ footprint s s' (lsn ++ lsn') /\ (false ∉ oracle s') /\ destroyed s' = destroyed s /\
    (forall l, l ∈ lsn' -> members s !! l = None) /\
    (selected xs = [] -> s' = s).
Proof.
  intros Hc Hf Hr Hdisj Hor Hlen.
  destruct (search_loop_gen lsrc fuel s p xs new lsn B Hc Hf Hr Hdisj Hlen)
    as (s' & Hrun & lsn' & ys & Hr' & Hu & Hfp & Hd & Hfr & _ & _ & Hall).
  destruct (Hall Hor) as (-> & Hor' & Hnil). by exists lsn', s'.
Qed.

(** The state after [create_list] succeeded in [search_in_list]. *)
Definition search_start s : Mem Item :=
  with_lists (pop_oracle s) (<[fresh (used s) := empty_ListS]> (lists s)).

(** [search_in_list] on a non-empty list once [create_list] succeeded:
    the loop, then the size test that frees an empty result. *)
Lemma search_in_list_unfold s lp L p0 s2 L2 :
  lists s !! lp = Some L -> first L = Some p0 -> head (oracle s) <> Some false ->
  search_loop (S (size (members (search_start s)))) crit prm dup (Some (fresh (used s))) (Some p0)
    (search_start s) = Ok (tt, s2) ->
  lists s2 !! fresh (used s) = Some L2 ->
  search_in_list (Some lp) (Some crit) prm (Some dup) s =
    if Z.eqb (total_members L2) 0 then Ok (None, with_lists s2 (delete (fresh (used s)) (lists s2)))
    else Ok (Some (fresh (used s)), s2).
Proof.
  intros HL Hf Hor Hrun HL2. pose proof (fresh_list_free s) as Hnl.
  assert (fresh (used s) <> lp) by (intros Heq; rewrite Heq in Hnl; congruence).
  assert (lists (search_start s) !! lp = Some L) as HL1 by (simpl; by rewrite lookup_insert_ne).
  unfold search_in_list, list_size. heap_unfold. rewrite HL. cbv beta iota. rewrite Hf.
  rewrite create_list_run_ok by done. fold (search_start s). cbv beta iota.
  rewrite HL1. cbv beta iota. rewrite Hf, Hrun. cbv beta iota. rewrite HL2. cbv beta iota.
  destruct (Z.eqb (total_members L2) 0); [|done]. by rewrite HL2.
Qed.

(** The run of [search_in_list] on a non-empty list when no allocation
    fails, shared with [duplicate_list]. *)
Lemma search_in_list_run s lp ls A :
  rep_at s lp ls A -> elems A <> [] -> false ∉ oracle s ->
  (selected (elems A) = [] ->
   search_in_list (Some lp) (Some crit) prm (Some dup) s = Ok (None, pop_oracle s)) /\
  (selected (elems A) <> [] ->
   exists nl lsn s', search_in_list (Some lp) (Some crit) prm (Some dup) s = Ok (Some nl, s') /\
     lists s !! nl = None /\ rep_at s' nl lsn (AList (selected (elems A)) None) /\
     rep_at s' lp ls A /\ (forall lq, lq <> nl -> lists s' !! lq = lists s !! lq) /\
     footprint s s' lsn /\
     (forall l, l ∈ lsn -> members s !! l = None) /\ destroyed s' = destroyed s /\
     (false ∉ oracle s')).
Proof.
  intros Hrep Hne Hor. pose proof Hrep as (L & HL & Hok). pose proof Hok as [Hc _ _ Hr _].
  pose proof (list_ok_length _ _ _ _ Hok) as Hlen.
  pose proof (chain_length_le _ _ _ _ Hc) as Hsz.
  destruct (first L) as [p0|] eqn:Hf; [|by apply chain_nil_inv in Hc as [_ ?]].
  pose proof (fresh_list_free s) as Hnl. set (nl := fresh (used s)) in *.
  assert (nl <> lp) by (intros ->; congruence).
  set (s1 := search_start s).
  destruct (search_loop_run ls (S (size (members s1))) s1 (Some p0) (elems A) nl [] a_empty)
    as (lsn & s2 & Hrun & (L2 & HL2 & Hok2) & Hu2 & Hfp2 & Hor2 & Hd2 & Hfr2 & Hnil);
    [exact Hc|simpl; lia|apply rep_at_fresh_empty|set_solver|by apply no_fail_tail|simpl; lia|].
  unfold a_empty in Hok2. cbn [app elems cursor] in Hok2. pose proof (ok_total _ _ _ _ Hok2) as Ht2.
  rewrite (list_ok_length _ _ _ _ Hok2) in Ht2.
  rewrite (search_in_list_unfold s lp L p0 s2 L2) by (done || by apply no_fail_head).
  rewrite Ht2. split.
  - intros Hsel. rewrite Hsel. simpl. rewrite (Hnil Hsel). subst s1.
    simpl. by rewrite delete_insert_id.
  - intros Hsel. destruct (selected (elems A)) as [|y ys]; [done|]. simpl.
    assert (rep_at s1 lp ls A) as Hrep1
      by (eapply rep_at_frame; [exact Hrep|simpl; by rewrite lookup_insert_ne|done]).
    exists nl, lsn, s2. split_and!; try done.
    + by exists L2.
    + eapply rep_at_untouched; [exact Hu2|done|set_solver|exact Hrep1].
    + intros lq Hq. destruct Hu2 as [Hl2 _]. rewrite Hl2 by done. simpl. by rewrite lookup_insert_ne.
Qed.

(** C9: [search_in_list] on a non-empty well-formed list, when no
    allocation fails, returns a fresh list holding exactly the selected
    items, in order, with its cursor reset, and leaves the searched list,
    every other list and every existing member as they were; when no item
    is selected it frees the new container and returns NULL, the heap
    unchanged but for the allocation consumed. *)
Theorem search_in_list_refines s lp ls A :
  rep_at s lp ls A -> elems A <> [] -> false ∉ oracle s ->
  (selected (elems A) = [] ->
   search_in_list (Some lp) (Some crit) prm (Some dup) s = Ok (None, pop_oracle s)) /\
  (selected (elems A) <> [] ->
   exists nl lsn s', search_in_list (Some lp) (Some crit) prm (Some dup) s = Ok (Some nl, s') /\
     lists s !! nl = None /\ rep_at s' nl lsn (AList (selected (elems A)) None) /\
     rep_at s' lp ls A /\ (forall lq, lq <> nl -> lists s' !! lq = lists s !! lq) /\
     footprint s s' lsn /\
     (forall l, l ∈ lsn -> members s !! l = None) /\ destroyed s' = destroyed s /\
     (false ∉ oracle s')).
Proof. apply search_in_list_run. Qed.

(** The run of [search_in_list] on a well-formed list, whatever the
    allocator answers. *)
Lemma search_in_list_gen_run s lp ls A :
  rep_at s lp ls A ->
  exists r s', search_in_list (Some lp) (Some crit) prm (Some dup) s = Ok (r, s') /\
    destroyed s' = destroyed s /\
    ((r = None /\ members s' = members s /\ lists s' = lists s) \/
     (exists nl lsn ys, r = Some nl /\ lists s !! nl = None /\ rep_at s' nl lsn (AList ys None) /\
        ys <> [] /\ ys `sublist_of` selected (elems A) /\
        (forall lq, lq <> nl -> lists s' !! lq = lists s !! lq) /\
        footprint s s' lsn /\
        (forall l, l ∈ lsn -> members s !! l = None))).
Proof.
  intros Hrep. pose proof Hrep as (L & HL & Hok). pose proof Hok as [Hc _ _ Hr _].
  pose proof (list_ok_length _ _ _ _ Hok) as Hlen. pose proof (chain_length_le _ _ _ _ Hc) as Hsz.
  destruct (first L) as [p0|] eqn:Hf.
  2:{ exists None, s. unfold search_in_list. heap_unfold. rewrite HL, Hf. split_and!; auto. }
  destruct (decide (head (oracle s) = Some false)) as [Hfail|Hok'].
  { exists None, (pop_oracle s). unfold search_in_list. heap_unfold. rewrite HL, Hf.
    cbv beta iota. rewrite create_list_run_fail by done. split_and!; auto. }
  pose proof (fresh_list_free s) as Hnl. set (nl := fresh (used s)) in *.
  assert (nl <> lp) by (intros ->; congruence).
  destruct (search_loop_gen ls (S (size (members (search_start s)))) (search_start s) (Some p0)
              (elems A) nl [] a_empty) as (s2 & Hrun & lsn & ys & (L2 & HL2 & Hok2) & Hu2 & Hfp2 & Hd2 & Hfr2 & Hsub & Hnil & _);
    [exact Hc|simpl; lia|apply rep_at_fresh_empty|set_solver|simpl; lia|].
  cbn [app elems cursor a_empty] in Hok2. pose proof (ok_total _ _ _ _ Hok2) as Ht2.
  rewrite (list_ok_length _ _ _ _ Hok2) in Ht2.
  rewrite (search_in_list_unfold s lp L p0 s2 L2) by done. rewrite Ht2.
  destruct ys as [|y ys'].
  - destruct (Hnil eq_refl) as [Hm2 Hl2]. eexists _, _. split; [reflexivity|].
    split; [done|]. left. cbn. rewrite Hm2, Hl2. cbn.
    split_and!; [done|done|by rewrite delete_insert_id].
  - eexists _, _. split; [reflexivity|]. split; [done|]. right.
    exists nl, lsn, (y :: ys'). split_and!; try done.
    + by exists L2.
    + intros lq Hq. destruct Hu2 as [Hl2 _]. rewrite Hl2 by done. simpl. by rewrite lookup_insert_ne.
Qed.

(** C11: [search_in_list] on a well-formed list terminates whatever
    [calloc] answers, and returns either NULL, with no member and no list
    changed, or a fresh non-empty list whose items are a subsequence of
    the selected ones, every existing member and every other list kept.
    The subsequence can be strict: a copy whose node cannot be allocated
    is dropped (liblist.c 190 ignores the result of [append_to_list]). *)
Theorem search_in_list_any_alloc s lp ls A :
  rep_at s lp ls A ->
  exists r s', search_in_list (Some lp) (Some crit) prm (Some dup) s = Ok (r, s') /\
    destroyed s' = destroyed s /\
    ((r = None /\ members s' = members s /\ lists s' = lists s) \/
     (exists nl lsn ys, r = Some nl /\ lists s !! nl = None /\ rep_at s' nl lsn (AList ys None) /\
        ys <> [] /\ ys `sublist_of` selected (elems A) /\
        (forall lq, lq <> nl -> lists s' !! lq = lists s !! lq) /\
        footprint s s' lsn /\
        (forall l, l ∈ lsn -> members s !! l = None))).
Proof. apply search_in_list_gen_run. Qed.

(** C29: the early returns of [search_in_list]: NULL, with the heap
    unchanged, for a NULL list, criterion or duplicator or an empty list,
    and NULL after the failed allocation when [calloc] fails. *)
Theorem search_in_list_errors s (p : ptr) (c : option (Item -> P -> Z)) (d : option (Item -> option Item))
    lp ls A :
  search_in_list None c prm d s = Ok (None, s) /\
  search_in_list p None prm d s = Ok (None, s) /\
  (rep_at s lp ls A -> elems A = [] -> search_in_list (Some lp) c prm d s = Ok (None, s)) /\
  (rep_at s lp ls A -> search_in_list (Some lp) (Some crit) prm None s = Ok (None, s)) /\
  (rep_at s lp ls A -> elems A <> [] -> head (oracle s) = Some false ->
   search_in_list (Some lp) (Some crit) prm (Some dup) s = Ok (None, pop_oracle s)).
Proof.
  split_and!; [by destruct c|by destruct p|..]; intros (L & HL & Hok);
    pose proof (ok_chain _ _ _ _ Hok) as Hc; unfold search_in_list; heap_unfold; hrun.
  - intros HA. destruct c; [|done]. hrun. rewrite HA in Hc.
    apply chain_nil_r in Hc as [-> _]. done.
  - by destruct (first L).
  - intros Hne Hfail. destruct (first L) as [p0|] eqn:Hf; [|by apply chain_nil_inv in Hc as [_ ?]].
    by rewrite create_list_run_fail.
Qed.
End SearchProofs.

(** ** Witnesses *)

(** The search of test_list.c: the items [<= 50], copied. *)
Lemma search_in_list_refines_witness :
  exists nl lsn s',
    search_in_list (Some 1%positive) (Some asc_cmp) 50%Z (Some Some) (demo_mem [5; 60; 3]%Z) =
      Ok (Some nl, s') /\
    rep_at s' nl lsn (AList [5; 3]%Z None) /\
    rep_at s' 1 (demo_locs [5; 60; 3]%Z) (AList [5; 60; 3]%Z None).
Proof.
  destruct (search_in_list_refines asc_cmp 50%Z Some (demo_mem [5; 60; 3]%Z) 1
              (demo_locs [5; 60; 3]%Z) (AList [5; 60; 3]%Z None)) as [_ H];
    [decide_rep|done|apply not_elem_of_nil|].
  destruct H as (nl & lsn & s' & H1 & _ & H3 & H4 & _); [discriminate|].
  exists nl, lsn, s'. split_and!; [exact H1|exact H3|exact H4].
Defined.

Lemma search_in_list_errors_witness :
  search_in_list None (Some asc_cmp) 50%Z (Some Some) (demo_mem [5]%Z) = Ok (None, demo_mem [5]%Z) /\
  search_in_list (Some 1%positive) None 50%Z (Some Some) (demo_mem [5]%Z) = Ok (None, demo_mem [5]%Z) /\
  search_in_list (Some 1%positive) (Some asc_cmp) 50%Z (Some Some) (demo_mem []) =
    Ok (None, demo_mem []) /\
  search_in_list (Some 1%positive) (Some asc_cmp) 50%Z None (demo_mem [5]%Z) = Ok (None, demo_mem [5]%Z) /\
  search_in_list (Some 1%positive) (Some asc_cmp) 50%Z (Some Some) (with_oracle (demo_mem [5]%Z) [false]) =
    Ok (None, pop_oracle (with_oracle (demo_mem [5]%Z) [false])).
Proof.
  destruct (search_in_list_errors asc_cmp 50%Z Some (demo_mem [5]%Z) (Some 1%positive) (Some asc_cmp)
              (Some Some) 1 (demo_locs [5]%Z) (AList [5]%Z None)) as (H1 & H2 & _ & H4 & _).
  destruct (search_in_list_errors asc_cmp 50%Z Some (demo_mem []) (Some 1%positive) (Some asc_cmp)
              (Some Some) 1 [] (AList [] None)) as (_ & _ & H3 & _ & _).
  destruct (search_in_list_errors asc_cmp 50%Z Some (with_oracle (demo_mem [5]%Z) [false])
              (Some 1%positive) (Some asc_cmp) (Some Some) 1 (demo_locs [5]%Z) (AList [5]%Z None))
    as (_ & _ & _ & _ & H5).
  split_and!; [exact H1|exact H2|apply H3; [decide_rep|done]|apply H4; decide_rep|].
  apply H5; [decide_rep|done|done].
Defined.

(** The second allocation of the search fails: the copy of 5 is lost. *)
Lemma search_in_list_any_alloc_witness :
  (exists r s', search_in_list (Some 1%positive) (Some asc_cmp) 50%Z (Some (fun x => Some x))
      (with_oracle (demo_mem [5; 3]%Z) [true; false]) = Ok (r, s') /\
    destroyed s' = destroyed (with_oracle (demo_mem [5; 3]%Z) [true; false]) /\
    ((r = None /\ members s' = members (with_oracle (demo_mem [5; 3]%Z) [true; false]) /\ lists s' = lists (with_oracle (demo_mem [5; 3]%Z) [true; false])) \/
     (exists nl lsn ys, r = Some nl /\ lists (with_oracle (demo_mem [5; 3]%Z) [true; false]) !! nl = None /\
        rep_at s' nl lsn (AList ys None) /\ ys <> [] /\
        ys `sublist_of` selected asc_cmp 50%Z (fun x => Some x) (elems (AList [5; 3]%Z None)) /\
        (forall lq, lq <> nl -> lists s' !! lq = lists (with_oracle (demo_mem [5; 3]%Z) [true; false]) !! lq) /\
        footprint (with_oracle (demo_mem [5; 3]%Z) [true; false]) s' lsn /\
        (forall l, l ∈ lsn -> members (with_oracle (demo_mem [5; 3]%Z) [true; false]) !! l = None)))) /\
  exists s', search_in_list (Some 1%positive) (Some asc_cmp) 50%Z (Some (fun x => Some x))
      (with_oracle (demo_mem [5; 3]%Z) [true; false]) = Ok (Some 4%positive, s') /\
    rep_at s' 4 [5%positive] (AList [3]%Z None).
Proof.
  assert (Hrep : rep_at (with_oracle (demo_mem [5; 3]%Z) [true; false]) 1 (demo_locs [5; 3]%Z) (AList [5; 3]%Z None)) by decide_rep.
  split; [exact (search_in_list_any_alloc asc_cmp 50%Z (fun x => Some x) _ _ _ _ Hrep)|].
  destruct (search_in_list (Some 1%positive) (Some asc_cmp) 50%Z (Some (fun x => Some x)) (with_oracle (demo_mem [5; 3]%Z) [true; false]))
    as [[r s']| |] eqn:Hrun; [|vm_compute in Hrun; discriminate..].
  exists s'. assert (r = Some 4%positive /\ rep_at s' 4 [5%positive] (AList [3]%Z None)) as [-> ?].
  { vm_compute in Hrun. injection Hrun as <- <-. split; [done|decide_rep]. }
  done.
Defined.
