(* ===== verification/Duplicate.v ===== *)
(** [duplicate_list] (liblist.c 265-291): a new list with the caller's
    copies of every item, or the same items when no duplicator is given.
    Its loop is the loop of [search_in_list] with a criterion that
    accepts every item; the file proves that equivalence and from it the
    refinement of the copy, the collapse of an empty copy to NULL and the
    early returns. *)

From S2P Require Import Prelude Spec Heap Chain Fixtures Append Search.

Section Duplicate.
Context {Item : Type}.
Local Abbreviation ST := (M (Mem Item)).

(** The [while (next)] loop of liblist.c 277-284. *)
Fixpoint duplicate_loop (fuel : nat) (duplicate_item : option (Item -> option Item))
    (new nxt : ptr) : ST unit :=
  match fuel with
  | 0 => out_of_fuel
  | S f =>
      match nxt with
      | None => ret tt
      | Some _ =>
          let* _ := match duplicate_item with
                    | Some dup =>
                        let* m := load_member nxt in
                        append_to_list new (dup (item m))
                    | None =>
                        let* m := load_member nxt in
                        append_to_list new (Some (item m))
                    end in
          let* m := load_member nxt in
          duplicate_loop f duplicate_item new (next m)
      end
  end.

(** [List *duplicate_list(List *list, void *( *duplicate_item)(void *item))]
    (liblist.c 265-291). *)
Definition duplicate_list (list : ptr) (duplicate_item : option (Item -> option Item)) : ST ptr :=
  match list with
  | None => ret None
  | Some _ =>
      let* L := load_list list in
      match first L with
      | None => ret None
      | Some _ =>
          let* new := create_list in
          match new with
          | None => ret None
          | Some _ =>
              let* L := load_list list in
              let* s := get in
              let* _ := duplicate_loop (S (size (members s))) duplicate_item new (first L) in
              let* n := list_size new in
              if Z.eqb n 0 then
                let* _ := free_list new in
                ret None
              else ret new
          end
      end
  end.
End Duplicate.

Section DuplicateProofs.
Context {Item : Type}.
Implicit Types (s : Mem Item) (A : alist Item).

(** The duplicator the loop applies: the caller's, or the identity. *)
Definition dup_of (d : option (Item -> option Item)) : Item -> option Item :=
  match d with Some dup => dup | None => Some end.

(** A criterion that accepts every item. *)
Definition accept_all (x : Item) (u : unit) : Z := 1%Z.

(** The items of the copy: the successful duplicates, or the items
    themselves (a shallow copy). *)
Definition duplicated (d : option (Item -> option Item)) (xs : list Item) : list Item :=
  match d with Some dup => omap dup xs | None => xs end.

Lemma selected_accept_all d xs : selected accept_all tt (dup_of d) xs = duplicated d xs.
Proof.
  induction xs as [|x xs IH]; [by destruct d|]. simpl. rewrite IH.
  destruct d as [dup|]; simpl; [|done]. by destruct (dup x).
Qed.

Lemma duplicate_loop_search fuel d new : forall p s,
  duplicate_loop fuel d new p s = search_loop fuel accept_all tt (dup_of d) new p s.
Proof.
  induction fuel as [|f IH]; intros p s; [done|].
  destruct p as [l|]; [|done]. cbn [duplicate_loop search_loop].
  destruct d as [dup|]; unfold accept_all, dup_of; cbn -[append_to_list];
    (destruct (members s !! l) as [m|] eqn:Hm; [|by rewrite !bind_run; cbn; rewrite Hm]);
    repeat progress (cbv beta iota; rewrite ?bind_run; cbn [load_member ret]; rewrite ?Hm);
    (destruct (append_to_list new _ s) as [[r s1]| |]; [|done|done]);
    repeat progress (cbv beta iota; rewrite ?bind_run; cbn [load_member ret]);
    (destruct (members s1 !! l); [apply IH|done]).
Qed.

(** [duplicate_list] behaves exactly as [search_in_list] with a
    criterion that accepts every item and, as duplicator, the caller's
    one or the identity: the two functions agree on every list pointer
    and every heap, faults and divergence included. *)
Lemma duplicate_list_as_search lp d s :
  duplicate_list lp d s = search_in_list lp (Some accept_all) tt (Some (dup_of d)) s.
Proof.
  destruct lp as [p|]; [|done]. unfold duplicate_list, search_in_list. rewrite !bind_run.
  destruct (load_list (Some p) s) as [[L s1]| |]; [|done|done]. cbv beta iota.
  destruct (first L); [|done]. rewrite !bind_run.
  destruct (create_list s1) as [[[nl|] s2]| |]; [|done|done|done]. cbv beta iota. rewrite !bind_run.
  destruct (load_list (Some p) s2) as [[L2 s3]| |]; [|done|done]. cbv beta iota.
  unfold get. rewrite !bind_run. by rewrite duplicate_loop_search.
Qed.

(** The run of [duplicate_list] on a non-empty list when no allocation fails. *)
Lemma duplicate_list_run s lp ls A d :
  rep_at s lp ls A -> elems A <> [] -> false ∉ oracle s ->
  (duplicated d (elems A) = [] -> duplicate_list (Some lp) d s = Ok (None, pop_oracle s)) /\
  (duplicated d (elems A) <> [] ->
   exists nl lsn s', duplicate_list (Some lp) d s = Ok (Some nl, s') /\
     lists s !! nl = None /\ rep_at s' nl lsn (AList (duplicated d (elems A)) None) /\
     rep_at s' lp ls A /\ (forall lq, lq <> nl -> lists s' !! lq = lists s !! lq) /\
     footprint s s' lsn /\
     (forall l, l ∈ lsn -> members s !! l = None) /\ destroyed s' = destroyed s /\
     (false ∉ oracle s')).
Proof.
  intros Hrep Hne Hor. rewrite !duplicate_list_as_search, <- !selected_accept_all.
  by apply search_in_list_run.
Qed.

(** C13: [duplicate_list] on a non-empty well-formed list, when no
    allocation fails, returns a fresh list holding the successful
    duplicates of the items, in order (the items themselves without a
    duplicator), and leaves the original list, every other list and every
    existing member as they were; when every duplicate fails it returns
    NULL, the heap unchanged but for the allocation consumed. *)
Theorem duplicate_list_refines s lp ls A d :
  rep_at s lp ls A -> elems A <> [] -> false ∉ oracle s ->
  (duplicated d (elems A) = [] -> duplicate_list (Some lp) d s = Ok (None, pop_oracle s)) /\
  (duplicated d (elems A) <> [] ->
   exists nl lsn s', duplicate_list (Some lp) d s = Ok (Some nl, s') /\
     lists s !! nl = None /\ rep_at s' nl lsn (AList (duplicated d (elems A)) None) /\
     rep_at s' lp ls A /\ (forall lq, lq <> nl -> lists s' !! lq = lists s !! lq) /\
     footprint s s' lsn /\
     (forall l, l ∈ lsn -> members s !! l = None) /\ destroyed s' = destroyed s /\
     (false ∉ oracle s')).
Proof. by apply duplicate_list_run. Qed.

(** C31: the early returns of [duplicate_list]: NULL, with the heap
    unchanged, for a NULL or empty list, and NULL after the failed
    allocation when [calloc] fails. *)
Theorem duplicate_list_errors s d lp ls A :
  duplicate_list None d s = Ok (None, s) /\
  (rep_at s lp ls A -> elems A = [] -> duplicate_list (Some lp) d s = Ok (None, s)) /\
  (rep_at s lp ls A -> elems A <> [] -> head (oracle s) = Some false ->
   duplicate_list (Some lp) d s = Ok (None, pop_oracle s)).
Proof.
  split_and!; [done|..]; intros (L & HL & Hok); pose proof (ok_chain _ _ _ _ Hok) as Hc;
    unfold duplicate_list; heap_unfold; hrun.
  - intros HA. rewrite HA in Hc. by apply chain_nil_r in Hc as [-> _].
  - intros Hne Hfail. destruct (first L) as [p0|] eqn:Hf; [|by apply chain_nil_inv in Hc as [_ ?]].
    by rewrite create_list_run_fail.
Qed.
End DuplicateProofs.

(** ** Witnesses *)

(** The copies of test_list.c: every item duplicated, in order. *)
Lemma duplicate_list_refines_witness :
  exists nl lsn s',
    duplicate_list (Some 1%positive) (Some Some) (demo_mem [5; 60; 3]%Z) = Ok (Some nl, s') /\
    rep_at s' nl lsn (AList [5; 60; 3]%Z None) /\
    rep_at s' 1 (demo_locs [5; 60; 3]%Z) (AList [5; 60; 3]%Z None).
Proof.
  destruct (duplicate_list_refines (demo_mem [5; 60; 3]%Z) 1 (demo_locs [5; 60; 3]%Z)
              (AList [5; 60; 3]%Z None) (Some Some)) as [_ H];
    [decide_rep|done|apply not_elem_of_nil|].
  destruct H as (nl & lsn & s' & H1 & _ & H3 & H4 & _); [discriminate|].
  exists nl, lsn, s'. split_and!; [exact H1|exact H3|exact H4].
Defined.

Lemma duplicate_list_errors_witness :
  duplicate_list None None (demo_mem [5]%Z) = Ok (None, demo_mem [5]%Z) /\
  duplicate_list (Some 1%positive) None (demo_mem []) = Ok (None, demo_mem []) /\
  duplicate_list (Some 1%positive) None (with_oracle (demo_mem [5]%Z) [false]) =
    Ok (None, pop_oracle (with_oracle (demo_mem [5]%Z) [false])).
Proof.
  destruct (duplicate_list_errors (demo_mem []) None 1 [] (AList [] None)) as (_ & H2 & _).
  destruct (duplicate_list_errors (with_oracle (demo_mem [5]%Z) [false]) None 1
              (demo_locs [5]%Z) (AList [5]%Z None)) as (_ & _ & H3).
  split_and!; [done|apply H2; [decide_rep|done]|apply H3; [decide_rep|done|done]].
Defined.
