(* ===== verification/Remove.v ===== *)
(** [remove_from_list] (liblist.c 208-244): one forward pass that
    unlinks and frees every member whose item meets a criterion, behind
    a trailing pointer to the last surviving member.  The file proves the
    refinement of a filter on the items (the survivors in order, [last]
    and the counter maintained, the removed items handed to the
    destructor in order), the early returns, and that the pass does not
    touch the iteration cursor: a cursor on a removed member is left
    dangling, and the next [get_next_item] reads freed memory. *)

From S2P Require Import Prelude Spec Heap Chain Fixtures Iter.

Section Remove.
Context {Item P : Type}.
Local Abbreviation ST := (M (Mem Item)).

(** The [while (next)] loop of liblist.c 220-242, from the locals
    [previous], [next] and [removed_count]. *)
Fixpoint remove_loop (fuel : nat) (criterion : Item -> P -> Z) (search_params : P)
    (delete_item : option (Item -> unit)) (list previous nxt : ptr) (removed_count : Z) : ST Z :=
  match fuel with
  | 0 => out_of_fuel
  | S f =>
      match nxt with
      | None => ret removed_count
      | Some _ =>
          let* m := load_member nxt in
          let* ' (previous, removed_count) :=
            if Z.eqb (criterion (item m) search_params) 0 then ret (nxt, removed_count)
            else
              let* _ := match delete_item with
                        | Some _ =>
                            let* m := load_member nxt in
                            call_delete (item m)
                        | None => ret tt
                        end in
              let* _ := match previous with
                        | None =>
                            let* m := load_member nxt in
                            let* L := load_list list in
                            store_list list (set_first L (next m))
                        | Some _ =>
                            let* m := load_member nxt in
                            let* pm := load_member previous in
                            store_member previous (set_next pm (next m))
                        end in
              let* _ := free_member nxt in
              let* removed_count := int_add removed_count 1 in
              let* L := load_list list in
              let* t := int_add (total_members L) (-1) in
              let* _ := store_list list (set_total L t) in
              ret (previous, removed_count) in
          let* nxt := match previous with
                      | None =>
                          let* L := load_list list in
                          ret (first L)
                      | Some _ =>
                          let* pm := load_member previous in
                          ret (next pm)
                      end in
          let* _ := match nxt with
                    | None =>
                        let* L := load_list list in
                        store_list list (set_last L previous)
                    | Some _ => ret tt
                    end in
          remove_loop f criterion search_params delete_item list previous nxt removed_count
      end
  end.

(** [int remove_from_list(List *list, int ( *criterion)(void *item, void
    *search_params), void *search_params, void ( *delete_item)(void *item))]
    (liblist.c 208-244); each pass of the loop consumes one member. *)
Definition remove_from_list (list : ptr) (criterion : option (Item -> P -> Z))
    (search_params : P) (delete_item : option (Item -> unit)) : ST Z :=
  match list, criterion with
  | Some _, Some crit =>
      let* L := load_list list in
      match first L with
      | None => ret (-1)%Z
      | Some _ =>
          let* s := get in
          remove_loop (S (size (members s))) crit search_params delete_item list None (first L) 0
      end
  | _, _ => ret (-1)%Z
  end.
End Remove.

Section RemoveProofs.
Context {Item P : Type} (crit : Item -> P -> Z) (prm : P) (d : option (Item -> unit)).
Implicit Types (s : Mem Item) (A : alist Item).

(** The items that stay: those the criterion rejects. *)
Definition keep (x : Item) : bool := Z.eqb (crit x prm) 0.

Fixpoint kept (xs : list Item) : list Item :=
  match xs with [] => [] | x :: r => if keep x then x :: kept r else kept r end.

Fixpoint removed (xs : list Item) : list Item :=
  match xs with [] => [] | x :: r => if keep x then removed r else x :: removed r end.

(** The members holding them. *)
Fixpoint kept_locs (ls : list positive) (xs : list Item) : list positive :=
  match ls, xs with
  | l :: ls', x :: xs' => if keep x then l :: kept_locs ls' xs' else kept_locs ls' xs'
  | _, _ => []
  end.

Fixpoint removed_locs (ls : list positive) (xs : list Item) : list positive :=
  match ls, xs with
  | l :: ls', x :: xs' => if keep x then removed_locs ls' xs' else l :: removed_locs ls' xs'
  | _, _ => []
  end.

(** One pass of the loop on a member that stays. *)
Lemma remove_step_keep f s lp L prev l m r :
  lists s !! lp = Some L -> members s !! l = Some m -> keep (item m) = true ->
  exists s1 L1,
    remove_loop (S f) crit prm d (Some lp) prev (Some l) r s =
      remove_loop f crit prm d (Some lp) (Some l) (next m) r s1 /\
    lists s1 !! lp = Some L1 /\ first L1 = first L /\ total_members L1 = total_members L /\
    current L1 = current L /\ (next m = None -> last L1 = Some l) /\
    (forall lq, lq <> lp -> lists s1 !! lq = lists s !! lq) /\
    members s1 = members s /\ oracle s1 = oracle s /\ destroyed s1 = destroyed s.
Proof.
  intros HL Hm Hk. unfold keep in Hk. cbn [remove_loop]. heap_unfold. hrun. rewrite Hk. hrun.
  destruct (next m) eqn:Hn; hrun; eexists _, _; (split; [reflexivity|]);
    split_and!; simpl; rewrite ?lookup_insert_eq; try done;
    intros lq Hq; by rewrite ?lookup_insert_ne.
Qed.

(** One pass on a member that goes while no member stayed before it:
    [list->first] moves past it. *)
Lemma remove_step_head f s lp L l m r :
  lists s !! lp = Some L -> members s !! l = Some m -> keep (item m) = false ->
  int_range (r + 1) = true -> int_range (total_members L + -1) = true ->
  exists s1 L1,
    remove_loop (S f) crit prm d (Some lp) None (Some l) r s =
      remove_loop f crit prm d (Some lp) None (next m) (r + 1) s1 /\
    lists s1 !! lp = Some L1 /\ first L1 = next m /\
    total_members L1 = (total_members L + -1)%Z /\
    current L1 = current L /\ (next m = None -> last L1 = None) /\
    (forall lq, lq <> lp -> lists s1 !! lq = lists s !! lq) /\
    members s1 = delete l (members s) /\ oracle s1 = oracle s /\
    destroyed s1 = destroyed s ++ destroyed_items d [item m].
Proof.
  intros HL Hm Hk Hr Ht. unfold keep in Hk. cbn [remove_loop]. heap_unfold. hrun.
  rewrite Hk. destruct d; hrun; rewrite Hr; hrun; rewrite Ht; hrun;
    (destruct (next m) eqn:Hn; hrun; eexists _, _; (split; [reflexivity|]);
     split_and!; simpl; rewrite ?lookup_insert_eq, ?app_nil_r; try done;
     intros lq Hq; by rewrite ?lookup_insert_ne).
Qed.

(** One pass on a member that goes behind the surviving member [z]:
    [previous->next] moves past it. *)
Lemma remove_step_after f s lp L z mz l m r :
  lists s !! lp = Some L -> members s !! l = Some m -> keep (item m) = false ->
  members s !! z = Some mz -> z <> l ->
  int_range (r + 1) = true -> int_range (total_members L + -1) = true ->
  exists s1 L1,
    remove_loop (S f) crit prm d (Some lp) (Some z) (Some l) r s =
      remove_loop f crit prm d (Some lp) (Some z) (next m) (r + 1) s1 /\
    lists s1 !! lp = Some L1 /\ first L1 = first L /\
    total_members L1 = (total_members L + -1)%Z /\
    current L1 = current L /\ (next m = None -> last L1 = Some z) /\
    (forall lq, lq <> lp -> lists s1 !! lq = lists s !! lq) /\
    members s1 = delete l (<[z := set_next mz (next m)]> (members s)) /\
    oracle s1 = oracle s /\ destroyed s1 = destroyed s ++ destroyed_items d [item m].
Proof.
  intros HL Hm Hk Hz Hzl Hr Ht. unfold keep in Hk. cbn [remove_loop]. heap_unfold. hrun.
  rewrite Hk. destruct d; hrun; rewrite Hr; hrun; rewrite Ht; hrun;
    (destruct (next m) eqn:Hn; hrun; eexists _, _; (split; [reflexivity|]);
     split_and!; simpl; rewrite ?lookup_insert_eq, ?app_nil_r; try done;
     intros lq Hq; by rewrite ?lookup_insert_ne).
Qed.

(** One pass on a member that goes, whichever member precedes it: the
    survivors so far, [kl], now lead to its successor; it is freed and
    no other member outside [kl] changes. *)
Lemma remove_step_unlink f s lp L prev kl ks l m r :
  lists s !! lp = Some L -> seg (members s) (first L) (Some l) kl ks -> prev = list_last kl ->
  members s !! l = Some m -> keep (item m) = false -> NoDup (kl ++ [l]) ->
  int_range (r + 1) = true -> int_range (total_members L + -1) = true ->
  exists s1 L1,
    remove_loop (S f) crit prm d (Some lp) prev (Some l) r s =
      remove_loop f crit prm d (Some lp) prev (next m) (r + 1) s1 /\
    lists s1 !! lp = Some L1 /\ seg (members s1) (first L1) (next m) kl ks /\
    (next m = None -> last L1 = list_last kl) /\
    total_members L1 = (total_members L + -1)%Z /\ current L1 = current L /\
    (forall lq, lq <> lp -> lists s1 !! lq = lists s !! lq) /\
    (forall l', l' ∉ kl -> l' <> l -> members s1 !! l' = members s !! l') /\
    members s1 !! l = None /\ oracle s1 = oracle s /\
    destroyed s1 = destroyed s ++ destroyed_items d [item m].
Proof.
  intros HL Hseg -> Hm Hk Hnd Hr Ht. apply NoDup_app in Hnd as (Hnd & Hdisj & _).
  assert (l ∉ kl) as Hl by (intros Hin; apply (Hdisj l Hin); set_solver).
  destruct (list_last kl) as [z|] eqn:Hz.
  - destruct (seg_live _ _ _ _ _ z Hseg) as [mz Hmz]; [by apply last_Some_elem|].
    assert (z ∈ kl) as Hzin by (by apply last_Some_elem).
    assert (z <> l) by (intros ->; by apply Hl).
    destruct (remove_step_after f s lp L z mz l m r) as (s1 & L1 & Hrun & HL1 & Hf1 & Ht1 & Hc1 & Hl1 & Hls1 & Hm1 & Ho1 & Hd1);
      try done.
    exists s1, L1. split_and!; try done.
    + rewrite Hm1, Hf1. eapply seg_frame; [eapply seg_retarget; eauto|].
      intros l' Hin. rewrite lookup_delete_ne; [done|]. by intros ->.
    + intros l' H1 H2. rewrite Hm1, lookup_delete_ne, lookup_insert_ne; [done|set_solver..].
    + by rewrite Hm1, lookup_delete_eq.
  - apply last_None in Hz as ->.
    assert (ks = []) as -> by (apply seg_length in Hseg; by destruct ks).
    destruct (remove_step_head f s lp L l m r) as (s1 & L1 & Hrun & HL1 & Hf1 & Ht1 & Hc1 & Hl1 & Hls1 & Hm1 & Ho1 & Hd1);
      try done.
    exists s1, L1. split_and!; try done.
    + rewrite Hf1. constructor.
    + intros l' _ H2. by rewrite Hm1, lookup_delete_ne.
    + by rewrite Hm1, lookup_delete_eq.
Qed.

(** The invariant of the loop, from the survivors [kl] (holding [ks]),
    which lead to the next member to visit [nxt], and the rest [rest]
    (holding [xs]) of the chain; [r] members were removed so far. *)
Record remove_inv s lp L prev nxt kl ks rest xs (r fuel : nat) : Prop := {
  ri_list : lists s !! lp = Some L;
  ri_seg : seg (members s) (first L) nxt kl ks;
  ri_prev : prev = list_last kl;
  ri_chain : chain (members s) nxt rest xs;
  ri_nodup : NoDup (kl ++ rest);
  ri_last : nxt = None -> last L = list_last kl;
  ri_total : total_members L = Z.of_nat (length kl + length rest);
  ri_range : (Z.of_nat (r + length kl + length rest) <= INT_MAX)%Z;
  ri_fuel : length rest < fuel
}.

(** What the loop does from there: it keeps the survivors of [rest]
    behind [kl], frees the others, hands their items to the destructor
    in order, sets [last] and the counter, leaves the cursor, the other
    lists and the other members alone, and returns the count of removed
    members. *)
Definition remove_post fuel s lp L prev nxt kl ks rest xs (r : nat) : Prop :=
  exists s' L', remove_loop fuel crit prm d (Some lp) prev nxt (Z.of_nat r) s =
      Ok (Z.of_nat (r + length (removed xs)), s') /\
    lists s' !! lp = Some L' /\
    chain (members s') (first L') (kl ++ kept_locs rest xs) (ks ++ kept xs) /\
    last L' = list_last (kl ++ kept_locs rest xs) /\
    total_members L' = Z.of_nat (length kl + length (kept xs)) /\ current L' = current L /\
    (forall lq, lq <> lp -> lists s' !! lq = lists s !! lq) /\
    (forall l, l ∉ kl ++ rest -> members s' !! l = members s !! l) /\
    (forall l, l ∈ removed_locs rest xs -> members s' !! l = None) /\
    oracle s' = oracle s /\ destroyed s' = destroyed s ++ destroyed_items d (removed xs).

Lemma remove_loop_nil fuel s lp L prev nxt kl ks xs r :
  remove_inv s lp L prev nxt kl ks [] xs r fuel -> remove_post fuel s lp L prev nxt kl ks [] xs r.
Proof.
  intros [HL Hseg Hprev Hc Hnd Hlast Ht Hb Hf]. destruct fuel as [|f]; [simpl in Hf; lia|].
  apply chain_nil_l in Hc as [-> ->]. exists s, L. simpl. rewrite !app_nil_r, !Nat.add_0_r.
  split_and!; try done;
    [by apply Hlast|rewrite Ht; simpl; by rewrite Nat.add_0_r|set_solver|destruct d; by rewrite app_nil_r].
Qed.

Lemma remove_inv_cons s lp L prev l rest kl ks xs r fuel :
  remove_inv s lp L prev (Some l) kl ks (l :: rest) xs r fuel ->
  (l ∉ kl) /\ (l ∉ rest) /\ NoDup (kl ++ rest).
Proof.
  intros [_ _ _ _ Hnd _ _ _ _].
  pose proof Hnd as (_ & Hdisj & Hnd2)%NoDup_app. apply NoDup_cons in Hnd2 as [Hlr _].
  split_and!; [intros Hin; by apply (Hdisj l Hin); left|done|].
  apply NoDup_app in Hnd as (? & ? & ?%NoDup_cons). apply NoDup_app. set_solver.
Qed.

(** A pass on a member that stays: it joins the survivors. *)
Lemma remove_loop_keep f s lp L l m rest xs' kl ks r :
  (forall s1 L1, remove_inv s1 lp L1 (Some l) (next m) (kl ++ [l]) (ks ++ [item m]) rest xs' r f ->
     remove_post f s1 lp L1 (Some l) (next m) (kl ++ [l]) (ks ++ [item m]) rest xs' r) ->
  remove_inv s lp L (list_last kl) (Some l) kl ks (l :: rest) (item m :: xs') r (S f) ->
  members s !! l = Some m -> keep (item m) = true ->
  remove_post (S f) s lp L (list_last kl) (Some l) kl ks (l :: rest) (item m :: xs') r.
Proof.
  intros IH Hinv Hm Hk. pose proof (remove_inv_cons _ _ _ _ _ _ _ _ _ _ _ Hinv) as (Hlk & _ & _).
  destruct Hinv as [HL Hseg _ Hc Hnd Hlast Ht Hb Hf]. simpl in Hf, Ht, Hb.
  inversion Hc as [|? m' ? ? ? Hm' Hc']; subst. rewrite Hm in Hm'. injection Hm' as <-.
  destruct (remove_step_keep f s lp L (list_last kl) l m (Z.of_nat r))
    as (s1 & L1 & Hrun & HL1 & Hf1 & Ht1 & Hc1 & Hl1 & Hls1 & Hm1 & Ho1 & Hd1); try done.
  destruct (IH s1 L1) as (s' & L' & Hrun' & HL' & Hc'' & Hl' & Ht' & Hcur' & Hls' & Hm' & Hfr' & Ho' & Hd').
  { split; try done.
    - rewrite Hm1, Hf1. by apply seg_snoc.
    - by rewrite last_snoc.
    - by rewrite Hm1.
    - by rewrite <- app_assoc.
    - rewrite last_snoc. exact Hl1.
    - rewrite Ht1, Ht, length_app. simpl. f_equal. lia.
    - rewrite length_app. simpl. lia.
    - lia. }
  exists s', L'. cbn [kept removed kept_locs removed_locs]. rewrite Hk, Hrun, Hrun'.
  rewrite <- !app_assoc in Hc''. rewrite <- !app_assoc in Hl'. simpl in *.
  split_and!; try congruence.
  - rewrite Ht', length_app. simpl. f_equal. lia.
  - intros lq Hq. by rewrite Hls', Hls1.
  - intros l' Hl''. rewrite Hm', Hm1; [done|set_solver].
  - exact Hfr'.
Qed.

(** A pass on a member that goes: it is unlinked and freed. *)
Lemma remove_loop_unlink f s lp L l m rest xs' kl ks r :
  (forall s1 L1, remove_inv s1 lp L1 (list_last kl) (next m) kl ks rest xs' (S r) f ->
     remove_post f s1 lp L1 (list_last kl) (next m) kl ks rest xs' (S r)) ->
  remove_inv s lp L (list_last kl) (Some l) kl ks (l :: rest) (item m :: xs') r (S f) ->
  members s !! l = Some m -> keep (item m) = false ->
  remove_post (S f) s lp L (list_last kl) (Some l) kl ks (l :: rest) (item m :: xs') r.
Proof.
  intros IH Hinv Hm Hk. pose proof (remove_inv_cons _ _ _ _ _ _ _ _ _ _ _ Hinv) as (Hlk & Hlr & Hnd').
  destruct Hinv as [HL Hseg _ Hc Hnd Hlast Ht Hb Hf]. simpl in Hf, Ht, Hb.
  inversion Hc as [|? m' ? ? ? Hm' Hc']; subst. rewrite Hm in Hm'. injection Hm' as <-.
  assert (int_range (Z.of_nat r + 1) = true) by (apply int_range_spec; unfold INT_MIN; lia).
  assert (int_range (total_members L + -1) = true)
    by (rewrite Ht; apply int_range_spec; unfold INT_MIN; lia).
  destruct (remove_step_unlink f s lp L (list_last kl) kl ks l m (Z.of_nat r))
    as (s1 & L1 & Hrun & HL1 & Hseg1 & Hl1 & Ht1 & Hc1 & Hls1 & Hm1 & Hfree & Ho1 & Hd1);
    try done.
  { apply NoDup_app. split_and!; [by apply NoDup_app in Hnd as []|set_solver|apply NoDup_singleton]. }
  destruct (IH s1 L1) as (s' & L' & Hrun' & HL' & Hc'' & Hl' & Ht' & Hcur' & Hls' & Hm' & Hfr' & Ho' & Hd').
  { split; try done; [|rewrite Ht1, Ht; lia|lia|lia].
    eapply seg_frame; [exact Hc'|]. intros l' Hin. apply Hm1; [|by intros ->].
    apply NoDup_app in Hnd' as (_ & Hdisj & _). intros Hk'. by apply (Hdisj l'). }
  exists s', L'. cbn [kept removed kept_locs removed_locs]. rewrite Hk, Hrun.
  replace (Z.of_nat r + 1)%Z with (Z.of_nat (S r)) by lia.
  rewrite Hrun'. split_and!; try congruence.
  - do 2 f_equal. simpl. lia.
  - intros lq Hq. by rewrite Hls', Hls1.
  - intros l' Hl''. rewrite Hm', Hm1; [done|set_solver..].
  - intros l' [->|Hin]%elem_of_cons; [|by apply Hfr']. rewrite Hm'; [done|set_solver].
  - rewrite Hd', Hd1, <- app_assoc. by rewrite <- destroyed_items_app.
Qed.

(** The loop does what [remove_post] says from every state of its
    invariant. *)
Lemma remove_loop_run rest : forall fuel s lp L prev nxt kl ks xs r,
  remove_inv s lp L prev nxt kl ks rest xs r fuel -> remove_post fuel s lp L prev nxt kl ks rest xs r.
Proof.
  induction rest as [|l rest IH]; intros fuel s lp L prev nxt kl ks xs r Hinv;
    [by apply remove_loop_nil|].
  pose proof Hinv as [_ _ -> Hc _ _ _ _ Hf]. destruct fuel as [|f]; [simpl in Hf; lia|].
  inversion Hc as [|? m ? ? xs' Hm Hc']; subst.
  destruct (keep (item m)) eqn:Hk;
    [eapply remove_loop_keep|eapply remove_loop_unlink]; eauto; intros s1 L1 Hinv1; by apply IH.
Qed.

Lemma kept_length xs : length (kept xs) <= length xs.
Proof. induction xs as [|x xs IH]; simpl; [lia|]. destruct (keep x); simpl; lia. Qed.

(** The kept members are members of the list. *)
Lemma kept_locs_subseteq ls xs l : l ∈ kept_locs ls xs -> l ∈ ls.
Proof.
  revert xs. induction ls as [|l0 ls IH]; intros [|x xs]; simpl; try set_solver.
  destruct (keep x); [intros [->|?]%elem_of_cons|intros ?]; set_solver.
Qed.

(** The member of a removed item is among the removed members. *)
(** Every member of the list is kept or removed. *)
Lemma locs_split ls xs l :
  length ls = length xs -> l ∈ ls -> l ∈ kept_locs ls xs \/ l ∈ removed_locs ls xs.
Proof.
  revert xs. induction ls as [|l0 ls IH]; intros [|x xs] Hlen Hin; simpl in Hlen; [set_solver|done|done|].
  simpl. apply elem_of_cons in Hin as [->|Hin].
  - destruct (keep x); [left|right]; set_solver.
  - destruct (IH xs) as [?|?]; [lia|done| |]; destruct (keep x); set_solver.
Qed.

Lemma removed_locs_lookup ls xs i l x :
  length ls = length xs -> ls !! i = Some l -> xs !! i = Some x -> keep x = false ->
  l ∈ removed_locs ls xs.
Proof.
  revert xs i. induction ls as [|l0 ls IH]; intros [|x0 xs] i Hlen Hl Hx Hk; try done.
  destruct i as [|i]; simpl in *.
  - injection Hl as ->. injection Hx as ->. rewrite Hk. left.
  - destruct (keep x0); [|right]; eapply IH; eauto.
Qed.

(** The member of a kept item is among the kept members, at the
    position given by the kept items before it. *)
Lemma kept_locs_lookup ls xs i l x :
  length ls = length xs -> ls !! i = Some l -> xs !! i = Some x -> keep x = true ->
  kept_locs ls xs !! length (kept (take i xs)) = Some l.
Proof.
  revert xs i. induction ls as [|l0 ls IH]; intros [|x0 xs] i Hlen Hl Hx Hk; try done.
  destruct i as [|i]; simpl in *.
  - injection Hl as ->. injection Hx as ->. by rewrite Hk.
  - destruct (keep x0); simpl; eapply IH; eauto.
Qed.

(** The cursor after the removal: the same item, counted among the kept
    ones. *)
Definition remap_cursor (xs : list Item) (c : option nat) : option nat :=
  match c with None => None | Some i => Some (length (kept (take i xs))) end.

(** The run of [remove_from_list] on a non-empty well-formed list, for
    any cursor: the list is filtered as [remove_loop_run] says and its
    [current] field is not touched. *)
Lemma remove_from_list_run s lp ls A :
  rep_at s lp ls A -> elems A <> [] ->
  exists s' L L', remove_from_list (Some lp) (Some crit) prm d s =
      Ok (Z.of_nat (length (removed (elems A))), s') /\
    lists s !! lp = Some L /\ lists s' !! lp = Some L' /\
    list_ok (members s') (set_current L' None) (kept_locs ls (elems A)) (AList (kept (elems A)) None) /\
    current L' = current L /\
    (forall lq, lq <> lp -> lists s' !! lq = lists s !! lq) /\
    (forall l, l ∉ ls -> members s' !! l = members s !! l) /\
    (forall l, l ∈ removed_locs ls (elems A) -> members s' !! l = None) /\
    oracle s' = oracle s /\ destroyed s' = destroyed s ++ destroyed_items d (removed (elems A)).
Proof.
  intros (L & HL & Hok) Hne. pose proof Hok as [Hc Hl Ht Hr _].
  pose proof (chain_length_le _ _ _ _ Hc) as Hsz. pose proof (seg_length _ _ _ _ _ Hc) as Hlen.
  destruct (first L) as [p0|] eqn:Hf; [|by apply chain_nil_inv in Hc as [_ ?]].
  destruct (remove_loop_run ls (S (size (members s))) s lp L None (Some p0) [] [] (elems A) 0)
    as (s' & L' & Hrun & HL' & Hc' & Hl' & Ht' & Hcur' & Hls' & Hm' & Hfr' & Ho' & Hd').
  { split; try done; [rewrite Hf; apply seg_nil|simpl; eauto using chain_NoDup|lia]. }
  exists s', L, L'. unfold remove_from_list. rewrite bind_run, (load_list_run _ _ _ HL).
  cbv beta iota. rewrite Hf. unfold get. rewrite bind_run. cbv beta iota.
  change (Z.of_nat 0) with 0%Z in Hrun. rewrite Hrun. split_and!; try done.
  pose proof (seg_length _ _ _ _ _ Hc') as Hlen'. pose proof (kept_length (elems A)).
  simpl in *. split; simpl; try done.
  - rewrite Ht'. by rewrite Hlen'.
  - rewrite Hlen'. rewrite Hlen in Hr. lia.
Qed.

(** The run of [remove_from_list] when the cursor is not on a removed item. *)
Lemma remove_from_list_keep_run s lp ls A :
  rep_at s lp ls A -> elems A <> [] ->
  (forall i x, cursor A = Some i -> elems A !! i = Some x -> keep x = true) ->
  exists s', remove_from_list (Some lp) (Some crit) prm d s =
      Ok (Z.of_nat (length (removed (elems A))), s') /\
    rep_at s' lp (kept_locs ls (elems A))
      (AList (kept (elems A)) (remap_cursor (elems A) (cursor A))) /\
    (forall lq, lq <> lp -> lists s' !! lq = lists s !! lq) /\
    (forall l, l ∉ ls -> members s' !! l = members s !! l) /\
    (forall l, l ∈ removed_locs ls (elems A) -> members s' !! l = None) /\
    oracle s' = oracle s /\ destroyed s' = destroyed s ++ destroyed_items d (removed (elems A)).
Proof.
  intros Hrep Hne Hkeep. pose proof Hrep as (L0 & HL0 & Hok0). pose proof Hok0 as [Hc0 _ _ _ Hcur].
  destruct (remove_from_list_run s lp ls _ Hrep Hne)
    as (s' & L & L' & Hrun & HL & HL' & Hok & Hcur' & Hrest).
  rewrite HL0 in HL. injection HL as <-.
  exists s'. split_and!; try apply Hrest; [done|].
  exists L'. split; [done|]. apply (list_ok_current _ _ _ _ _ _ Hok). simpl. rewrite Hcur'.
  destruct (cursor A) as [i|]; [|done]. destruct Hcur as [Hcur Hi]. simpl.
  destruct (lookup_lt_is_Some_2 ls i Hi) as [l Hl].
  destruct (lookup_lt_is_Some_2 (elems A) i) as [x Hx]; [by rewrite <- (seg_length _ _ _ _ _ Hc0)|].
  assert (kept_locs ls (elems A) !! length (kept (take i (elems A))) = Some l) as Hk
    by (eapply kept_locs_lookup; eauto using seg_length).
  rewrite Hcur, Hl, Hk. split; [done|]. by eapply lookup_lt_Some.
Qed.

(** C5: [remove_from_list] on a non-empty well-formed list whose cursor
    is not on a removed item returns the number of removed items and
    leaves the list holding exactly the items the criterion rejects, in
    order, with [last], the counter and the cursor (on the same item)
    right; the removed members are freed after the destructor, when
    there is one, ran on their items in order; nothing else changes. *)
Theorem remove_from_list_refines s lp ls A :
  rep_at s lp ls A -> elems A <> [] ->
  (forall i x, cursor A = Some i -> elems A !! i = Some x -> keep x = true) ->
  exists s', remove_from_list (Some lp) (Some crit) prm d s =
      Ok (Z.of_nat (length (removed (elems A))), s') /\
    rep_at s' lp (kept_locs ls (elems A))
      (AList (kept (elems A)) (remap_cursor (elems A) (cursor A))) /\
    (forall lq, lq <> lp -> lists s' !! lq = lists s !! lq) /\
    (forall l, l ∉ ls -> members s' !! l = members s !! l) /\
    (forall l, l ∈ removed_locs ls (elems A) -> members s' !! l = None) /\
    oracle s' = oracle s /\ destroyed s' = destroyed s ++ destroyed_items d (removed (elems A)).
Proof. by apply remove_from_list_keep_run. Qed.

(** C30: the early returns of [remove_from_list]: -1, with the heap
    unchanged, for a NULL list, a NULL criterion or an empty list. *)
Theorem remove_from_list_errors s (p : ptr) (c : option (Item -> P -> Z)) lp ls A :
  remove_from_list None c prm d s = Ok ((-1)%Z, s) /\
  remove_from_list p None prm d s = Ok ((-1)%Z, s) /\
  (rep_at s lp ls A -> elems A = [] -> remove_from_list (Some lp) c prm d s = Ok ((-1)%Z, s)).
Proof.
  split_and!; [by destruct c|by destruct p|].
  intros (L & HL & Hok) HA. destruct c; [|done]. pose proof (ok_chain _ _ _ _ Hok) as Hc.
  rewrite HA in Hc. apply chain_nil_r in Hc as [Hf _].
  unfold remove_from_list. heap_unfold. hrun. by rewrite ?Hf.
Qed.

(** C18: [remove_from_list] does not look at the iteration cursor: when
    the cursor is on an item that the criterion removes (and some item
    stays), the list's [current] is left pointing at the freed member,
    and the next [get_next_item] on the list reads freed memory.
    spec.md section 3 requires the cursor to point to a reachable node. *)
Theorem remove_from_list_dangling_cursor s lp ls xs i x :
  rep_at s lp ls (AList xs (Some i)) -> xs !! i = Some x -> keep x = false -> kept xs <> [] ->
  exists s' L' li, remove_from_list (Some lp) (Some crit) prm d s =
      Ok (Z.of_nat (length (removed xs)), s') /\
    lists s' !! lp = Some L' /\ ls !! i = Some li /\ current L' = Some li /\
    members s' !! li = None /\ get_next_item (Some lp) s' = Fault UseAfterFree.
Proof.
  intros Hrep Hx Hk Hkept. pose proof Hrep as (L0 & HL0 & [Hc0 _ _ _ [Hcur0 Hi]]).
  destruct (remove_from_list_run s lp ls _ Hrep) as (s' & L & L' & Hrun & HL & HL' & Hok & Hcur' & Hrest);
    [simpl; intros ->; by rewrite lookup_nil in Hx|].
  destruct Hrest as (_ & _ & Hfr & _). simpl in *. rewrite HL0 in HL. injection HL as <-.
  destruct (lookup_lt_is_Some_2 ls i Hi) as [li Hli].
  assert (members s' !! li = None) as Hdead.
  { apply Hfr. eapply removed_locs_lookup; eauto using seg_length. }
  destruct Hok as [Hc Hl _ _ _]. simpl in *.
  destruct (kept_locs ls xs) as [|k0 ks'] eqn:Hks; [by destruct (kept xs); apply seg_length in Hc|].
  destruct (list_last (k0 :: ks')) as [lz|] eqn:Hlz; [|by apply last_None in Hlz].
  destruct (seg_live _ _ _ _ _ lz Hc) as [mz Hmz]; [by apply last_Some_elem|].
  exists s', L', li. split_and!; try congruence.
  unfold get_next_item. heap_unfold. hrun. apply chain_head in Hc. simpl in Hc. rewrite Hc.
  rewrite decide_False by (rewrite Hcur', Hcur0, Hli, Hl; congruence).
  rewrite Hcur', Hcur0, Hli. hrun. by rewrite ?Hdead.
Qed.
End RemoveProofs.

(** ** Witnesses *)

(** The removal of test_list.c: the items [<= 50] go, through [free];
    with the cursor on [60], which stays, the cursor follows the item. *)
Lemma remove_from_list_refines_witness :
  (exists s', remove_from_list (Some 1%positive) (Some asc_cmp) 50%Z (Some (fun _ => tt))
                (demo_mem [5; 60; 3]%Z) = Ok (2%Z, s') /\
     rep_at s' 1 [3%positive] (AList [60%Z] None) /\ destroyed s' = [5; 3]%Z) /\
  (exists s', remove_from_list (Some 1%positive) (Some asc_cmp) 50%Z None
                (demo_mem_at [5; 60; 3]%Z 1) = Ok (2%Z, s') /\
     rep_at s' 1 [3%positive] (AList [60%Z] (Some 0))).
Proof.
  split.
  - destruct (remove_from_list_refines asc_cmp 50%Z (Some (fun _ => tt)) (demo_mem [5; 60; 3]%Z) 1
                (demo_locs [5; 60; 3]%Z) (AList [5; 60; 3]%Z None))
      as (s' & H1 & H2 & _ & _ & _ & _ & H7); [decide_rep|done|done|].
    exists s'. split_and!; [exact H1|exact H2|by rewrite H7].
  - destruct (remove_from_list_refines asc_cmp 50%Z None (demo_mem_at [5; 60; 3]%Z 1) 1
                (demo_locs [5; 60; 3]%Z) (AList [5; 60; 3]%Z (Some 1)))
      as (s' & H1 & H2 & _); [decide_rep|done|intros i x [= <-] [= <-]; reflexivity|].
    exists s'. split; [exact H1|exact H2].
Defined.

Lemma remove_from_list_errors_witness :
  remove_from_list None (Some asc_cmp) 50%Z None (demo_mem [5]%Z) = Ok ((-1)%Z, demo_mem [5]%Z) /\
  remove_from_list (Some 1%positive) None 50%Z None (demo_mem [5]%Z) = Ok ((-1)%Z, demo_mem [5]%Z) /\
  remove_from_list (Some 1%positive) (Some asc_cmp) 50%Z None (demo_mem []) = Ok ((-1)%Z, demo_mem []).
Proof.
  destruct (remove_from_list_errors 50%Z None (demo_mem [5]%Z) (Some 1%positive) (Some asc_cmp)
              1 (demo_locs [5]%Z) (AList [5]%Z None)) as (H1 & H2 & _).
  destruct (remove_from_list_errors 50%Z None (demo_mem []) (Some 1%positive) (Some asc_cmp)
              1 [] (AList [] None)) as (_ & _ & H3).
  split_and!; [exact H1|exact H2|apply H3; [decide_rep|done]].
Defined.

(** The cursor on the first item, [5], which the removal frees. *)
Lemma remove_from_list_dangling_cursor_witness :
  exists s' L' li, remove_from_list (Some 1%positive) (Some asc_cmp) 50%Z None
                     (demo_mem_at [5; 60; 3]%Z 0) = Ok (2%Z, s') /\
    lists s' !! 1%positive = Some L' /\ current L' = Some li /\ members s' !! li = None /\
    get_next_item (Some 1%positive) s' = Fault UseAfterFree.
Proof.
  destruct (remove_from_list_dangling_cursor asc_cmp 50%Z None (demo_mem_at [5; 60; 3]%Z 0) 1
              (demo_locs [5; 60; 3]%Z) [5; 60; 3]%Z 0 5%Z)
    as (s' & L' & li & H1 & H2 & _ & H4 & H5 & H6); [decide_rep|done|done|discriminate|].
  exists s', L', li. split_and!; [exact H1|exact H2|exact H4|exact H5|exact H6].
Defined.
