(* ===== verification/Api.v ===== *)
(** The public interface of the library, liblist.h: the eleven
    prototypes as a record of operations [ListAPI], the behaviour each
    comment of liblist.h and liblist.c documents as a specification over
    the heap representation [rep_at], bundled as [ListSpec], and the
    proof that liblist.c ([liblist]) meets it.  Clients such as
    test_list.c see the library only through liblist.h; the flows of
    [Scenario] are written over a [ListAPI] and their theorems proved
    from [ListSpec].

    Where the code needs more than its comment says, the specification
    carries the code's precondition ([join_lists]: a non-empty first list
    needs a non-empty second one; [remove_from_list]: a non-empty list
    whose cursor is not on a removed item), and [remove_doc] states the
    comment of [remove_from_list] literally, which the code violates on
    an empty list. *)

From S2P Require Import Prelude Spec Heap Chain Fixtures Append Iter Bubble Sort Join Delete Search Duplicate Remove.
From Stdlib Require Import Sorting.Sorted Sorting.Permutation.

Section Api.
Context {Item : Type}.
Local Abbreviation ST := (M (Mem Item)).

(** liblist.h 17-106: [List] is abstract to clients ([ptr]); [void *]
    items are [Item]s, NULL being [None]; [search_params] has the type
    [P] the caller chooses. *)
Record ListAPI := {
  create_list_op : ST ptr;
  append_to_list_op : ptr -> option Item -> ST Z;
  list_size_op : ptr -> ST Z;
  join_lists_op : ptr -> ptr -> ST unit;
  delete_list_op : ptr -> option (Item -> unit) -> ST unit;
  sort_list_op : ptr -> option (Item -> Item -> Z) -> ST ptr;
  search_in_list_op : forall {P : Type},
    ptr -> option (Item -> P -> Z) -> P -> option (Item -> option Item) -> ST ptr;
  remove_from_list_op : forall {P : Type},
    ptr -> option (Item -> P -> Z) -> P -> option (Item -> unit) -> ST Z;
  duplicate_list_op : ptr -> option (Item -> option Item) -> ST ptr;
  get_next_item_op : ptr -> ST (option Item);
  reset_list_item_op : ptr -> ST unit
}.

(** The definitions of liblist.c behind the prototypes. *)
Definition liblist : ListAPI := {|
  create_list_op := create_list;
  append_to_list_op := append_to_list;
  list_size_op := list_size;
  join_lists_op := join_lists;
  delete_list_op := delete_list;
  sort_list_op := sort_list;
  search_in_list_op := fun P => @search_in_list Item P;
  remove_from_list_op := fun P => @remove_from_list Item P;
  duplicate_list_op := duplicate_list;
  get_next_item_op := get_next_item;
  reset_list_item_op := reset_list_item
|}.
End Api.

Arguments ListAPI : clear implicits.
Arguments search_in_list_op {Item} _ {P}.
Arguments remove_from_list_op {Item} _ {P}.

Section ApiSpec.
Context {Item : Type} (api : ListAPI Item).
Implicit Types (s : Mem Item) (A B : alist Item).

(** "Creates a new list" (liblist.h 19, liblist.c 36): a fresh empty
    container, nothing else changed, when [calloc] succeeds. *)
Definition create_spec : Prop := forall s,
  head (oracle s) <> Some false ->
  exists l s', create_list_op api s = Ok (Some l, s') /\ lists s !! l = None /\
    rep_at s' l [] a_empty /\ members s' = members s /\
    (forall lq, lq <> l -> lists s' !! lq = lists s !! lq) /\
    oracle s' = tail (oracle s) /\ destroyed s' = destroyed s.

(** "Returns: 0 - Item appended with success; 1 - There is no pointer to
    item; 2 - Unable to alloc memory for new list member" (liblist.c
    48-55).  Success needs room in the [int] counter. *)
Definition append_spec : Prop := forall s lp ls A x,
  rep_at s lp ls A ->
  append_to_list_op api (Some lp) None s = Ok (1%Z, s) /\
  (head (oracle s) = Some false ->
   append_to_list_op api (Some lp) (Some x) s = Ok (2%Z, pop_oracle s)) /\
  (head (oracle s) <> Some false -> (Z.of_nat (length ls) < INT_MAX)%Z ->
   exists l s', append_to_list_op api (Some lp) (Some x) s = Ok (0%Z, s') /\
     rep_at s' lp (ls ++ [l]) (a_append x A) /\ members s !! l = None /\
     untouched s s' lp ls /\ oracle s' = tail (oracle s) /\ destroyed s' = destroyed s /\
     footprint s s' (ls ++ [l])).

(** "get list size, i.e., total members in the list" (liblist.h 32). *)
Definition size_spec : Prop := forall s lp ls A,
  rep_at s lp ls A -> list_size_op api (Some lp) s = Ok (Z.of_nat (length (elems A)), s).

(** "Join second list to the end of first list" (liblist.h 35), for
    two distinct lists on disjoint nodes whose total fits an [int], the
    second non-empty when the first is. *)
Definition join_spec : Prop := forall s lf ls lsf lss A B,
  rep_at s lf lsf A -> rep_at s ls lss B -> lf <> ls -> lsf ## lss ->
  (lsf = [] \/ lss <> []) -> (Z.of_nat (length lsf + length lss) <= INT_MAX)%Z ->
  exists s', join_lists_op api (Some lf) (Some ls) s = Ok (tt, s') /\
    rep_at s' lf (lsf ++ lss) (a_join A B) /\ lists s' !! ls = None /\
    (forall lq, lq <> lf -> lq <> ls -> lists s' !! lq = lists s !! lq) /\
    footprint s s' lsf /\
    oracle s' = oracle s /\ destroyed s' = destroyed s.

(** "Deletes a list; delete_item - Pointer to function to delete the
    item" (liblist.c 97-101). *)
Definition delete_spec : Prop := forall s lp ls A d,
  rep_at s lp ls A ->
  exists s', delete_list_op api (Some lp) d s = Ok (tt, s') /\
    lists s' = delete lp (lists s) /\ oracle s' = oracle s /\
    (forall l, members s' !! l = if decide (l ∈ ls) then None else members s !! l) /\
    destroyed s' = destroyed s ++ destroyed_items d (elems A).

(** "Sort list ... Returns pointer to list if success" (liblist.c
    124-131), for a comparator that accepts one order of any two items. *)
Definition sort_spec : Prop := forall s lp ls A (cmp : Item -> Item -> Z),
  CmpTotal cmp -> rep_at s lp ls A -> elems A <> [] ->
  exists ys s', sort_list_op api (Some lp) (Some cmp) s = Ok (Some lp, s') /\
    rep_at s' lp ls (AList ys (cursor A)) /\ Sorted (ordered cmp) ys /\
    Permutation (elems A) ys /\ only_members s s' /\
    (forall l, l ∉ ls -> members s' !! l = members s !! l).

(** "Returns a pointer to a new list with selected items or NULL if the
    new list is an empty list" (liblist.c 164-173), when no allocation
    fails. *)
Definition search_spec : Prop := forall P (crit : Item -> P -> Z) (prm : P) dup s lp ls A,
  rep_at s lp ls A -> elems A <> [] -> false ∉ oracle s ->
  (selected crit prm dup (elems A) = [] ->
   search_in_list_op api (Some lp) (Some crit) prm (Some dup) s = Ok (None, pop_oracle s)) /\
  (selected crit prm dup (elems A) <> [] ->
   exists nl lsn s', search_in_list_op api (Some lp) (Some crit) prm (Some dup) s = Ok (Some nl, s') /\
     lists s !! nl = None /\ rep_at s' nl lsn (AList (selected crit prm dup (elems A)) None) /\
     rep_at s' lp ls A /\ (forall lq, lq <> nl -> lists s' !! lq = lists s !! lq) /\
     footprint s s' lsn /\
     (forall l, l ∈ lsn -> members s !! l = None) /\ destroyed s' = destroyed s /\
     (false ∉ oracle s')).

(** "Removes from list all items that match search criteria; if pointer
    to delete_item is given, than deletes item; returns number of items
    removed" (liblist.c 201-207), on a non-empty list whose cursor is not
    on an item to remove. *)
Definition remove_spec : Prop := forall P (crit : Item -> P -> Z) (prm : P) d s lp ls A,
  rep_at s lp ls A -> elems A <> [] ->
  (forall i x, cursor A = Some i -> elems A !! i = Some x -> keep crit prm x = true) ->
  exists s', remove_from_list_op api (Some lp) (Some crit) prm d s =
      Ok (Z.of_nat (length (removed crit prm (elems A))), s') /\
    rep_at s' lp (kept_locs crit prm ls (elems A))
      (AList (kept crit prm (elems A)) (remap_cursor crit prm (elems A) (cursor A))) /\
    (forall lq, lq <> lp -> lists s' !! lq = lists s !! lq) /\
    (forall l, l ∉ ls -> members s' !! l = members s !! l) /\
    (forall l, l ∈ removed_locs crit prm ls (elems A) -> members s' !! l = None) /\
    oracle s' = oracle s /\ destroyed s' = destroyed s ++ destroyed_items d (removed crit prm (elems A)).

(** "Returns a pointer to the new list ... only successfully duplicated
    items will be added to the new list" (liblist.c 246-264), when no
    allocation fails. *)
Definition duplicate_spec : Prop := forall s lp ls A d,
  rep_at s lp ls A -> elems A <> [] -> false ∉ oracle s ->
  (duplicated d (elems A) = [] -> duplicate_list_op api (Some lp) d s = Ok (None, pop_oracle s)) /\
  (duplicated d (elems A) <> [] ->
   exists nl lsn s', duplicate_list_op api (Some lp) d s = Ok (Some nl, s') /\
     lists s !! nl = None /\ rep_at s' nl lsn (AList (duplicated d (elems A)) None) /\
     rep_at s' lp ls A /\ (forall lq, lq <> nl -> lists s' !! lq = lists s !! lq) /\
     footprint s s' lsn /\
     (forall l, l ∈ lsn -> members s !! l = None) /\ destroyed s' = destroyed s /\
     (false ∉ oracle s')).

(** "Return pointer of next item or NULL if list is in the end"
    (liblist.c 293-298). *)
Definition get_next_spec : Prop := forall s lp ls A,
  rep_at s lp ls A ->
  exists s', get_next_item_op api (Some lp) s = Ok ((a_next A).1, s') /\
    rep_at s' lp ls (a_next A).2 /\ cursor_step s s' lp.

(** "Reset the next item to the first of list" (liblist.c 322). *)
Definition reset_spec : Prop := forall s lp ls A,
  rep_at s lp ls A ->
  exists s', reset_list_item_op api (Some lp) s = Ok (tt, s') /\ rep_at s' lp ls (a_reset A) /\
    cursor_step s s' lp.

Record ListSpec : Prop := {
  spec_create : create_spec;
  spec_append : append_spec;
  spec_size : size_spec;
  spec_join : join_spec;
  spec_delete : delete_spec;
  spec_sort : sort_spec;
  spec_search : search_spec;
  spec_remove : remove_spec;
  spec_duplicate : duplicate_spec;
  spec_get_next : get_next_spec;
  spec_reset : reset_spec
}.
End ApiSpec.

Section LiblistSpec.
Context {Item : Type}.
Implicit Types (s : Mem Item).

Lemma liblist_create_spec : create_spec (@liblist Item).
Proof.
  intros s H. cbn [create_list_op liblist]. rewrite create_list_run_ok by done.
  eexists _, _. split_and!; [reflexivity|apply fresh_list_free|apply rep_at_fresh_empty|done| |done|done].
  intros lq Hne. simpl. by rewrite lookup_insert_ne.
Qed.

Lemma liblist_append_spec : append_spec (@liblist Item).
Proof.
  intros s lp ls A x Hr. cbn [append_to_list_op liblist].
  split_and!; [reflexivity|apply append_to_list_run_fail|intros; by apply append_to_list_run].
Qed.

(** liblist.c meets the specification of liblist.h. *)
Lemma liblist_spec_run : ListSpec (@liblist Item).
Proof.
  split.
  - apply liblist_create_spec.
  - apply liblist_append_spec.
  - intros s lp ls A. apply list_size_run.
  - intros s lf ls lsf lss A B. apply join_lists_run.
  - intros s lp ls A d. apply delete_list_run.
  - intros s lp ls A cmp Hcmp. apply (sort_list_sorts_run s lp ls A cmp).
  - intros P crit prm dup s lp ls A. apply search_in_list_run.
  - intros P crit prm d s lp ls A. apply remove_from_list_keep_run.
  - intros s lp ls A d. apply duplicate_list_run.
  - intros s lp ls A. apply get_next_item_run.
  - intros s lp ls A. apply reset_list_item_run.
Qed.
End LiblistSpec.

(** "Returns number of items removed from list, or -1 if ther is no list
    or no function to check criterion" (liblist.c 205), read literally:
    given a list and a criterion, the call returns how many items it
    removed. *)
Definition remove_doc {Item} (api : ListAPI Item) : Prop :=
  forall P (crit : Item -> P -> Z) (prm : P) d s lp ls A,
  rep_at s lp ls A ->
  exists s', remove_from_list_op api (Some lp) (Some crit) prm d s =
    Ok (Z.of_nat (length (removed crit prm (elems A))), s').

(** C21: [remove_from_list] does not do what its comment says: on an
    empty list, given a criterion, it removes nothing yet returns -1,
    the code of a missing list or criterion, not 0 (the test
    [!list->first] of liblist.c 214). *)
Theorem remove_doc_violated : ~ remove_doc (@liblist Z).
Proof.
  intros H. destruct (H Z asc_cmp 50%Z None (demo_mem []) 1%positive [] (AList [] None)) as (s' & Hrun);
    [decide_rep|].
  vm_compute in Hrun. discriminate.
Qed.
