(* ===== verification/Scenario.v ===== *)
(** The library as test_list.c uses it: through liblist.h only.  The
    client code of the test program that does not depend on its [int]
    items is written here over any implementation [api : ListAPI] of the
    interface, and its theorems are proved from the specification
    [ListSpec api] alone: [print_list] (test_list.c 18-26), which reads a
    list through [list_size] and the iterator, building a list item by
    item and printing it back (a round trip), and sorting a copy of a
    list (test_list.c 77-78).  [add_to_list], which test_list.c calls at
    line 74, exists in neither liblist.h nor liblist.c; the flows use the
    library's [append_to_list] in its place. *)

From S2P Require Import Prelude Spec Heap Chain Fixtures Append Iter Bubble Sort Join Search Duplicate Remove Api.
From Stdlib Require Import Sorting.Sorted Sorting.Permutation.
From stdpp Require Import strings.

(** One line of output of [print_list]: the title, the size [list_size]
    returned, and the items printed. *)
Record printed (Item : Type) := Printed {
  p_title : string;
  p_size : Z;
  p_items : list Item
}.
Arguments Printed {Item} p_title p_size p_items.
Arguments p_title {Item} _.
Arguments p_size {Item} _.
Arguments p_items {Item} _.

(** The items of [xs] whose append returned 0, in order. *)
Fixpoint succeeded {Item} (xs : list Item) (cs : list Z) : list Item :=
  match xs, cs with
  | x :: xs', c :: cs' => if Z.eqb c 0 then x :: succeeded xs' cs' else succeeded xs' cs'
  | _, _ => []
  end.

Section Scenario.
Context {Item : Type} (api : ListAPI Item).
Local Abbreviation ST := (M (Mem Item)).

(** [while ((number = get_next_item(list)) != NULL) printf("%i ",
    *number);] (test_list.c 23-24): the items printed. *)
Fixpoint print_items (fuel : nat) (lst : ptr) : ST (list Item) :=
  match fuel with
  | 0 => out_of_fuel
  | S f =>
      let* number := get_next_item_op api lst in
      match number with
      | None => ret []
      | Some x =>
          let* r := print_items f lst in
          ret (x :: r)
      end
  end.

(** [void print_list(List *list, char *title)] (test_list.c 18-26); the
    loop is given one call more than there are members in the heap. *)
Definition print_list (lst : ptr) (title : string) : ST (printed Item) :=
  let* n := list_size_op api lst in
  let* s := get in
  let* xs := print_items (S (size (members s))) lst in
  ret (Printed title n xs).

(** Appending the items [xs] one by one, ignoring the return codes. *)
Fixpoint append_all (lp : ptr) (xs : list Item) : ST unit :=
  match xs with
  | [] => ret tt
  | x :: r =>
      let* _ := append_to_list_op api lp (Some x) in
      append_all lp r
  end.

(** Appending the items [xs] one by one, keeping the code each call of
    [append_to_list] returns (0 appended, 2 allocation failed). *)
Fixpoint append_codes (lp : ptr) (xs : list Item) : ST (list Z) :=
  match xs with
  | [] => ret []
  | x :: r =>
      let* c := append_to_list_op api lp (Some x) in
      let* cs := append_codes lp r in
      ret (c :: cs)
  end.

(** Build a list from [xs] and print it. *)
Definition build_and_read (xs : list Item) : ST (ptr * printed Item) :=
  let* new := create_list_op api in
  let* _ := append_all new xs in
  let* out := print_list new "" in
  ret (new, out).

(** [asc = duplicate_list(random, duplicate_number); sort_list(asc,
    sort_asc);] (test_list.c 77-78): sort a copy of the list; the test
    keeps the copy and ignores what [sort_list] returns. *)
Definition sorted_copy (list : ptr) (duplicate_item : option (Item -> option Item))
    (cmp : option (Item -> Item -> Z)) : ST ptr :=
  let* copy := duplicate_list_op api list duplicate_item in
  let* _ := sort_list_op api copy cmp in
  ret copy.
End Scenario.

Section ScenarioProofs.
Context {Item : Type} (api : ListAPI Item) (Hspec : ListSpec api).
Implicit Types (s : Mem Item) (A : alist Item).

(** The printing loop prints the items the iterator has yet to return
    and leaves the list reset. *)
Lemma print_items_run fuel : forall s lp ls A,
  rep_at s lp ls A -> length (a_remaining A) < fuel ->
  exists s', print_items api fuel (Some lp) s = Ok (a_remaining A, s') /\
    rep_at s' lp ls (a_reset A) /\ cursor_step s s' lp.
Proof.
  induction fuel as [|f IH]; intros s lp ls A Hr Hf; [lia|].
  destruct (spec_get_next _ Hspec s lp ls A Hr) as (s1 & H1 & Hr1 & Hs1).
  cbn [print_items]. rewrite bind_run, H1. cbv beta iota.
  destruct (a_next_remaining A (rep_at_cursor_wf _ _ _ _ Hr))
    as [[Hnil Hn] | (x & r & Hrem & Hx & Hr' & _ & He)].
  - rewrite Hn in Hr1 |- *. cbn. rewrite Hnil. by exists s1.
  - rewrite Hx. cbv beta iota. rewrite Hrem in Hf |- *. simpl in Hf.
    destruct (IH s1 lp ls _ Hr1) as (s2 & H2 & Hr2 & Hs2); [by rewrite Hr'; lia|].
    rewrite bind_run, H2. cbv beta iota. rewrite Hr'.
    exists s2. unfold a_reset in *. rewrite He in Hr2. split_and!; [done|done|].
    by eapply cursor_step_trans.
Qed.

(** A sequence of appends with any answers of [calloc]: every call
    returns 0 or 2, and the list gains exactly the items whose call
    returned 0, in order. *)
Lemma append_codes_run xs : forall s lp ls A,
  rep_at s lp ls A -> (Z.of_nat (length ls + length xs) <= INT_MAX)%Z ->
  exists cs ls' s', append_codes api (Some lp) xs s = Ok (cs, s') /\
    length cs = length xs /\ Forall (fun c => c = 0%Z \/ c = 2%Z) cs /\
    length (succeeded xs cs) = length (filter (fun c => c = 0%Z) cs) /\
    rep_at s' lp ls' (AList (elems A ++ succeeded xs cs) (cursor A)).
Proof.
  induction xs as [|x xs IH]; intros s lp ls A Hr Hb.
  - exists [], ls, s. rewrite app_nil_r. destruct A. by split_and!.
  - simpl in Hb. destruct (spec_append _ Hspec s lp ls A x Hr) as (_ & Hfail & Happ).
    destruct (decide (head (oracle s) = Some false)) as [Hf|Hf].
    + destruct (IH (pop_oracle s) lp ls A) as (cs & ls' & s' & H2 & Hl & Hc & Hn & Hr2);
        [by apply rep_at_pop_oracle|lia|].
      exists (2%Z :: cs), ls', s'. cbn [append_codes].
      rewrite (bind_Ok _ _ _ _ _ (Hfail Hf)), bind_run, H2. simpl.
      split_and!; try done; [by f_equal|constructor; [by right|done]].
    + destruct Happ as (l & s1 & H1 & Hr1 & _); [done|lia|].
      destruct (IH s1 lp (ls ++ [l]) (a_append x A)) as (cs & ls' & s' & H2 & Hl & Hc & Hn & Hr2);
        [done|rewrite length_app; simpl; lia|].
      exists (0%Z :: cs), ls', s'. cbn [append_codes].
      rewrite (bind_Ok _ _ _ _ _ H1), bind_run, H2. simpl.
      simpl in Hr2. rewrite <- app_assoc in Hr2.
      split_and!; try done; [by f_equal|constructor; [by left|done]|by f_equal].
Qed.

(** [print_list] prints the size and the remaining items of a list. *)
Lemma print_list_run s lp ls A t :
  rep_at s lp ls A ->
  exists s', print_list api (Some lp) t s =
      Ok (Printed t (Z.of_nat (length (elems A))) (a_remaining A), s') /\
    rep_at s' lp ls (a_reset A) /\ cursor_step s s' lp.
Proof.
  intros Hr. pose proof Hr as (L & _ & Hok).
  pose proof (chain_length_le _ _ _ _ (ok_chain _ _ _ _ Hok)) as Hsz.
  rewrite (list_ok_length _ _ _ _ Hok) in Hsz. pose proof (a_remaining_length A) as Hrl.
  destruct (print_items_run (S (size (members s))) s lp ls A Hr) as (s' & H & Hr' & Hs'); [lia|].
  exists s'. unfold print_list. rewrite bind_run, (spec_size _ Hspec s lp ls A Hr).
  cbv beta iota. unfold get. rewrite bind_run. cbv beta iota. rewrite bind_run, H. by split_and!.
Qed.

(** Appending a sequence of items refines appending them abstractly,
    when no allocation fails and the counter has room. *)
Lemma append_all_run xs : forall s lp ls A,
  rep_at s lp ls A -> false ∉ oracle s ->
  (Z.of_nat (length ls + length xs) <= INT_MAX)%Z ->
  exists ls' s', append_all api (Some lp) xs s = Ok (tt, s') /\
    rep_at s' lp (ls ++ ls') (AList (elems A ++ xs) (cursor A)) /\
    untouched s s' lp ls /\ (false ∉ oracle s') /\ destroyed s' = destroyed s.
Proof.
  induction xs as [|x xs IH]; intros s lp ls A Hr Hor Hb.
  - exists [], s. rewrite !app_nil_r. destruct A. by split_and!.
  - simpl in Hb. destruct (spec_append _ Hspec s lp ls A x Hr) as (_ & _ & Happ).
    destruct Happ as (l & s1 & H1 & Hr1 & Hfr & Hu1 & Ho1 & Hd1 & _); [by apply no_fail_head|lia|].
    destruct (IH s1 lp (ls ++ [l]) (a_append x A)) as (ls' & s' & H2 & Hr2 & Hu2 & Ho2 & Hd2);
      [done|rewrite Ho1; by apply no_fail_tail|rewrite length_app; simpl; lia|].
    exists (l :: ls'), s'. simpl. rewrite (bind_Ok _ _ _ _ _ H1), H2. split_and!; try congruence.
    + rewrite cons_middle, app_assoc. replace (elems A ++ x :: xs) with ((elems A ++ [x]) ++ xs)
        by by rewrite <- app_assoc. exact Hr2.
    + apply (untouched_trans _ _ _ _ _ _ Hu1 Hu2).
      intros l' [?|?%list_elem_of_singleton]%elem_of_app; [by left|subst; by right].
Qed.

(** C24: a round trip through the interface, for any implementation
    that meets [ListSpec]: a list created and filled with the items [xs]
    by [append_to_list], when no allocation fails, is printed by
    [print_list] with size [length xs] and the items [xs] in order, and
    is left as it was built. *)
Theorem build_and_read_roundtrip s xs :
  false ∉ oracle s -> (Z.of_nat (length xs) <= INT_MAX)%Z ->
  exists l ls s', build_and_read api xs s = Ok ((Some l, Printed "" (Z.of_nat (length xs)) xs), s') /\
    lists s !! l = None /\ rep_at s' l ls (AList xs None).
Proof.
  intros Hor Hb. destruct (spec_create _ Hspec s) as (l & s1 & H1 & Hl & Hr1 & _ & _ & Ho1 & _);
    [by apply no_fail_head|].
  destruct (append_all_run xs s1 l [] a_empty Hr1) as (ls & s2 & H2 & Hr2 & _ & _ & _);
    [rewrite Ho1; by apply no_fail_tail|simpl; lia|].
  destruct (print_list_run s2 l ls _ "" Hr2) as (s3 & H3 & Hr3 & _).
  exists l, ls, s3. unfold build_and_read. rewrite bind_run, H1. cbv beta iota.
  rewrite bind_run, H2. cbv beta iota. rewrite bind_run, H3. by split_and!.
Qed.

Lemma duplicated_total (f : Item -> Item) xs : duplicated (Some (fun x => Some (f x))) xs = map f xs.
Proof. induction xs as [|x xs IH]; [done|]. simpl. by rewrite <- IH. Qed.

(** The run of [sorted_copy] when no allocation fails. *)
Lemma sorted_copy_run s lp ls A (f : Item -> Item) (cmp : Item -> Item -> Z) `{!CmpTotal cmp} :
  rep_at s lp ls A -> elems A <> [] -> false ∉ oracle s ->
  exists nl lsn ys s', sorted_copy api (Some lp) (Some (fun x => Some (f x))) (Some cmp) s =
      Ok (Some nl, s') /\
    rep_at s' nl lsn (AList ys None) /\ Sorted (ordered cmp) ys /\
    Permutation (map f (elems A)) ys /\ rep_at s' lp ls A /\
    lists s !! nl = None /\ untouched s s' nl [] /\ footprint s s' lsn /\
    (forall l, l ∈ lsn -> members s !! l = None) /\
    (false ∉ oracle s') /\ destroyed s' = destroyed s.
Proof.
  intros Hrep Hne Hor.
  destruct (spec_duplicate _ Hspec s lp ls A (Some (fun x => Some (f x))) Hrep Hne Hor) as [_ Hsome].
  rewrite duplicated_total in Hsome.
  destruct Hsome as (nl & lsn & s1 & H1 & Hnl & Hr1 & Hrep1 & Hls1 & Hm1 & Hfr1 & Hd1 & Hor1);
    [by destruct (elems A)|].
  destruct (spec_sort _ Hspec s1 nl lsn (AList (map f (elems A)) None) cmp _ Hr1)
    as (ys & s2 & H2 & Hr2 & Hsorted & Hperm & (Hl2 & Ho2 & Hd2) & Hm2); [by destruct (elems A)|].
  pose proof (rep_at_fresh_disjoint _ _ _ _ _ Hrep Hfr1) as Hdisj.
  exists nl, lsn, ys, s2. unfold sorted_copy. rewrite bind_run, H1. cbv beta iota. rewrite bind_run, H2.
  split_and!; try done; try congruence.
  - eapply rep_at_frame; [exact Hrep1|by rewrite Hl2|]. intros l Hl. apply Hm2. set_solver.
  - split; [intros lq Hq; by rewrite Hl2, Hls1|].
    intros l m _ Hm. assert (l ∉ lsn) by (intros Hl; by rewrite Hfr1 in Hm). by rewrite Hm2, Hm1.
  - intros l Hl. by rewrite Hm2, Hm1.
Qed.
End ScenarioProofs.

Section ScenarioClaims.
Context {Item : Type} (api : ListAPI Item) (Hspec : ListSpec api).
Implicit Types (s : Mem Item) (A : alist Item).

(** C23: the first flow of test_list.c ([asc = duplicate_list(random,
    duplicate_number); sort_list(asc, sort_asc)]), for any implementation
    that meets [ListSpec], a duplicator that does not fail and a total
    comparator: the copy ends up holding the duplicates of the items,
    sorted, while the original list keeps its items and their order. *)
Theorem duplicate_then_sort s lp ls A (f : Item -> Item) (cmp : Item -> Item -> Z) `{!CmpTotal cmp} :
  rep_at s lp ls A -> elems A <> [] -> false ∉ oracle s ->
  exists nl lsn ys s', sorted_copy api (Some lp) (Some (fun x => Some (f x))) (Some cmp) s =
      Ok (Some nl, s') /\
    rep_at s' nl lsn (AList ys None) /\ Sorted (ordered cmp) ys /\
    Permutation (map f (elems A)) ys /\ rep_at s' lp ls A.
Proof.
  intros Hrep Hne Hor.
  destruct (sorted_copy_run api Hspec s lp ls A f cmp Hrep Hne Hor)
    as (nl & lsn & ys & s' & H & Hr & Hs & Hp & Hrep' & _). by exists nl, lsn, ys, s'.
Qed.

End ScenarioClaims.

(** C25: spec.md section 8, "for all sequences of appends, size(list)
    equals the number of successful appends", for liblist.c and whatever
    [calloc] answers: each [append_to_list] of an item returns 0 or 2,
    the list holds its old items followed by exactly the items whose
    append returned 0, in order, and [list_size] then returns the old
    size plus the number of calls that returned 0. *)
Theorem appends_size {Item} (s : Mem Item) lp ls A (xs : list Item) :
  rep_at s lp ls A -> (Z.of_nat (length ls + length xs) <= INT_MAX)%Z ->
  exists cs ls' s', append_codes liblist (Some lp) xs s = Ok (cs, s') /\
    length cs = length xs /\ Forall (fun c => c = 0%Z \/ c = 2%Z) cs /\
    rep_at s' lp ls' (AList (elems A ++ succeeded xs cs) (cursor A)) /\
    list_size (Some lp) s' = Ok (Z.of_nat (length (elems A) + length (filter (fun c => c = 0%Z) cs)), s').
Proof.
  intros Hr Hb. destruct (append_codes_run liblist liblist_spec_run xs s lp ls A Hr Hb)
    as (cs & ls' & s' & H & Hl & Hc & Hn & Hr').
  exists cs, ls', s'. split_and!; try done.
  rewrite (list_size_run _ _ _ _ Hr'). simpl. by rewrite length_app, Hn.
Qed.

(** ** Witnesses *)

Lemma duplicate_then_sort_witness :
  exists nl lsn ys s', sorted_copy liblist (Some 1%positive) (Some (fun x => Some x)) (Some asc_cmp)
      (demo_mem [5; 60; 3]%Z) = Ok (Some nl, s') /\
    rep_at s' nl lsn (AList ys None) /\ Sorted (ordered asc_cmp) ys /\
    Permutation (map (fun x => x) [5; 60; 3]%Z) ys /\
    rep_at s' 1 (demo_locs [5; 60; 3]%Z) (AList [5; 60; 3]%Z None).
Proof.
  apply (duplicate_then_sort liblist liblist_spec_run (demo_mem [5; 60; 3]%Z) 1 (demo_locs [5; 60; 3]%Z)
           (AList [5; 60; 3]%Z None) (fun x => x) asc_cmp); [decide_rep|done|apply not_elem_of_nil].
Defined.

Lemma build_and_read_roundtrip_witness :
  exists l ls s', build_and_read liblist [5; 60; 3]%Z (demo_mem []) =
      Ok ((Some l, Printed "" (Z.of_nat (length [5; 60; 3]%Z)) [5; 60; 3]%Z), s') /\
    lists (demo_mem []) !! l = None /\ rep_at s' l ls (AList [5; 60; 3]%Z None).
Proof.
  apply (build_and_read_roundtrip liblist liblist_spec_run (demo_mem []) [5; 60; 3]%Z);
    [apply not_elem_of_nil|vm_compute; discriminate].
Defined.

Lemma appends_size_witness :
  exists cs ls' s', append_codes liblist (Some 1%positive) [7; 8; 9]%Z
      (mkMem (members (demo_mem [5]%Z)) (lists (demo_mem [5]%Z)) [true; false] []) = Ok (cs, s') /\
    length cs = length [7; 8; 9]%Z /\ Forall (fun c => c = 0%Z \/ c = 2%Z) cs /\
    rep_at s' 1 ls' (AList ([5]%Z ++ succeeded [7; 8; 9]%Z cs) None) /\
    list_size (Some 1%positive) s' =
      Ok (Z.of_nat (length [5]%Z + length (filter (fun c => c = 0%Z) cs)), s').
Proof.
  apply (appends_size (mkMem (members (demo_mem [5]%Z)) (lists (demo_mem [5]%Z)) [true; false] [])
           1 (demo_locs [5]%Z) (AList [5]%Z None) [7; 8; 9]%Z); [decide_rep|vm_compute; discriminate].
Defined.

