(* ===== verification/Main.v ===== *)
(** The demonstration program test_list.c: its [main] (lines 49-100),
    written over the interface [ListAPI] as the program sees liblist.h,
    with its own helpers [duplicate_number] and [print_list] ([Scenario])
    and the comparators [sort_asc] and [sort_desc] ([Fixtures]).

    [main] is split into its five consecutive blocks of statements,
    each a definition over the pointers the earlier blocks produced:
    building and printing the random list ([build_random], lines 63-76),
    the two sorted copies ([copies], 77-82), the two searches, their sort
    and their join ([split_join], 83-90), the removal ([prune], 91-94) and
    the deletion of the lists ([cleanup], 95-99).  [rand()] is an input
    [rnd : nat -> Z], the value of its [k]-th call; [srand] and [time]
    only seed it.  The [int] cells the program allocates for its items
    are not part of the list heap; the [calloc] of line 70 consumes an
    answer of the allocator like every other [calloc], and the one of
    [duplicate_number] is taken to succeed. *)

From S2P Require Import Prelude Spec Heap Chain Fixtures Append Iter Frame Bubble Sort Join Delete Search Duplicate Remove Api Scenario.
From Stdlib Require Import Sorting.Sorted Sorting.Permutation.
From stdpp Require Import strings sorting.

(** A line the program prints: a list by [print_list], or the count of
    [printf("Removed %i numbers from random list\n", removed)]. *)
Inductive out_line :=
  | OutList (p : printed Z)
  | OutRemoved (removed : Z).

(** [void *duplicate_number(void *origin)] (test_list.c 28-37): a new
    cell holding the same [int]. *)
Definition duplicate_number (origin : Z) : option Z := Some origin.

(** [free] passed as [delete_item] (test_list.c 91 and 95-98). *)
Definition free_item (item : Z) : unit := tt.

Section Main.
Context (api : ListAPI Z) (rnd : nat -> Z).
Local Abbreviation ST := (M (Mem Z)).

(** [while (i++ < n) { number = calloc(1, sizeof(int)); if (!number)
    continue; *number = rand() % 100; add_to_list(random, number); }]
    (test_list.c 68-75): [iters] iterations, [k] calls of [rand] so far;
    C's [%] truncates, as [Z.rem] does. *)
Fixpoint fill_list (iters k : nat) (random : ptr) : ST nat :=
  match iters with
  | 0 => ret k
  | S it =>
      let* number := calloc_ok in
      if number then
        let* _ := append_to_list_op api random (Some (Z.rem (rnd k) 100)) in
        fill_list it (S k) random
      else fill_list it k random
  end.

(** test_list.c 63-76. *)
Definition build_random : ST (ptr * printed Z) :=
  let n := 20 in
  let* random := create_list_op api in
  let* _ := fill_list n 0 random in
  let* out := print_list api random "Random list:" in
  ret (random, out).

(** test_list.c 77-82. *)
Definition copies (random : ptr) : ST (ptr * ptr * list (printed Z)) :=
  let* asc := sorted_copy api random (Some duplicate_number) (Some asc_cmp) in
  let* o1 := print_list api asc "Sorted in ascending order:" in
  let* desc := sorted_copy api random (Some duplicate_number) (Some desc_cmp) in
  let* o2 := print_list api desc "Sorted in descending order:" in
  ret (asc, desc, [o1; o2]).

(** test_list.c 83-90, with [reference = 50] (line 66). *)
Definition split_join (random : ptr) : ST (ptr * list (printed Z)) :=
  let reference := 50%Z in
  let* less := search_in_list_op api random (Some asc_cmp) reference (Some duplicate_number) in
  let* _ := sort_list_op api less (Some asc_cmp) in
  let* o1 := print_list api less "<= 50:" in
  let* more := search_in_list_op api random (Some desc_cmp) reference (Some duplicate_number) in
  let* _ := sort_list_op api more (Some asc_cmp) in
  let* o2 := print_list api more ">= 50:" in
  let* _ := join_lists_op api less more in
  let* o3 := print_list api less "Joined again:" in
  ret (less, [o1; o2; o3]).

(** test_list.c 91-94. *)
Definition prune (random : ptr) : ST (list out_line) :=
  let reference := 50%Z in
  let* removed := remove_from_list_op api random (Some asc_cmp) reference (Some free_item) in
  let* _ := sort_list_op api random (Some asc_cmp) in
  let* o := print_list api random "Random list:" in
  ret [OutRemoved removed; OutList o].

(** test_list.c 95-99. *)
Definition cleanup (random asc desc less : ptr) : ST Z :=
  let* _ := delete_list_op api random (Some free_item) in
  let* _ := delete_list_op api asc (Some free_item) in
  let* _ := delete_list_op api desc (Some free_item) in
  let* _ := delete_list_op api less (Some free_item) in
  ret 0%Z.

(** [int main(void)] (test_list.c 49-100): the value it returns and the
    lines it prints. *)
Definition main : ST (Z * list out_line) :=
  let* '(random, o1) := build_random in
  let* '(asc, desc, o23) := copies random in
  let* '(less, o456) := split_join random in
  let* o78 := prune random in
  let* r := cleanup random asc desc less in
  ret (r, OutList o1 :: map OutList o23 ++ map OutList o456 ++ o78).
End Main.

(** The items the 20 iterations of the filling loop store when no
    [calloc] fails. *)
Definition rand_items (rnd : nat -> Z) : list Z := map (fun k => Z.rem (rnd k) 100) (seq 0 20).

(** ** The orders of the two comparators *)

#[local] Instance Z_ge_trans : Transitive Z.ge.
Proof. intros a b c; lia. Qed.
#[local] Instance Z_ge_antisymm : AntiSymm (=) Z.ge.
Proof. intros a b; lia. Qed.
#[local] Instance Z_ge_total : Total Z.ge.
Proof. intros a b; lia. Qed.

Lemma Sorted_mono {A} (R R' : relation A) l :
  (forall a b, R a b -> R' a b) -> Sorted R l -> Sorted R' l.
Proof.
  intros HR. induction 1 as [|a l Hl IH Hd]; constructor; [done|].
  destruct Hd; constructor. by apply HR.
Qed.

(** A sorted permutation is unique: [sort_list] with [sort_asc] and
    [sort_desc] computes the reference sorts [merge_sort (<=)] and
    [merge_sort (>=)]. *)
Lemma sorted_asc_unique xs ys :
  Sorted (ordered asc_cmp) ys -> Permutation xs ys -> ys = merge_sort Z.le xs.
Proof.
  intros Hs Hp. apply (Sorted_unique Z.le); [|apply Sorted_merge_sort; apply _|].
  - revert Hs. apply Sorted_mono. unfold ordered, in_order, asc_cmp. intros a b.
    destruct (Z.leb_spec a b); simpl; done.
  - by rewrite merge_sort_Permutation, Hp.
Qed.

Lemma sorted_desc_unique xs ys :
  Sorted (ordered desc_cmp) ys -> Permutation xs ys -> ys = merge_sort Z.ge xs.
Proof.
  intros Hs Hp. apply (Sorted_unique Z.ge); [|apply Sorted_merge_sort; apply _|].
  - revert Hs. apply Sorted_mono. unfold ordered, in_order, desc_cmp. intros a b.
    destruct (Z.leb_spec b a); simpl; [lia|done].
  - by rewrite merge_sort_Permutation, Hp.
Qed.

#[export] Instance desc_cmp_total : CmpTotal desc_cmp.
Proof. intros a b. unfold desc_cmp. destruct (Z.leb_spec b a), (Z.leb_spec a b); lia. Qed.

(** The selections of test_list.c: [sort_asc(item, &reference)] keeps
    the items [<= 50], [sort_desc(item, &reference)] those [>= 50]. *)
Lemma selected_le xs : selected asc_cmp 50%Z duplicate_number xs = filter (fun x => (x <= 50)%Z) xs.
Proof.
  induction xs as [|x xs IH]; [done|]. rewrite filter_cons. cbn [selected]. rewrite IH. unfold asc_cmp.
  destruct (Z.leb_spec x 50); simpl; case_decide; done || lia.
Qed.

Lemma selected_ge xs : selected desc_cmp 50%Z duplicate_number xs = filter (fun x => (50 <= x)%Z) xs.
Proof.
  induction xs as [|x xs IH]; [done|]. rewrite filter_cons. cbn [selected]. rewrite IH. unfold desc_cmp.
  destruct (Z.leb_spec 50 x); simpl; case_decide; done || lia.
Qed.

(** [remove_from_list(random, sort_asc, &reference, free)] keeps the
    items [> 50] and removes those [<= 50]. *)
Lemma kept_gt xs : kept asc_cmp 50%Z xs = filter (fun x => (50 < x)%Z) xs.
Proof.
  induction xs as [|x xs IH]; [done|]. rewrite filter_cons. cbn [kept]. rewrite IH.
  unfold keep, asc_cmp. destruct (Z.leb_spec x 50); simpl; case_decide; done || lia.
Qed.

Lemma removed_le xs : removed asc_cmp 50%Z xs = filter (fun x => (x <= 50)%Z) xs.
Proof.
  induction xs as [|x xs IH]; [done|]. rewrite filter_cons. cbn [removed]. rewrite IH.
  unfold keep, asc_cmp. destruct (Z.leb_spec x 50); simpl; case_decide; done || lia.
Qed.

Lemma filter_weaken (P Q : Z -> Prop) `{!forall x, Decision (P x), !forall x, Decision (Q x)} xs :
  (forall x, P x -> Q x) -> filter P xs <> [] -> filter Q xs <> [].
Proof.
  intros HPQ. induction xs as [|x xs IH]; [done|]. rewrite !filter_cons.
  case_decide; [rewrite decide_True; auto|]. case_decide; auto.
Qed.

(** What test_list.c prints when no [calloc] fails, for the items [xs]
    of the random list: the list, its two sorted copies, the items
    [<= 50] and [>= 50] sorted and then joined, the number of items
    removed, and the items [> 50] sorted. *)
Definition expected_output (xs : list Z) : list out_line :=
  let le := filter (fun x => (x <= 50)%Z) xs in
  let ge := filter (fun x => (50 <= x)%Z) xs in
  let gt := filter (fun x => (50 < x)%Z) xs in
  [OutList (Printed "Random list:" (Z.of_nat (length xs)) xs);
   OutList (Printed "Sorted in ascending order:" (Z.of_nat (length xs)) (merge_sort Z.le xs));
   OutList (Printed "Sorted in descending order:" (Z.of_nat (length xs)) (merge_sort Z.ge xs));
   OutList (Printed "<= 50:" (Z.of_nat (length le)) (merge_sort Z.le le));
   OutList (Printed ">= 50:" (Z.of_nat (length ge)) (merge_sort Z.le ge));
   OutList (Printed "Joined again:" (Z.of_nat (length le + length ge))
              (merge_sort Z.le le ++ merge_sort Z.le ge));
   OutRemoved (Z.of_nat (length le));
   OutList (Printed "Random list:" (Z.of_nat (length gt)) (merge_sort Z.le gt))].

(** The items [main] hands to [free], in order: the items removed by
    [remove_from_list], then those of the random, ascending, descending
    and joined lists as [cleanup] deletes them. *)
Definition freed_items (xs : list Z) : list Z :=
  filter (fun x => (x <= 50)%Z) xs ++ merge_sort Z.le (filter (fun x => (50 < x)%Z) xs) ++
  merge_sort Z.le xs ++ merge_sort Z.ge xs ++
  merge_sort Z.le (filter (fun x => (x <= 50)%Z) xs) ++ merge_sort Z.le (filter (fun x => (50 <= x)%Z) xs).

Section MainProofs.
Context (api : ListAPI Z) (Hspec : ListSpec api) (rnd : nat -> Z).
Implicit Types (s : Mem Z) (A : alist Z).

Lemma no_fail_default (o : list bool) : false ∉ o -> default true (head o) = true.
Proof. destruct o as [|[] o]; [done|done|]. intros H. destruct H. left. Qed.

(** The filling loop appends one item per iteration, on a fresh node,
    when no [calloc] fails. *)
Lemma fill_list_run it : forall k s lp ls A,
  rep_at s lp ls A -> false ∉ oracle s -> (Z.of_nat (length ls + it) <= INT_MAX)%Z ->
  exists ls' s', fill_list api rnd it k (Some lp) s = Ok (k + it, s') /\
    rep_at s' lp (ls ++ ls') (AList (elems A ++ map (fun j => Z.rem (rnd j) 100) (seq k it)) (cursor A)) /\
    frame s s' [lp] (ls ++ ls') /\ (forall l, l ∈ ls' -> members s !! l = None) /\
    destroyed s' = destroyed s /\ (false ∉ oracle s').
Proof.
  induction it as [|it IH]; intros k s lp ls A Hr Hor Hb.
  - exists [], s. rewrite !app_nil_r, Nat.add_0_r. destruct A.
    split_and!; [done|done|split; [done|by intros l _]|set_solver_runs|done|done].
  - cbn [fill_list]. rewrite bind_run, calloc_ok_run, no_fail_default by done. cbv beta iota.
    destruct (spec_append _ Hspec (pop_oracle s) lp ls A (Z.rem (rnd k) 100) (rep_at_pop_oracle _ _ _ _ Hr))
      as (_ & _ & Happ).
    destruct Happ as (l & s1 & H1 & Hr1 & Hfr & [Hl1 _] & Ho1 & Hd1 & Hfp1);
      [apply no_fail_head, no_fail_tail, Hor|lia|].
    destruct (IH (S k) s1 lp (ls ++ [l]) (a_append (Z.rem (rnd k) 100) A))
      as (ls' & s' & H2 & Hr2 & F2 & Hfr2 & Hd2 & Ho2);
      [done|rewrite Ho1; by apply no_fail_tail, no_fail_tail|rewrite length_app; simpl; lia|].
    assert (F1 : frame s s1 [lp] (ls ++ [l])) by (split; [intros lq Hq; apply Hl1; set_solver_runs|exact Hfp1]).
    exists (l :: ls'), s'. rewrite bind_run, H1. cbv beta iota. rewrite H2.
    split_and!; [f_equal; f_equal; lia| | | |by rewrite Hd2, Hd1|done].
    + unfold a_append in Hr2. cbn [elems cursor] in Hr2. rewrite <- !app_assoc in Hr2. exact Hr2.
    + eapply frame_mono; [exact (frame_trans _ _ _ _ _ _ _ F1 F2)|set_solver_runs|set_solver_runs].
    + intros l' [->|Hin]%elem_of_cons; [exact Hfr|].
      apply (footprint_fresh_rep _ _ _ _ _ _ l' Hfp1 Hr1); [set_solver_runs|by apply Hfr2].
Qed.

(** A fresh list with fresh nodes: what [create_list], [search_in_list]
    and [duplicate_list] add. *)
Lemma owns_new s s' nl lsn :
  lists s !! nl = None -> (forall lq, lq <> nl -> lists s' !! lq = lists s !! lq) ->
  footprint s s' lsn -> (forall l, l ∈ lsn -> members s !! l = None) -> owns s s' [nl] lsn.
Proof.
  intros Hnl Hl Hfp Hfr. split_and!; [split; [intros lq Hq; apply Hl; set_solver_runs|done]| |done].
  intros l Hin. by assert (l = nl) as -> by set_solver_runs.
Qed.

(** test_list.c 63-76: the random list, printed in full. *)
Lemma build_random_run s :
  false ∉ oracle s ->
  exists lr lsr s1, build_random api rnd s =
      Ok ((Some lr, Printed "Random list:" (Z.of_nat (length (rand_items rnd))) (rand_items rnd)), s1) /\
    rep_at s1 lr lsr (AList (rand_items rnd) None) /\ owns s s1 [lr] lsr /\
    destroyed s1 = destroyed s /\ (false ∉ oracle s1).
Proof.
  intros Hor. destruct (spec_create _ Hspec s) as (lr & s1 & H1 & Hlr & Hr1 & Hm1 & Hl1 & Ho1 & Hd1);
    [by apply no_fail_head|].
  destruct (fill_list_run 20 0 s1 lr [] a_empty Hr1) as (lsr & s2 & H2 & Hr2 & F2 & Hfr2 & Hd2 & Ho2);
    [rewrite Ho1; by apply no_fail_tail|unfold INT_MAX; simpl; lia|].
  destruct (print_list_run api Hspec s2 lr lsr _ "Random list:" Hr2) as (s3 & H3 & Hr3 & Hs3).
  pose proof (owns_new s s1 lr [] Hlr Hl1 ltac:(intros l _; by rewrite Hm1) ltac:(set_solver_runs)) as O1.
  assert (O2 : owns s s2 [lr] lsr).
  { apply (owns_shrink _ _ ([lr] ++ [lr]) ([] ++ [] ++ lsr));
      [|intros l Hl; left; set_solver_runs|intros l Hl; left; set_solver_runs|set_solver_runs|set_solver_runs].
    apply (owns_grow _ _ _ _ _ _ _ O1 F2); [set_solver_runs|]. intros l Hl. right. apply Hfr2. set_solver_runs. }
  exists lr, lsr, s3. unfold build_random. rewrite bind_run, H1. cbv beta iota.
  rewrite bind_run, H2. cbv beta iota. rewrite bind_run, H3. pose proof Hs3 as (_ & Hd3 & Ho3 & _).
  split_and!; [reflexivity|exact Hr3|by apply (owns_cursor _ _ _ _ _ _ O2 Hs3); set_solver_runs|congruence|congruence].
Qed.

Lemma merge_sort_length (R : relation Z) `{!RelDecision R} xs : length (merge_sort R xs) = length xs.
Proof. apply Permutation_length, merge_sort_Permutation. Qed.

(** test_list.c 77-82: the two sorted copies, printed; the random list
    is kept. *)
Lemma copies_run s lr lsr xs :
  rep_at s lr lsr (AList xs None) -> xs <> [] -> false ∉ oracle s ->
  exists la lsa ld lsd s', copies api (Some lr) s =
      Ok ((Some la, Some ld,
           [Printed "Sorted in ascending order:" (Z.of_nat (length xs)) (merge_sort Z.le xs);
            Printed "Sorted in descending order:" (Z.of_nat (length xs)) (merge_sort Z.ge xs)]), s') /\
    rep_at s' lr lsr (AList xs None) /\ rep_at s' la lsa (AList (merge_sort Z.le xs) None) /\
    rep_at s' ld lsd (AList (merge_sort Z.ge xs) None) /\
    la <> lr /\ ld <> lr /\ ld <> la /\ lsr ## lsa /\ lsr ## lsd /\ lsa ## lsd /\
    owns s s' [la; ld] (lsa ++ lsd) /\ destroyed s' = destroyed s /\ (false ∉ oracle s').
Proof.
  intros Hr Hne Hor.
  destruct (sorted_copy_run api Hspec s lr lsr (AList xs None) (fun x => x) asc_cmp Hr Hne Hor)
    as (la & lsa & ys & s1 & H1 & Hra & Hsa & Hpa & Hr1 & Hla & [Hl1 _] & Hfp1 & Hfa & Ho1 & Hd1).
  rewrite map_id in Hpa. pose proof (sorted_asc_unique _ _ Hsa Hpa); subst ys. cbv beta in H1.
  pose proof (rep_at_fresh_addr _ _ _ _ _ Hr Hla) as Hne1.
  destruct (print_list_run api Hspec s1 la lsa _ "Sorted in ascending order:" Hra) as (s2 & H2 & Hra2 & Hs2).
  pose proof (rep_at_cursor_step _ _ _ _ _ _ Hs2 Hne1 Hr1) as Hr2. pose proof Hs2 as (_ & Hd2 & Ho2 & _).
  destruct (sorted_copy_run api Hspec s2 lr lsr (AList xs None) (fun x => x) desc_cmp Hr2 Hne)
    as (ld & lsd & zs & s3 & H3 & Hrd & Hsd & Hpd & Hr3 & Hld & Hu3 & Hfp3 & Hfd & Ho3 & Hd3); [congruence|].
  rewrite map_id in Hpd. pose proof (sorted_desc_unique _ _ Hsd Hpd); subst zs. cbv beta in H3.
  pose proof (rep_at_fresh_addr _ _ _ _ _ Hr2 Hld) as Hne2.
  pose proof (rep_at_fresh_addr _ _ _ _ _ Hra2 Hld) as Hne3.
  assert (Hra3 : rep_at s3 la lsa (AList (merge_sort Z.le xs) None))
    by (eapply rep_at_untouched; [exact Hu3|exact Hne3|set_solver_runs|exact Hra2]).
  destruct (print_list_run api Hspec s3 ld lsd _ "Sorted in descending order:" Hrd) as (s4 & H4 & Hrd4 & Hs4).
  pose proof Hs4 as (_ & Hd4 & Ho4 & _).
  pose proof (owns_cursor _ _ _ _ _ _ (owns_new _ _ _ _ Hla Hl1 Hfp1 Hfa) Hs2 ltac:(set_solver_runs)) as O2.
  pose proof (owns_new _ _ _ _ Hld (proj1 Hu3) Hfp3 Hfd) as O3.
  exists la, lsa, ld, lsd, s4. unfold copies, duplicate_number.
  rewrite bind_run, H1. cbv beta iota. rewrite bind_run, H2. cbv beta iota.
  rewrite bind_run, H3. cbv beta iota. rewrite bind_run, H4. cbv beta iota.
  unfold ret, a_remaining. cbn [elems cursor drop]. rewrite !merge_sort_length.
  split_and!; [reflexivity| | |exact Hrd4|congruence|congruence|congruence| | | | |congruence|congruence].
  - by apply (rep_at_cursor_step _ _ _ _ _ _ Hs4).
  - by apply (rep_at_cursor_step _ _ _ _ _ _ Hs4).
  - exact (rep_at_fresh_disjoint _ _ _ _ _ Hr Hfa).
  - exact (rep_at_fresh_disjoint _ _ _ _ _ Hr2 Hfd).
  - exact (rep_at_fresh_disjoint _ _ _ _ _ Hra2 Hfd).
  - exact (owns_cursor _ _ _ _ _ _ (owns_trans _ _ _ _ _ _ _ O2 O3) Hs4 ltac:(set_solver_runs)).
Qed.

(** [less = search_in_list(random, crit, &reference, duplicate_number);
    sort_list(less, sort_asc); print_list(less, title);]: the block of
    test_list.c 83-85 and 86-88. *)
Lemma search_sort_print_run s lr lsr xs (crit : Z -> Z -> Z) (t : string) :
  rep_at s lr lsr (AList xs None) -> false ∉ oracle s -> selected crit 50%Z duplicate_number xs <> [] ->
  exists nl lsn s1 s2 s3,
    search_in_list_op api (Some lr) (Some crit) 50%Z (Some duplicate_number) s = Ok (Some nl, s1) /\
    sort_list_op api (Some nl) (Some asc_cmp) s1 = Ok (Some nl, s2) /\
    print_list api (Some nl) t s2 =
      Ok (Printed t (Z.of_nat (length (selected crit 50%Z duplicate_number xs)))
                    (merge_sort Z.le (selected crit 50%Z duplicate_number xs)), s3) /\
    rep_at s3 nl lsn (AList (merge_sort Z.le (selected crit 50%Z duplicate_number xs)) None) /\
    owns s s3 [nl] lsn /\ destroyed s3 = destroyed s /\ (false ∉ oracle s3).
Proof.
  intros Hr Hor Hsel.
  destruct (spec_search _ Hspec Z crit 50%Z duplicate_number s lr lsr (AList xs None) Hr) as [_ Hsome];
    [cbn; intros ->; done|done|].
  destruct (Hsome Hsel) as (nl & lsn & s1 & H1 & Hnl & Hr1 & _ & Hls1 & Hfp1 & Hf1 & Hd1 & Ho1).
  destruct (spec_sort _ Hspec s1 nl lsn _ asc_cmp _ Hr1 Hsel)
    as (ys & s2 & H2 & Hr2 & Hs & Hp & (Hl2 & Ho2 & Hd2) & Hm2).
  pose proof (sorted_asc_unique _ _ Hs Hp); subst ys.
  destruct (print_list_run api Hspec s2 nl lsn _ t Hr2) as (s3 & H3 & Hr3 & Hs3).
  pose proof Hs3 as (_ & Hd3 & Ho3 & _).
  assert (O2 : owns s s2 [nl] lsn).
  { apply (owns_step _ _ _ _ _ [] lsn (owns_new _ _ _ _ Hnl Hls1 Hfp1 Hf1)); [|set_solver_runs|set_solver_runs].
    split; [intros lq _; by rewrite Hl2|exact Hm2]. }
  exists nl, lsn, s1, s2, s3. split_and!; [exact H1|exact H2| |exact Hr3| |congruence|congruence].
  - rewrite H3. unfold a_remaining. cbn [elems cursor drop]. by rewrite merge_sort_length.
  - exact (owns_cursor _ _ _ _ _ _ O2 Hs3 ltac:(set_solver_runs)).
Qed.

(** test_list.c 83-90: the items [<= 50] and [>= 50], each sorted and
    printed, then joined and printed; the block owns the joined list and
    its nodes, the second container having been freed by the join. *)
Lemma split_join_run s lr lsr xs :
  rep_at s lr lsr (AList xs None) -> false ∉ oracle s ->
  filter (fun x => (x <= 50)%Z) xs <> [] -> filter (fun x => (50 <= x)%Z) xs <> [] ->
  (Z.of_nat (2 * length xs) <= INT_MAX)%Z ->
  exists lj lsj s', split_join api (Some lr) s =
      Ok ((Some lj,
           [Printed "<= 50:" (Z.of_nat (length (filter (fun x => (x <= 50)%Z) xs)))
              (merge_sort Z.le (filter (fun x => (x <= 50)%Z) xs));
            Printed ">= 50:" (Z.of_nat (length (filter (fun x => (50 <= x)%Z) xs)))
              (merge_sort Z.le (filter (fun x => (50 <= x)%Z) xs));
            Printed "Joined again:"
              (Z.of_nat (length (filter (fun x => (x <= 50)%Z) xs) + length (filter (fun x => (50 <= x)%Z) xs)))
              (merge_sort Z.le (filter (fun x => (x <= 50)%Z) xs) ++
               merge_sort Z.le (filter (fun x => (50 <= x)%Z) xs))]), s') /\
    rep_at s' lj lsj (AList (merge_sort Z.le (filter (fun x => (x <= 50)%Z) xs) ++
                             merge_sort Z.le (filter (fun x => (50 <= x)%Z) xs)) None) /\
    owns s s' [lj] lsj /\ destroyed s' = destroyed s /\ (false ∉ oracle s').
Proof.
  intros Hr Hor Hle Hge Hb.
  destruct (search_sort_print_run s lr lsr xs asc_cmp "<= 50:" Hr Hor) as
    (nl1 & lsn1 & s1 & s2 & s3 & E1 & E2 & E3 & Hr3 & O3 & Hd3 & Ho3); [by rewrite selected_le|].
  rewrite selected_le in E3, Hr3.
  destruct (search_sort_print_run s3 lr lsr xs desc_cmp ">= 50:" (owns_rep _ _ _ _ _ _ _ O3 Hr) Ho3) as
    (nl2 & lsn2 & s4 & s5 & s6 & E4 & E5 & E6 & Hr6 & O6 & Hd6 & Ho6); [by rewrite selected_ge|].
  rewrite selected_ge in E6, Hr6.
  pose proof (owns_rep _ _ _ _ _ _ _ O6 Hr3) as Hr3'. pose proof O6 as (_ & Hnl2 & Hf2).
  pose proof (rep_at_fresh_addr _ _ _ _ _ Hr3 (Hnl2 nl2 ltac:(set_solver_runs))) as Hne.
  pose proof (rep_at_fresh_disjoint _ _ _ _ _ Hr3 Hf2) as Hdisj.
  destruct (spec_join _ Hspec s6 nl1 nl2 lsn1 lsn2 _ _ Hr3' Hr6 Hne Hdisj) as
    (s7 & E7 & Hr7 & Hgone & Hl7 & Hfp7 & Ho7 & Hd7).
  { right. intros ->. destruct Hr6 as (L & _ & Hok). pose proof (list_ok_length _ _ _ _ Hok) as Hlen.
    cbn [elems] in Hlen. rewrite merge_sort_length in Hlen. apply Hge, nil_length_inv. by rewrite <- Hlen. }
  { destruct Hr3 as (L & _ & Hok). destruct Hr6 as (L' & _ & Hok').
    rewrite (list_ok_length _ _ _ _ Hok), (list_ok_length _ _ _ _ Hok'). cbn [elems].
    rewrite !merge_sort_length. pose proof (length_filter (fun x => (x <= 50)%Z) xs).
    pose proof (length_filter (fun x => (50 <= x)%Z) xs). lia. }
  destruct (print_list_run api Hspec s7 nl1 _ _ "Joined again:" Hr7) as (s8 & E8 & Hr8 & Hs8).
  pose proof Hs8 as (_ & Hd8 & Ho8 & _).
  assert (O7 : owns s s7 [nl1] (lsn1 ++ lsn2)).
  { apply (owns_shrink _ _ ([nl1] ++ [nl2]) (lsn1 ++ lsn2)); [|intros l Hl|intros l Hl; left|set_solver_runs..].
    - apply (owns_step _ _ _ _ _ [nl1; nl2] lsn1 (owns_trans _ _ _ _ _ _ _ O3 O6)); [|set_solver_runs|set_solver_runs].
      split; [intros lq Hq; apply Hl7; set_solver_runs|exact Hfp7].
    - destruct (decide (l = nl1)) as [->|?]; [left; set_solver_runs|right].
      by assert (l = nl2) as -> by set_solver_runs.
    - done. }
  exists nl1, (lsn1 ++ lsn2), s8. unfold split_join.
  rewrite bind_run, E1. cbv beta iota. rewrite bind_run, E2. cbv beta iota. rewrite bind_run, E3. cbv beta iota.
  rewrite bind_run, E4. cbv beta iota. rewrite bind_run, E5. cbv beta iota. rewrite bind_run, E6. cbv beta iota.
  rewrite bind_run, E7. cbv beta iota. rewrite bind_run, E8. cbv beta iota.
  unfold a_join, a_remaining in *. cbn [elems cursor drop] in *. rewrite length_app, !merge_sort_length.
  split_and!; [reflexivity|exact Hr8|exact (owns_cursor _ _ _ _ _ _ O7 Hs8 ltac:(set_solver_runs))|congruence|congruence].
Qed.

(** test_list.c 91-94: the items [<= 50] are removed and freed, the
    rest sorted and printed; only the random list changes, and each of
    its nodes is kept or freed. *)
Lemma prune_run s lr lsr xs :
  rep_at s lr lsr (AList xs None) -> false ∉ oracle s -> filter (fun x => (50 < x)%Z) xs <> [] ->
  exists lsr' s', prune api (Some lr) s =
      Ok ([OutRemoved (Z.of_nat (length (filter (fun x => (x <= 50)%Z) xs)));
           OutList (Printed "Random list:" (Z.of_nat (length (filter (fun x => (50 < x)%Z) xs)))
                      (merge_sort Z.le (filter (fun x => (50 < x)%Z) xs)))], s') /\
    rep_at s' lr lsr' (AList (merge_sort Z.le (filter (fun x => (50 < x)%Z) xs)) None) /\
    lsr' ⊆ lsr /\ frame s s' [lr] lsr /\ (forall l, l ∈ lsr -> l ∈ lsr' \/ members s' !! l = None) /\
    destroyed s' = destroyed s ++ filter (fun x => (x <= 50)%Z) xs /\ (false ∉ oracle s').
Proof.
  intros Hr Hor Hgt. pose proof Hr as (L & _ & Hok). pose proof (list_ok_length _ _ _ _ Hok) as Hlen.
  destruct (spec_remove _ Hspec Z asc_cmp 50%Z (Some free_item) s lr lsr (AList xs None) Hr)
    as (s1 & E1 & Hr1 & Hl1 & Hm1 & Hrm1 & Ho1 & Hd1); [cbn; intros ->; by apply Hgt|done|].
  cbn [elems cursor remap_cursor destroyed_items] in E1, Hr1, Hd1, Hlen.
  rewrite removed_le in E1, Hd1. rewrite kept_gt in Hr1.
  destruct (spec_sort _ Hspec s1 lr _ _ asc_cmp _ Hr1 Hgt)
    as (ys & s2 & E2 & Hr2 & Hs & Hp & (Hl2 & Ho2 & Hd2) & Hm2).
  pose proof (sorted_asc_unique _ _ Hs Hp); subst ys.
  destruct (print_list_run api Hspec s2 lr _ _ "Random list:" Hr2) as (s3 & E3 & Hr3 & Hs3).
  pose proof Hs3 as (Hm3 & Hd3 & Ho3 & _).
  exists (kept_locs asc_cmp 50%Z lsr xs), s3. unfold prune.
  rewrite bind_run, E1. cbv beta iota. rewrite bind_run, E2. cbv beta iota. rewrite bind_run, E3.
  unfold a_remaining. cbn [elems cursor drop]. rewrite merge_sort_length.
  split_and!; [reflexivity|exact Hr3|intros l; apply kept_locs_subseteq| | |congruence|congruence].
  - assert (F1 : frame s s1 [lr] lsr) by (split; [intros lq Hq; apply Hl1; set_solver_runs|exact Hm1]).
    assert (F2 : frame s1 s2 [] lsr).
    { split; [intros lq _; by rewrite Hl2|]. intros l Hl. apply Hm2. by intros ?%kept_locs_subseteq. }
    eapply frame_mono; [exact (frame_trans _ _ _ _ _ _ _ (frame_trans _ _ _ _ _ _ _ F1 F2)
                                 (cursor_step_frame _ _ _ Hs3))|set_solver_runs|set_solver_runs].
  - intros l Hl. destruct (decide (l ∈ kept_locs asc_cmp 50%Z lsr xs)) as [?|Hk]; [by left|right].
    destruct (locs_split asc_cmp 50%Z lsr xs l) as [?|Hrm]; [done|done|done|].
    by rewrite Hm3, Hm2, Hrm1.
Qed.

(** One [delete_list(list, free)] of test_list.c 95-98 on a list whose
    nodes no other list shares: the container and its nodes are freed. *)
Lemma delete_run s lp ls A :
  rep_at s lp ls A ->
  exists s', delete_list_op api (Some lp) (Some free_item) s = Ok (tt, s') /\
    frame s s' [lp] ls /\ lists s' !! lp = None /\ (forall l, l ∈ ls -> members s' !! l = None) /\
    destroyed s' = destroyed s ++ elems A.
Proof.
  intros Hr. destruct (spec_delete _ Hspec s lp ls A (Some free_item) Hr) as (s' & E & Hl & _ & Hm & Hd).
  exists s'. split_and!; [done|by apply delete_frame|by rewrite Hl, lookup_delete_eq| |done].
  intros l Hin. by rewrite Hm, decide_True.
Qed.

(** test_list.c 95-99: the four lists are deleted, [free] running on
    every item of each in turn, and [main] returns 0; the four
    containers and all their nodes are freed. *)
Lemma cleanup_run s l1 ls1 A1 l2 ls2 A2 l3 ls3 A3 l4 ls4 A4 :
  rep_at s l1 ls1 A1 -> rep_at s l2 ls2 A2 -> rep_at s l3 ls3 A3 -> rep_at s l4 ls4 A4 ->
  l2 <> l1 -> l3 <> l1 -> l3 <> l2 -> l4 <> l1 -> l4 <> l2 -> l4 <> l3 ->
  ls2 ## ls1 -> ls3 ## ls1 -> ls3 ## ls2 -> ls4 ## ls1 -> ls4 ## ls2 -> ls4 ## ls3 ->
  exists s', cleanup api (Some l1) (Some l2) (Some l3) (Some l4) s = Ok (0%Z, s') /\
    frame s s' [l1; l2; l3; l4] (ls1 ++ ls2 ++ ls3 ++ ls4) /\
    (forall l, l ∈ [l1; l2; l3; l4] -> lists s' !! l = None) /\
    (forall l, l ∈ ls1 ++ ls2 ++ ls3 ++ ls4 -> members s' !! l = None) /\
    destroyed s' = destroyed s ++ elems A1 ++ elems A2 ++ elems A3 ++ elems A4.
Proof.
  intros H1 H2 H3 H4 ? ? ? ? ? ? ? ? ? ? ? ?.
  destruct (delete_run s l1 ls1 A1 H1) as (s1 & E1 & F1 & N1 & M1 & D1).
  destruct (delete_run s1 l2 ls2 A2) as (s2 & E2 & F2 & N2 & M2 & D2); [apply (frame_rep _ _ _ _ _ _ _ F1); [set_solver_runs|done|done]|].
  destruct (delete_run s2 l3 ls3 A3) as (s3 & E3 & F3 & N3 & M3 & D3).
  { apply (frame_rep _ _ _ _ _ _ _ F2); [set_solver_runs|done|]. apply (frame_rep _ _ _ _ _ _ _ F1); [set_solver_runs|done|done]. }
  destruct (delete_run s3 l4 ls4 A4) as (s4 & E4 & F4 & N4 & M4 & D4).
  { apply (frame_rep _ _ _ _ _ _ _ F3); [set_solver_runs|done|]. apply (frame_rep _ _ _ _ _ _ _ F2); [set_solver_runs|done|].
    apply (frame_rep _ _ _ _ _ _ _ F1); [set_solver_runs|done|done]. }
  exists s4. unfold cleanup. rewrite bind_run, E1. cbv beta iota. rewrite bind_run, E2. cbv beta iota.
  rewrite bind_run, E3. cbv beta iota. rewrite bind_run, E4.
  split_and!; [done|exact (frame_trans _ _ _ _ _ _ _ F1 (frame_trans _ _ _ _ _ _ _ F2 (frame_trans _ _ _ _ _ _ _ F3 F4)))| | |].
  - intros l Hl. assert (l = l1 \/ l = l2 \/ l = l3 \/ l = l4) as [-> | [-> | [-> | ->]]] by set_solver_runs; [| | |done].
    + apply (frame_lists_none _ _ _ _ _ F4); [set_solver_runs|]. apply (frame_lists_none _ _ _ _ _ F3); [set_solver_runs|].
      apply (frame_lists_none _ _ _ _ _ F2); [set_solver_runs|done].
    + apply (frame_lists_none _ _ _ _ _ F4); [set_solver_runs|]. apply (frame_lists_none _ _ _ _ _ F3); [set_solver_runs|done].
    + apply (frame_lists_none _ _ _ _ _ F4); [set_solver_runs|done].
  - intros l Hl. rewrite !elem_of_app in Hl. destruct Hl as [Hl|[Hl|[Hl|Hl]]]; [| | |by apply M4].
    + apply (frame_members_none _ _ _ _ _ F4); [set_solver_runs|]. apply (frame_members_none _ _ _ _ _ F3); [set_solver_runs|].
      apply (frame_members_none _ _ _ _ _ F2); [set_solver_runs|by apply M1].
    + apply (frame_members_none _ _ _ _ _ F4); [set_solver_runs|]. apply (frame_members_none _ _ _ _ _ F3); [set_solver_runs|by apply M2].
    + apply (frame_members_none _ _ _ _ _ F4); [set_solver_runs|by apply M3].
  - by rewrite D4, D3, D2, D1, <- !app_assoc.
Qed.

(** The allocation accounting of [main]: what the first three blocks
    own is kept or freed by [prune] and then freed by [cleanup]. *)
Lemma main_owns_end s s3 s4 s5 lr la ld lj lsr lsr' lsa lsd lsj :
  owns s s3 (([lr] ++ [la; ld]) ++ [lj]) ((lsr ++ (lsa ++ lsd)) ++ lsj) ->
  frame s3 s4 [lr] lsr -> lsr' ⊆ lsr -> (forall l, l ∈ lsr -> l ∈ lsr' \/ members s4 !! l = None) ->
  frame s4 s5 [lr; la; ld; lj] (lsr' ++ lsa ++ lsd ++ lsj) ->
  (forall l, l ∈ [lr; la; ld; lj] -> lists s5 !! l = None) ->
  (forall l, l ∈ lsr' ++ lsa ++ lsd ++ lsj -> members s5 !! l = None) ->
  owns s s5 [] [].
Proof.
  intros O3 F4 Hsub Hk F5 N5 M5.
  pose proof (owns_step _ _ _ _ _ _ _ O3 F4 ltac:(set_solver_runs) ltac:(set_solver_runs)) as O4.
  assert (O4' : owns s s4 [lr; la; ld; lj] (lsr' ++ lsa ++ lsd ++ lsj)).
  { apply (owns_shrink _ _ _ _ _ _ O4); [intros l Hl; left; set_solver_runs| |set_solver_runs|set_solver_runs].
    intros l Hl. rewrite !elem_of_app in Hl. destruct Hl as [[Hl|[Hl|Hl]]|Hl];
      [destruct (Hk l Hl) as [?|?]; [left; set_solver_runs|by right]|left; set_solver_runs..]. }
  apply (owns_shrink _ _ _ _ _ _ (owns_step _ _ _ _ _ _ _ O4' F5 ltac:(set_solver_runs) ltac:(set_solver_runs)));
    [intros l Hl; right; by apply N5|intros l Hl; right; by apply M5|set_solver_runs|set_solver_runs].
Qed.

(** The run of [main] when no [calloc] fails and the random items fall
    on both sides of 50. *)
Lemma main_run s :
  false ∉ oracle s ->
  filter (fun x => (x <= 50)%Z) (rand_items rnd) <> [] ->
  filter (fun x => (50 < x)%Z) (rand_items rnd) <> [] ->
  exists s', main api rnd s = Ok ((0%Z, expected_output (rand_items rnd)), s') /\
    lists s' = lists s /\ members s' = members s /\
    destroyed s' = destroyed s ++ freed_items (rand_items rnd).
Proof.
  intros Hor Hle Hgt. set (xs := rand_items rnd) in *.
  assert (Hne : xs <> []) by (intros Hx; apply Hle; by rewrite Hx).
  assert (Hge : filter (fun x => (50 <= x)%Z) xs <> []) by (revert Hgt; apply filter_weaken; lia).
  assert (Hb : (Z.of_nat (2 * length xs) <= INT_MAX)%Z)
    by (subst xs; unfold rand_items, INT_MAX; rewrite length_map, length_seq; lia).
  destruct (build_random_run s Hor) as (lr & lsr & s1 & E1 & Hr1 & O1 & D1 & Ho1).
  destruct (copies_run s1 lr lsr xs Hr1 Hne Ho1)
    as (la & lsa & ld & lsd & s2 & E2 & Hr2 & Ha2 & Hd2 & ? & ? & ? & ? & ? & ? & O2 & D2 & Ho2).
  destruct (split_join_run s2 lr lsr xs Hr2 Ho2 Hle Hge Hb) as (lj & lsj & s3 & E3 & Hj3 & O3 & D3 & Ho3).
  pose proof O3 as (_ & Hlj & Hfj). pose proof (Hlj lj ltac:(set_solver_runs)) as Hlj'.
  pose proof (rep_at_fresh_addr _ _ _ _ _ Hr2 Hlj'). pose proof (rep_at_fresh_addr _ _ _ _ _ Ha2 Hlj').
  pose proof (rep_at_fresh_addr _ _ _ _ _ Hd2 Hlj'). pose proof (rep_at_fresh_disjoint _ _ _ _ _ Hr2 Hfj).
  pose proof (rep_at_fresh_disjoint _ _ _ _ _ Ha2 Hfj). pose proof (rep_at_fresh_disjoint _ _ _ _ _ Hd2 Hfj).
  destruct (prune_run s3 lr lsr xs (owns_rep _ _ _ _ _ _ _ O3 Hr2) Ho3 Hgt)
    as (lsr' & s4 & E4 & Hr4 & Hsub & F4 & Hk4 & D4 & Ho4).
  destruct (cleanup_run s4 lr lsr' _ la lsa (AList (merge_sort Z.le xs) None) ld lsd
              (AList (merge_sort Z.ge xs) None) lj lsj
              (AList (merge_sort Z.le (filter (fun x => (x <= 50)%Z) xs) ++
                      merge_sort Z.le (filter (fun x => (50 <= x)%Z) xs)) None) Hr4)
    as (s5 & E5 & F5 & N5 & M5 & D5).
  { apply (frame_rep _ _ _ _ _ _ _ F4); [set_solver_runs|set_solver_runs|]. by apply (owns_rep _ _ _ _ _ _ _ O3). }
  { apply (frame_rep _ _ _ _ _ _ _ F4); [set_solver_runs|set_solver_runs|]. by apply (owns_rep _ _ _ _ _ _ _ O3). }
  { apply (frame_rep _ _ _ _ _ _ _ F4); [set_solver_runs|set_solver_runs|exact Hj3]. }
  all: try congruence. 1-6: set_solver_runs.
  destruct (owns_nil _ _ (main_owns_end _ _ _ _ _ _ _ _ _ _ _ _ _
    (owns_trans _ _ _ _ _ _ _ (owns_trans _ _ _ _ _ _ _ O1 O2) O3) F4 Hsub Hk4 F5 N5 M5)) as [Hl Hm].
  exists s5. split_and!; [|exact Hl|exact Hm|].
  - unfold main. rewrite bind_run, E1. cbv beta iota. rewrite bind_run, E2. cbv beta iota.
    rewrite bind_run, E3. cbv beta iota. rewrite bind_run, E4. cbv beta iota. rewrite bind_run, E5. reflexivity.
  - rewrite D5, D4, D3, D2, D1. unfold freed_items. by rewrite <- !app_assoc.
Qed.

End MainProofs.

Lemma rand_items_length rnd : length (rand_items rnd) = 20.
Proof. unfold rand_items. by rewrite length_map, length_seq. Qed.

(** The run of [main] on liblist when no random item is [<= 50]. *)
Lemma main_null_run rnd s :
  false ∉ oracle s -> filter (fun x => (x <= 50)%Z) (rand_items rnd) = [] ->
  main liblist rnd s = Fault NullDeref.
Proof.
  intros Hor Hle.
  destruct (build_random_run liblist liblist_spec_run rnd s Hor) as (lr & lsr & s1 & E1 & Hr1 & _ & _ & Ho1).
  assert (Hne : rand_items rnd <> []) by (intros H; pose proof (rand_items_length rnd) as L; by rewrite H in L).
  destruct (copies_run liblist liblist_spec_run s1 lr lsr _ Hr1 Hne Ho1)
    as (la & lsa & ld & lsd & s2 & E2 & Hr2 & _ & _ & _ & _ & _ & _ & _ & _ & _ & _ & Ho2).
  destruct (spec_search _ liblist_spec_run Z asc_cmp 50%Z duplicate_number s2 lr lsr _ Hr2 Hne Ho2)
    as [Hnone _].
  unfold main. rewrite bind_run, E1. cbv beta iota. rewrite bind_run, E2. cbv beta iota.
  unfold split_join. rewrite bind_run, bind_run, Hnone by (by rewrite selected_le). reflexivity.
Qed.

(** C10: what test_list.c does.  Run over any implementation of
    liblist.h that meets [ListSpec], when no [calloc] fails and the
    twenty random items fall on both sides of 50, [main] returns 0 after
    printing the random list, its two sorted copies, the items [<= 50]
    and [>= 50] each sorted and then joined, the number of items [<= 50]
    removed, and the remaining items sorted ([expected_output]); it
    leaks nothing: every container and every member it allocates is
    freed, so the heap ends as it began, and [free] runs on the removed
    items and then on every item of the four deleted lists
    ([freed_items]). *)
Theorem main_prints (api : ListAPI Z) (Hspec : ListSpec api) rnd s :
  false ∉ oracle s ->
  filter (fun x => (x <= 50)%Z) (rand_items rnd) <> [] ->
  filter (fun x => (50 < x)%Z) (rand_items rnd) <> [] ->
  exists s', main api rnd s = Ok ((0%Z, expected_output (rand_items rnd)), s') /\
    lists s' = lists s /\ members s' = members s /\
    destroyed s' = destroyed s ++ freed_items (rand_items rnd).
Proof. apply main_run, Hspec. Qed.

(** The run of [main] on liblist when some random item is [<= 50] but
    none is [>= 50]. *)
Lemma main_null_more_run rnd s :
  false ∉ oracle s -> filter (fun x => (x <= 50)%Z) (rand_items rnd) <> [] ->
  filter (fun x => (50 <= x)%Z) (rand_items rnd) = [] ->
  main liblist rnd s = Fault NullDeref.
Proof.
  intros Hor Hle Hge.
  destruct (build_random_run liblist liblist_spec_run rnd s Hor) as (lr & lsr & s1 & E1 & Hr1 & _ & _ & Ho1).
  assert (Hne : rand_items rnd <> []) by (intros H; apply Hle; by rewrite H).
  destruct (copies_run liblist liblist_spec_run s1 lr lsr _ Hr1 Hne Ho1)
    as (la & lsa & ld & lsd & s2 & E2 & Hr2 & _ & _ & _ & _ & _ & _ & _ & _ & _ & _ & Ho2).
  destruct (search_sort_print_run liblist liblist_spec_run s2 lr lsr _ asc_cmp "<= 50:" Hr2 Ho2)
    as (nl1 & lsn1 & s3 & s4 & s5 & E3 & E4 & E5 & _ & O5 & _ & Ho5); [by rewrite selected_le|].
  destruct (spec_search _ liblist_spec_run Z desc_cmp 50%Z duplicate_number s5 lr lsr _
              (owns_rep _ _ _ _ _ _ _ O5 Hr2) Hne Ho5) as [Hnone _].
  unfold main. rewrite bind_run, E1. cbv beta iota. rewrite bind_run, E2. cbv beta iota.
  unfold split_join. rewrite bind_run, bind_run, E3. cbv beta iota. rewrite bind_run, E4. cbv beta iota.
  rewrite bind_run, E5. cbv beta iota. rewrite bind_run, Hnone by (by rewrite selected_ge).
  reflexivity.
Qed.

Lemma fill_list_S (api : ListAPI Z) rnd it k random :
  fill_list api rnd (S it) k random =
  (let* number := calloc_ok in
   if number then
     let* _ := append_to_list_op api random (Some (Z.rem (rnd k) 100)) in
     fill_list api rnd it (S k) random
   else fill_list api rnd it k random).
Proof. reflexivity. Qed.

(** [build_random] on liblist when the [calloc] of [create_list] fails
    and the following ones succeed. *)
Lemma build_random_create_fail rnd s o :
  oracle s = false :: o -> false ∉ o -> build_random liblist rnd s = Fault NullDeref.
Proof.
  intros Ho Hno. unfold build_random. rewrite bind_run. cbn [create_list_op liblist].
  rewrite create_list_run_fail by (by rewrite Ho). cbv beta iota. rewrite bind_run.
  rewrite fill_list_S, bind_run, calloc_ok_run. cbn [pop_oracle oracle]. rewrite Ho. cbn [tail].
  rewrite no_fail_default by done. cbv beta iota. rewrite bind_run. cbn [append_to_list_op liblist].
  unfold append_to_list. rewrite bind_run, alloc_member_run_ok; [reflexivity|].
  cbn [pop_oracle oracle]. rewrite Ho. cbn [tail]. by apply no_fail_head, no_fail_tail.
Qed.

(** C19: test_list.c does not check the result of [search_in_list]:
    when no random item is [<= 50] (or none is [>= 50]), the search of
    line 83 (or 86) returns NULL, [sort_list] returns NULL too, and
    [print_list] (line 85, or 88) passes it to [list_size], which
    dereferences it. *)
Theorem main_null_search rnd s :
  false ∉ oracle s ->
  filter (fun x => (x <= 50)%Z) (rand_items rnd) = [] \/
  filter (fun x => (50 <= x)%Z) (rand_items rnd) = [] ->
  main liblist rnd s = Fault NullDeref.
Proof.
  intros Hor [Hle|Hge]; [by apply main_null_run|].
  destruct (decide (filter (fun x => (x <= 50)%Z) (rand_items rnd) = [])); [by apply main_null_run|].
  by apply main_null_more_run.
Qed.

(** C20: test_list.c does not check the result of [create_list]
    (line 65): when its [calloc] fails, the first iteration of the
    filling loop hands the NULL list to [append_to_list], which checks
    the item but not the list and dereferences NULL. *)
Theorem main_create_fail rnd s o :
  oracle s = false :: o -> false ∉ o -> main liblist rnd s = Fault NullDeref.
Proof. intros Ho Hno. unfold main. by rewrite bind_run, (build_random_create_fail rnd s o). Qed.

(** ** Witnesses *)

(** A deterministic [rand]. *)
Definition demo_rand (k : nat) : Z := Z.of_nat ((k * 37 + 11) mod 101).

Lemma main_prints_witness :
  exists s', main liblist demo_rand (demo_mem []) =
    Ok ((0%Z, expected_output (rand_items demo_rand)), s') /\
    lists s' = lists (demo_mem []) /\ members s' = members (demo_mem []) /\
    destroyed s' = destroyed (demo_mem []) ++ freed_items (rand_items demo_rand).
Proof.
  apply (main_prints liblist liblist_spec_run demo_rand (demo_mem []));
    [apply not_elem_of_nil|vm_compute; discriminate|vm_compute; discriminate].
Defined.

Lemma main_null_search_witness :
  main liblist (fun _ => 77%Z) (demo_mem []) = Fault NullDeref.
Proof.
  apply (main_null_search (fun _ => 77%Z) (demo_mem [])); [apply not_elem_of_nil|left; vm_compute; reflexivity].
Defined.

Lemma main_create_fail_witness :
  main liblist demo_rand (with_oracle (demo_mem []) [false]) = Fault NullDeref.
Proof. apply (main_create_fail demo_rand (with_oracle (demo_mem []) [false]) []); [done|apply not_elem_of_nil]. Defined.
