(* ===== verification/Invariant.v ===== *)
(** The heap invariant of the library as a whole: every live container
    represents a well-formed list, and no member belongs to two lists.
    Library calls are the steps of a transition relation [lib_step] on
    heaps, one constructor per public function of liblist.h with the
    preconditions the code needs; the invariant holds of every heap
    reachable by such calls, by induction on the steps.  The two
    preconditions that the code does not check itself, on [join_lists]
    and on [remove_from_list], are exactly the cases where [Join] and
    [Remove] show the invariant broken. *)

From S2P Require Import Prelude Spec Heap Chain Fixtures Append Iter Bubble Sort Join Delete Search Duplicate Remove.

Section Invariant.
Context {Item : Type}.
Implicit Types (s : Mem Item) (R : gmap positive (list positive)).

(** [R] gives the nodes of each live container. *)
Record heap_wf_by s R : Prop := {
  hw_dom : forall lp, is_Some (R !! lp) <-> is_Some (lists s !! lp);
  hw_rep : forall lp ls, R !! lp = Some ls -> exists A, rep_at s lp ls A;
  hw_disj : forall lp lq ls ls', lp <> lq -> R !! lp = Some ls -> R !! lq = Some ls' -> ls ## ls'
}.

Definition heap_wf s : Prop := exists R, heap_wf_by s R.

Lemma heap_wf_list s R lp :
  heap_wf_by s R -> is_Some (lists s !! lp) -> exists ls A, R !! lp = Some ls /\ rep_at s lp ls A.
Proof.
  intros [Hdom Hrep _] Hl. apply Hdom in Hl as [ls Hls].
  destruct (Hrep _ _ Hls) as [A HA]. eauto.
Qed.

(** Only the members and the containers matter. *)
Lemma heap_wf_same s s' R :
  heap_wf_by s R -> members s' = members s -> lists s' = lists s -> heap_wf_by s' R.
Proof.
  intros [Hdom Hrep Hdisj] Hm Hl. split; [by rewrite Hl|..|done].
  intros lp ls H. destruct (Hrep _ _ H) as [A HA]. exists A.
  eapply rep_at_frame; [exact HA|by rewrite Hl|by rewrite Hm].
Qed.

(** A call that changes the list at [lp] (or creates it, with [ls = []])
    and otherwise only adds fresh members. *)
Lemma heap_wf_update s s' R lp ls ls' A' :
  heap_wf_by s R ->
  (forall lq lsq, lq <> lp -> R !! lq = Some lsq -> lsq ## ls) ->
  rep_at s' lp ls' A' ->
  (forall lq, lq <> lp -> lists s' !! lq = lists s !! lq) ->
  (forall l m, l ∉ ls -> members s !! l = Some m -> members s' !! l = Some m) ->
  (forall l, l ∈ ls' -> l ∈ ls \/ members s !! l = None) ->
  heap_wf_by s' (<[lp := ls']> R).
Proof.
  intros [Hdom Hrep Hdisj] Hls Hr' Hlists Hmem Hnew.
  assert (forall lq lsq x, R !! lq = Some lsq -> x ∈ lsq -> is_Some (members s !! x)) as Hlive.
  { intros lq lsq x Hq Hx. destruct (Hrep _ _ Hq) as (B & L & _ & [Hc _ _ _ _]). by eapply seg_live. }
  assert (forall lq lsq, lq <> lp -> R !! lq = Some lsq -> lsq ## ls') as Hls'.
  { intros lq lsq Hq Hq' x Hx1 Hx2. destruct (Hnew x Hx2) as [Hin|Hfr]; [by apply (Hls lq lsq Hq Hq' x)|].
    destruct (Hlive _ _ _ Hq' Hx1). congruence. }
  split.
  - intros lq. destruct (decide (lq = lp)) as [->|Hq].
    + rewrite lookup_insert_eq. destruct Hr' as (L & HL & _). rewrite HL. split; eauto.
    + rewrite lookup_insert_ne, Hlists by done. apply Hdom.
  - intros lq lsq. destruct (decide (lq = lp)) as [->|Hq].
    + rewrite lookup_insert_eq. intros [= <-]. eauto.
    + rewrite lookup_insert_ne by done. intros Hq'. destruct (Hrep _ _ Hq') as [B HB].
      exists B. eapply rep_at_untouched; [split; [exact Hlists|exact Hmem]|done|by eapply Hls|exact HB].
  - intros l1 l2 ls1 ls2 Hne.
    destruct (decide (l1 = lp)) as [->|H1]; destruct (decide (l2 = lp)) as [->|H2]; try done;
      rewrite ?lookup_insert_eq, ?lookup_insert_ne by done.
    + intros [= <-] Hq x Ha Hb. by apply (Hls' l2 ls2 H2 Hq x Hb Ha).
    + intros Hq [= <-]. by eapply Hls'.
    + by apply Hdisj.
Qed.

(** A call that frees the container at [lp] and touches no member of
    another list. *)
Lemma heap_wf_delete s s' R lp :
  heap_wf_by s R -> lists s' !! lp = None ->
  (forall lq, lq <> lp -> lists s' !! lq = lists s !! lq) ->
  (forall lq lsq l, lq <> lp -> R !! lq = Some lsq -> l ∈ lsq -> members s' !! l = members s !! l) ->
  heap_wf_by s' (delete lp R).
Proof.
  intros [Hdom Hrep Hdisj] Hgone Hlists Hmem. split.
  - intros lq. destruct (decide (lq = lp)) as [->|Hq].
    + rewrite lookup_delete_eq, Hgone. split; by intros [].
    + rewrite lookup_delete_ne, Hlists by done. apply Hdom.
  - intros lq lsq. destruct (decide (lq = lp)) as [->|Hq]; [by rewrite lookup_delete_eq|].
    rewrite lookup_delete_ne by done. intros Hq'. destruct (Hrep _ _ Hq') as [B HB].
    exists B. eapply rep_at_frame; [exact HB|by apply Hlists|]. intros l Hl. by eapply Hmem.
  - intros l1 l2 ls1 ls2 Hne H1 H2. apply lookup_delete_Some in H1 as [_ H1].
    apply lookup_delete_Some in H2 as [_ H2]. by eapply Hdisj.
Qed.

(** [join_lists]: the first list takes the nodes of both, the second
    container is freed. *)
Lemma heap_wf_join s s' R lf ls lsf lss A' :
  heap_wf_by s R -> R !! lf = Some lsf -> R !! ls = Some lss -> lf <> ls ->
  rep_at s' lf (lsf ++ lss) A' -> lists s' !! ls = None ->
  (forall lq, lq <> lf -> lq <> ls -> lists s' !! lq = lists s !! lq) ->
  (forall l m, l ∉ lsf -> members s !! l = Some m -> members s' !! l = Some m) ->
  heap_wf_by s' (<[lf := lsf ++ lss]> (delete ls R)).
Proof.
  intros [Hdom Hrep Hdisj] Hf Hs Hne Hr' Hgone Hlists Hmem. split.
  - intros lq. destruct (decide (lq = lf)) as [->|Hq1]; [|destruct (decide (lq = ls)) as [->|Hq2]].
    + rewrite lookup_insert_eq. destruct Hr' as (L & HL & _). rewrite HL. split; eauto.
    + rewrite lookup_insert_ne, lookup_delete_eq, Hgone by done. split; by intros [].
    + rewrite lookup_insert_ne, lookup_delete_ne, Hlists by done. apply Hdom.
  - intros lq lsq. destruct (decide (lq = lf)) as [->|Hq1].
    + rewrite lookup_insert_eq. intros [= <-]. eauto.
    + rewrite lookup_insert_ne by done. intros (Hq2 & Hq)%lookup_delete_Some.
      destruct (Hrep _ _ Hq) as [B HB]. exists B.
      eapply rep_at_frame; [exact HB|by apply Hlists|]. intros l Hl.
      destruct HB as (L & _ & [Hc _ _ _ _]). destruct (seg_live _ _ _ _ _ _ Hc Hl) as [m Hm].
      rewrite Hm. apply Hmem; [|done]. intros Hin. by apply (Hdisj lq lf lsq lsf Hq1 Hq Hf l).
  - assert (forall lq lsq, lq <> lf -> lq <> ls -> R !! lq = Some lsq -> lsq ## lsf ++ lss) as Hj.
    { intros lq lsq H1 H2 Hq x Hx [Hx'|Hx']%elem_of_app;
        [by apply (Hdisj lq lf lsq lsf H1 Hq Hf x)|by apply (Hdisj lq ls lsq lss H2 Hq Hs x)]. }
    intros l1 l2 ls1 ls2 H12.
    destruct (decide (l1 = lf)) as [->|H1]; destruct (decide (l2 = lf)) as [->|H2]; try done;
      rewrite ?lookup_insert_eq, ?lookup_insert_ne by done.
    + intros [= <-] (H2' & Hq)%lookup_delete_Some x Ha Hb. by apply (Hj l2 ls2 H2 (not_eq_sym H2') Hq x Hb Ha).
    + intros (H1' & Hq)%lookup_delete_Some [= <-]. by apply (Hj l1 ls1 H1 (not_eq_sym H1') Hq).
    + intros (_ & Hq1)%lookup_delete_Some (_ & Hq2)%lookup_delete_Some. by apply (Hdisj l1 l2 ls1 ls2 H12 Hq1 Hq2).
Qed.

(** The other lists of a well-formed heap are disjoint from the one at [lp]. *)
Lemma heap_wf_others s R lp ls :
  heap_wf_by s R -> R !! lp = Some ls -> forall lq lsq, lq <> lp -> R !! lq = Some lsq -> lsq ## ls.
Proof. intros HR Hl lq lsq Hq Hq'. by apply (hw_disj _ _ HR lq lp lsq ls). Qed.

(** ... and from a node that was free. *)
Lemma heap_wf_others_fresh s R lp ls l :
  heap_wf_by s R -> R !! lp = Some ls -> members s !! l = None ->
  forall lq lsq, lq <> lp -> R !! lq = Some lsq -> lsq ## ls ++ [l].
Proof.
  intros HR Hl Hfr lq lsq Hq Hq' x Hx [Hx'|Hx'%list_elem_of_singleton]%elem_of_app.
  - by apply (heap_wf_others _ _ _ _ HR Hl lq lsq Hq Hq' x).
  - subst x. destruct (hw_rep _ _ HR _ _ Hq') as (B & L & _ & Hok).
    destruct (seg_live _ _ _ _ _ l (ok_chain _ _ _ _ Hok) Hx). congruence.
Qed.

(** A call that changes the list at [lp] in place, keeping its nodes. *)
Lemma heap_wf_in_place s s' R lp ls A' :
  heap_wf_by s R -> R !! lp = Some ls -> rep_at s' lp ls A' ->
  (forall lq, lq <> lp -> lists s' !! lq = lists s !! lq) ->
  (forall l, l ∉ ls -> members s' !! l = members s !! l) ->
  heap_wf s'.
Proof.
  intros HR Hl Hr' Hls Hm. exists (<[lp := ls]> R). eapply heap_wf_update; eauto.
  - eapply heap_wf_others; eauto.
  - intros l m Hl' Hm'. by rewrite Hm.
Qed.

(** A call that adds a new list at [nl] with fresh nodes. *)
Lemma heap_wf_new s s' R nl lsn A' :
  heap_wf_by s R -> rep_at s' nl lsn A' ->
  (forall lq, lq <> nl -> lists s' !! lq = lists s !! lq) ->
  footprint s s' lsn -> (forall l, l ∈ lsn -> members s !! l = None) ->
  heap_wf s'.
Proof.
  intros HR Hr' Hls Hm Hfr. exists (<[nl := lsn]> R).
  eapply (heap_wf_update _ _ _ _ []); [exact HR|set_solver|exact Hr'|exact Hls| |intros l Hl; right; by apply Hfr].
  intros l m _ Hm'. apply (footprint_keep _ _ _ _ _ Hm); [|done]. intros Hin. by rewrite Hfr in Hm'.
Qed.

(** The container of a non-NULL list pointer a call returns from. *)
Lemma heap_wf_empty_list s lp ls A :
  rep_at s lp ls A -> elems A = [] -> exists L, lists s !! lp = Some L /\ first L = None.
Proof.
  intros (L & HL & Hok) HA. exists L. split; [done|].
  pose proof (ok_chain _ _ _ _ Hok) as Hc. rewrite HA in Hc. by apply chain_nil_r in Hc as [-> _].
Qed.

(** ** Each library call keeps the invariant *)

Lemma heap_wf_create s s' r : heap_wf s -> create_list s = Ok (r, s') -> heap_wf s'.
Proof.
  intros [R HR] Hrun. destruct (decide (head (oracle s) = Some false)) as [Hf|Hf].
  - rewrite create_list_run_fail in Hrun by done. injection Hrun as <- <-.
    exists R. by eapply heap_wf_same.
  - rewrite create_list_run_ok in Hrun by done. injection Hrun as <- <-.
    eapply (heap_wf_new _ _ _ _ []); [exact HR|apply rep_at_fresh_empty| |done|set_solver].
    intros lq Hq. simpl. by rewrite lookup_insert_ne.
Qed.

Lemma heap_wf_append s s' lp ox r :
  heap_wf s -> is_Some (lists s !! lp) ->
  (forall ls A, rep_at s lp ls A -> (Z.of_nat (length ls) < INT_MAX)%Z) ->
  append_to_list (Some lp) ox s = Ok (r, s') -> heap_wf s'.
Proof.
  intros [R HR] Hl Hroom Hrun. destruct (heap_wf_list _ _ _ HR Hl) as (ls & A & HRl & Hrep).
  destruct ox as [x|]; [|injection Hrun as <- <-; by exists R].
  destruct (decide (head (oracle s) = Some false)) as [Hf|Hf].
  - unfold append_to_list in Hrun. rewrite bind_run, alloc_member_run_fail in Hrun by done.
    injection Hrun as <- <-. exists R. by eapply heap_wf_same.
  - destruct (append_to_list_run s lp ls A x Hrep Hf (Hroom _ _ Hrep))
      as (l & s1 & H1 & Hr1 & Hfr & [Hls Hm] & _ & _).
    rewrite H1 in Hrun. injection Hrun as <- <-. exists (<[lp := ls ++ [l]]> R).
    eapply heap_wf_update; eauto; [eapply heap_wf_others; eauto|].
    intros l' [?|?%list_elem_of_singleton]%elem_of_app; [by left|subst; by right].
Qed.

Lemma heap_wf_get_next s s' lp o :
  heap_wf s -> is_Some (lists s !! lp) -> get_next_item (Some lp) s = Ok (o, s') -> heap_wf s'.
Proof.
  intros [R HR] Hl Hrun. destruct (heap_wf_list _ _ _ HR Hl) as (ls & A & HRl & Hrep).
  destruct (get_next_item_run s lp ls A Hrep) as (s1 & H1 & Hr1 & Hm & _ & _ & Hls).
  rewrite H1 in Hrun. injection Hrun as <- <-.
  eapply heap_wf_in_place; eauto. intros l _. by rewrite Hm.
Qed.

Lemma heap_wf_reset s s' lp :
  heap_wf s -> is_Some (lists s !! lp) -> reset_list_item (Some lp) s = Ok (tt, s') -> heap_wf s'.
Proof.
  intros [R HR] Hl Hrun. destruct (heap_wf_list _ _ _ HR Hl) as (ls & A & HRl & Hrep).
  destruct (reset_list_item_run s lp ls A Hrep) as (s1 & H1 & Hr1 & Hm & _ & _ & Hls).
  rewrite H1 in Hrun. injection Hrun as <-.
  eapply heap_wf_in_place; eauto. intros l _. by rewrite Hm.
Qed.

Lemma heap_wf_sort s s' lp (cmp : Item -> Item -> Z) `{!CmpTotal cmp} r :
  heap_wf s -> is_Some (lists s !! lp) -> sort_list (Some lp) (Some cmp) s = Ok (r, s') -> heap_wf s'.
Proof.
  intros [R HR] Hl Hrun. destruct (heap_wf_list _ _ _ HR Hl) as (ls & A & HRl & Hrep).
  destruct (elems A) as [|x xs] eqn:HA.
  - destruct (heap_wf_empty_list s lp ls A Hrep HA) as (L & HL & Hf).
    revert Hrun. unfold sort_list. heap_unfold. hrun. intros [= <- <-]. by exists R.
  - destruct (sort_list_sorts_run s lp ls A cmp Hrep) as (ys & s1 & H1 & Hr1 & _ & _ & [Hls _] & Hm);
      [by rewrite HA|].
    rewrite H1 in Hrun. injection Hrun as <- <-.
    eapply heap_wf_in_place; eauto. intros lq _. by rewrite Hls.
Qed.

Lemma heap_wf_search {P} s s' lp crit (prm : P) dup r :
  heap_wf s -> is_Some (lists s !! lp) ->
  search_in_list (Some lp) (Some crit) prm (Some dup) s = Ok (r, s') -> heap_wf s'.
Proof.
  intros [R HR] Hl Hrun. destruct (heap_wf_list _ _ _ HR Hl) as (ls & A & HRl & Hrep).
  destruct (search_in_list_gen_run crit prm dup s lp ls A Hrep) as (r' & s1 & H1 & _ & Hcase).
  rewrite H1 in Hrun. injection Hrun as <- <-.
  destruct Hcase as [(_ & Hm & Hls) | (nl & lsn & ys & _ & _ & Hr1 & _ & _ & Hls & Hm & Hfr)].
  - exists R. by eapply heap_wf_same.
  - by eapply heap_wf_new.
Qed.

Lemma heap_wf_duplicate s s' lp d r :
  heap_wf s -> is_Some (lists s !! lp) ->
  duplicate_list (Some lp) d s = Ok (r, s') -> heap_wf s'.
Proof. rewrite duplicate_list_as_search. apply heap_wf_search. Qed.


Lemma heap_wf_remove {P} s s' lp crit (prm : P) d r :
  heap_wf s -> is_Some (lists s !! lp) ->
  (forall ls A i x, rep_at s lp ls A -> cursor A = Some i -> elems A !! i = Some x ->
     keep crit prm x = true) ->
  remove_from_list (Some lp) (Some crit) prm d s = Ok (r, s') -> heap_wf s'.
Proof.
  intros [R HR] Hl Hcur Hrun. destruct (heap_wf_list _ _ _ HR Hl) as (ls & A & HRl & Hrep).
  destruct (elems A) as [|x xs] eqn:HA.
  - destruct (heap_wf_empty_list s lp ls A Hrep HA) as (L & HL & Hf).
    revert Hrun. unfold remove_from_list. heap_unfold. hrun. intros [= <- <-]. by exists R.
  - destruct (remove_from_list_keep_run crit prm d s lp ls A Hrep) as (s1 & H1 & Hr1 & Hls & Hm & _);
      [by rewrite HA|eauto|].
    rewrite H1 in Hrun. injection Hrun as <- <-. exists (<[lp := kept_locs crit prm ls (elems A)]> R).
    eapply (heap_wf_update s s1 R lp ls); eauto; [eapply heap_wf_others; eauto| |].
    + intros l m Hl' Hm'. by rewrite Hm.
    + intros l Hl'%kept_locs_subseteq. by left.
Qed.

Lemma heap_wf_join_lists s s' lf ls :
  heap_wf s -> lf <> ls -> is_Some (lists s !! lf) -> is_Some (lists s !! ls) ->
  (forall lsf lss A B, rep_at s lf lsf A -> rep_at s ls lss B ->
     (lsf = [] \/ lss <> []) /\ (Z.of_nat (length lsf + length lss) <= INT_MAX)%Z) ->
  join_lists (Some lf) (Some ls) s = Ok (tt, s') -> heap_wf s'.
Proof.
  intros [R HR] Hne Hlf Hls Hpre Hrun.
  destruct (heap_wf_list _ _ _ HR Hlf) as (lsf & A & HRf & Hf).
  destruct (heap_wf_list _ _ _ HR Hls) as (lss & B & HRs & Hs).
  destruct (Hpre _ _ _ _ Hf Hs) as [Hcase Hb].
  destruct (join_lists_run s lf ls lsf lss A B) as (s1 & H1 & Hr1 & Hgone & Hlists & Hm & _);
    try done; [by apply (hw_disj _ _ HR lf ls)|].
  rewrite H1 in Hrun. injection Hrun as <-. eexists.
  eapply (heap_wf_join s s1 R lf ls); try done. intros l m. by apply footprint_keep.
Qed.

Lemma heap_wf_delete_list s s' lp d :
  heap_wf s -> is_Some (lists s !! lp) -> delete_list (Some lp) d s = Ok (tt, s') -> heap_wf s'.
Proof.
  intros [R HR] Hl Hrun. destruct (heap_wf_list _ _ _ HR Hl) as (ls & A & HRl & Hrep).
  destruct (delete_list_run s lp ls A d) as [_ Hrun'].
  destruct (Hrun' Hrep) as (s1 & H1 & Hls & _ & Hm & _).
  rewrite H1 in Hrun. injection Hrun as <-. exists (delete lp R).
  eapply heap_wf_delete; [exact HR|by rewrite Hls, lookup_delete_eq|intros; by rewrite Hls, lookup_delete_ne|].
  intros lq lsq l Hq Hq' Hin. rewrite Hm. rewrite decide_False; [done|].
  intros Hin'. by apply (hw_disj _ _ HR lq lp lsq ls Hq Hq' HRl l).
Qed.

Lemma heap_wf_size s s' lp r :
  heap_wf s -> is_Some (lists s !! lp) -> list_size (Some lp) s = Ok (r, s') -> heap_wf s'.
Proof.
  intros Hwf [L HL]. unfold list_size. heap_unfold. hrun. by intros [= _ <-].
Qed.

(** A heap with a single container. *)
Lemma heap_wf_one s lp ls A :
  rep_at s lp ls A -> (forall lq, lq <> lp -> lists s !! lq = None) -> heap_wf s.
Proof.
  intros Hrep Hother. pose proof Hrep as (L & HL & _). exists {[lp := ls]}. split.
  - intros lq. destruct (decide (lq = lp)) as [->|Hq].
    + rewrite lookup_singleton_eq, HL. split; eauto.
    + rewrite lookup_singleton_ne, Hother by done. split; by intros [].
  - intros lq lsq (-> & <-)%lookup_singleton_Some. eauto.
  - intros lq lq' ? ? Hq (-> & _)%lookup_singleton_Some (-> & _)%lookup_singleton_Some. done.
Qed.

(** The calls of liblist.h on a heap, each with the precondition under
    which the code keeps the heap well formed.  The outputs of the calls
    are dropped: only the heap they leave matters here. *)
Inductive lib_step : Mem Item -> Mem Item -> Prop :=
  | step_create s s' r : create_list s = Ok (r, s') -> lib_step s s'
  | step_append s s' lp ox r :
      is_Some (lists s !! lp) ->
      (forall ls A, rep_at s lp ls A -> (Z.of_nat (length ls) < INT_MAX)%Z) ->
      append_to_list (Some lp) ox s = Ok (r, s') -> lib_step s s'
  | step_size s s' lp r :
      is_Some (lists s !! lp) -> list_size (Some lp) s = Ok (r, s') -> lib_step s s'
  | step_get_next s s' lp o :
      is_Some (lists s !! lp) -> get_next_item (Some lp) s = Ok (o, s') -> lib_step s s'
  | step_reset s s' lp :
      is_Some (lists s !! lp) -> reset_list_item (Some lp) s = Ok (tt, s') -> lib_step s s'
  | step_sort s s' lp cmp r :
      CmpTotal cmp -> is_Some (lists s !! lp) ->
      sort_list (Some lp) (Some cmp) s = Ok (r, s') -> lib_step s s'
  | step_search {P} s s' lp crit (prm : P) dup r :
      is_Some (lists s !! lp) ->
      search_in_list (Some lp) (Some crit) prm (Some dup) s = Ok (r, s') -> lib_step s s'
  | step_duplicate s s' lp d r :
      is_Some (lists s !! lp) ->
      duplicate_list (Some lp) d s = Ok (r, s') -> lib_step s s'
  | step_remove {P} s s' lp crit (prm : P) d r :
      is_Some (lists s !! lp) ->
      (forall ls A i x, rep_at s lp ls A -> cursor A = Some i -> elems A !! i = Some x ->
         keep crit prm x = true) ->
      remove_from_list (Some lp) (Some crit) prm d s = Ok (r, s') -> lib_step s s'
  | step_join s s' lf ls :
      lf <> ls -> is_Some (lists s !! lf) -> is_Some (lists s !! ls) ->
      (forall lsf lss A B, rep_at s lf lsf A -> rep_at s ls lss B ->
         (lsf = [] \/ lss <> []) /\ (Z.of_nat (length lsf + length lss) <= INT_MAX)%Z) ->
      join_lists (Some lf) (Some ls) s = Ok (tt, s') -> lib_step s s'
  | step_delete s s' lp d :
      is_Some (lists s !! lp) -> delete_list (Some lp) d s = Ok (tt, s') -> lib_step s s'.

Lemma lib_step_wf s s' : heap_wf s -> lib_step s s' -> heap_wf s'.
Proof.
  intros Hwf Hst. revert Hwf. destruct Hst; intros Hwf;
    [eapply heap_wf_create|eapply heap_wf_append|eapply heap_wf_size|eapply heap_wf_get_next
    |eapply heap_wf_reset|eapply heap_wf_sort|eapply heap_wf_search|eapply heap_wf_duplicate
    |eapply heap_wf_remove|eapply heap_wf_join_lists|eapply heap_wf_delete_list]; eauto.
Qed.

(** C6: every heap reached from a well-formed heap by calls of the
    library under their preconditions is well formed: each live
    container represents a well-formed list (chain, last, counter and
    cursor agree) and no member belongs to two containers. *)
Theorem reachable_wf s s' : heap_wf s -> rtc lib_step s s' -> heap_wf s'.
Proof. intros Hwf Hst. induction Hst; eauto using lib_step_wf. Qed.
End Invariant.

(** ** Witness *)

(** A heap holding the list [5; 3], and one call appending [7] to it. *)
Lemma demo_heap_wf : heap_wf (demo_mem [5; 3]%Z).
Proof.
  apply (heap_wf_one _ 1 (demo_locs [5; 3]%Z) (AList [5; 3]%Z None)); [decide_rep|].
  intros lq Hq. unfold demo_mem. cbn [lists]. by rewrite lookup_singleton_ne.
Qed.

Lemma demo_append_run : rtc lib_step (demo_mem [5; 3]%Z) (demo_mem [5; 3; 7]%Z).
Proof.
  apply rtc_once. apply (step_append _ _ 1 (Some 7%Z) 0%Z); [by eexists|..|vm_compute; reflexivity].
  intros ls A (L & HL & Hok). rewrite <- (ok_total _ _ _ _ Hok).
  vm_compute in HL. injection HL as <-. vm_compute. reflexivity.
Qed.

Lemma reachable_wf_witness :
  heap_wf (demo_mem [5; 3]%Z) /\
  rtc lib_step (demo_mem [5; 3]%Z) (demo_mem [5; 3; 7]%Z) /\ heap_wf (demo_mem [5; 3; 7]%Z).
Proof.
  split_and!; [exact demo_heap_wf|exact demo_append_run|exact (reachable_wf _ _ demo_heap_wf demo_append_run)].
Defined.
