(* ===== verification/Store.v ===== *)
(** The library as a store of abstract lists.  A heap is read back as
    a [store]: for every live container, the list of items its chain
    holds and the position of its cursor ([abstract], computed by
    walking the chains as the C loops do), together with the items
    handed to the destructors so far.  A [call] is one call of a public
    function of liblist.h as its caller sees it: the function, its
    arguments (the callbacks included) and its result.  [lib_call] is the
    C code making that call on the heap (the rules of [lib_step],
    labelled), [store_call] the abstract library making it on the store,
    one or more rules per function from the comments of liblist.h: the
    result is fixed by the store, and only an allocation failure leaves
    a choice (NULL, code 2, or fewer copies).  Every sequence of calls of
    the C library from a well-formed heap is matched by the same
    sequence of abstract calls, arguments and results included. *)

From S2P Require Import Prelude Spec Heap Chain Fixtures Append Iter Frame Bubble Sort Join Delete Search Duplicate Remove Invariant.
From Stdlib Require Import Sorting.Sorted Sorting.Permutation.

(** One call of liblist.h: the function, its arguments and its result. *)
Inductive call (Item : Type) : Type :=
  | CCreate (r : ptr)
  | CAppend (lp : positive) (item : option Item) (r : Z)
  | CSize (lp : positive) (r : Z)
  | CGetNext (lp : positive) (r : option Item)
  | CReset (lp : positive)
  | CSort (lp : positive) (cmp : Item -> Item -> Z) (r : ptr)
  | CSearch (P : Type) (lp : positive) (criterion : Item -> P -> Z) (search_params : P)
      (duplicate_item : Item -> option Item) (r : ptr)
  | CDuplicate (lp : positive) (duplicate_item : option (Item -> option Item)) (r : ptr)
  | CRemove (P : Type) (lp : positive) (criterion : Item -> P -> Z) (search_params : P)
      (delete_item : option (Item -> unit)) (r : Z)
  | CJoin (first second : positive)
  | CDelete (lp : positive) (delete_item : option (Item -> unit)).
Arguments CCreate {Item} r.
Arguments CAppend {Item} lp item r.
Arguments CSize {Item} lp r.
Arguments CGetNext {Item} lp r.
Arguments CReset {Item} lp.
Arguments CSort {Item} lp cmp r.
Arguments CSearch {Item} P lp criterion search_params duplicate_item r.
Arguments CDuplicate {Item} lp duplicate_item r.
Arguments CRemove {Item} P lp criterion search_params delete_item r.
Arguments CJoin {Item} first second.
Arguments CDelete {Item} lp delete_item.

(** A sequence of labelled steps. *)
Inductive runs {Item X : Type} (step : call Item -> X -> X -> Prop) : list (call Item) -> X -> X -> Prop :=
  | runs_nil x : runs step [] x x
  | runs_cons c cs x y z : step c x y -> runs step cs y z -> runs step (c :: cs) x z.

Section Store.
Context {Item : Type}.
Implicit Types (s : Mem Item) (A B : alist Item) (R : gmap positive (list positive)).

(** The abstract state of the library. *)
Record store := Store {
  st_lists : gmap positive (alist Item);   (** the live lists by container *)
  st_destroyed : list Item                 (** items passed to [delete_item] *)
}.

(** The index of the node [current] points to. *)
Definition abs_cursor (ls : list positive) (cur : ptr) : option nat :=
  match cur with
  | None => None
  | Some c => fst <$> list_find (fun l => l = c) ls
  end.

(** The abstract list of a container: its chain, followed from [first]
    with enough fuel for every member of the heap. *)
Definition abs_list (h : gmap positive (Member Item)) (L : ListS) : option (alist Item) :=
  match walk (S (size h)) h (first L) with
  | Some (ls, xs) => Some (AList xs (abs_cursor ls (current L)))
  | None => None
  end.

Definition abstract s : store :=
  Store (omap (abs_list (members s)) (lists s)) (destroyed s).

Definition st_put S l A : store := Store (<[l := A]> (st_lists S)) (st_destroyed S).

(** The C library making a call: the rules of [lib_step], labelled. *)
Inductive lib_call : call Item -> Mem Item -> Mem Item -> Prop :=
  | lc_create s s' r : create_list s = Ok (r, s') -> lib_call (CCreate r) s s'
  | lc_append s s' lp ox r :
      is_Some (lists s !! lp) ->
      (forall ls A, rep_at s lp ls A -> (Z.of_nat (length ls) < INT_MAX)%Z) ->
      append_to_list (Some lp) ox s = Ok (r, s') -> lib_call (CAppend lp ox r) s s'
  | lc_size s s' lp r :
      is_Some (lists s !! lp) -> list_size (Some lp) s = Ok (r, s') -> lib_call (CSize lp r) s s'
  | lc_get_next s s' lp o :
      is_Some (lists s !! lp) -> get_next_item (Some lp) s = Ok (o, s') -> lib_call (CGetNext lp o) s s'
  | lc_reset s s' lp :
      is_Some (lists s !! lp) -> reset_list_item (Some lp) s = Ok (tt, s') -> lib_call (CReset lp) s s'
  | lc_sort s s' lp cmp r :
      CmpTotal cmp -> is_Some (lists s !! lp) ->
      sort_list (Some lp) (Some cmp) s = Ok (r, s') -> lib_call (CSort lp cmp r) s s'
  | lc_search {P} s s' lp crit (prm : P) dup r :
      is_Some (lists s !! lp) ->
      search_in_list (Some lp) (Some crit) prm (Some dup) s = Ok (r, s') ->
      lib_call (CSearch P lp crit prm dup r) s s'
  | lc_duplicate s s' lp d r :
      is_Some (lists s !! lp) ->
      duplicate_list (Some lp) d s = Ok (r, s') -> lib_call (CDuplicate lp d r) s s'
  | lc_remove {P} s s' lp crit (prm : P) d r :
      is_Some (lists s !! lp) ->
      (forall ls A i x, rep_at s lp ls A -> cursor A = Some i -> elems A !! i = Some x ->
         keep crit prm x = true) ->
      remove_from_list (Some lp) (Some crit) prm d s = Ok (r, s') ->
      lib_call (CRemove P lp crit prm d r) s s'
  | lc_join s s' lf ls :
      lf <> ls -> is_Some (lists s !! lf) -> is_Some (lists s !! ls) ->
      (forall lsf lss A B, rep_at s lf lsf A -> rep_at s ls lss B ->
         (lsf = [] \/ lss <> []) /\ (Z.of_nat (length lsf + length lss) <= INT_MAX)%Z) ->
      join_lists (Some lf) (Some ls) s = Ok (tt, s') -> lib_call (CJoin lf ls) s s'
  | lc_delete s s' lp d :
      is_Some (lists s !! lp) -> delete_list (Some lp) d s = Ok (tt, s') -> lib_call (CDelete lp d) s s'.

(** The abstract library: the comments of liblist.h on the store. *)
Inductive store_call : call Item -> store -> store -> Prop :=
  | sc_create_fail S : store_call (CCreate None) S S
  | sc_create S l :
      st_lists S !! l = None -> store_call (CCreate (Some l)) S (st_put S l a_empty)
  | sc_append_null S l A :
      st_lists S !! l = Some A -> store_call (CAppend l None 1) S S
  | sc_append_fail S l A x :
      st_lists S !! l = Some A -> store_call (CAppend l (Some x) 2) S S
  | sc_append S l A x :
      st_lists S !! l = Some A -> store_call (CAppend l (Some x) 0) S (st_put S l (a_append x A))
  | sc_size S l A :
      st_lists S !! l = Some A -> store_call (CSize l (Z.of_nat (length (elems A)))) S S
  | sc_get_next S l A :
      st_lists S !! l = Some A -> store_call (CGetNext l (a_next A).1) S (st_put S l (a_next A).2)
  | sc_reset S l A :
      st_lists S !! l = Some A -> store_call (CReset l) S (st_put S l (a_reset A))
  | sc_sort_empty S l A cmp :
      st_lists S !! l = Some A -> elems A = [] -> store_call (CSort l cmp None) S S
  | sc_sort S l A (cmp : Item -> Item -> Z) ys :
      st_lists S !! l = Some A -> elems A <> [] ->
      Sorted (ordered cmp) ys -> Permutation (elems A) ys ->
      (forall Q, cmp_class cmp Q -> List.filter Q ys = List.filter Q (elems A)) ->
      store_call (CSort l cmp (Some l)) S (st_put S l (AList ys (cursor A)))
  | sc_search_none {P} S l A crit (prm : P) dup :
      st_lists S !! l = Some A -> store_call (CSearch P l crit prm dup None) S S
  | sc_search {P} S l A nl crit (prm : P) dup ys :
      st_lists S !! l = Some A -> st_lists S !! nl = None -> ys <> [] ->
      ys `sublist_of` selected crit prm dup (elems A) ->
      store_call (CSearch P l crit prm dup (Some nl)) S (st_put S nl (AList ys None))
  | sc_duplicate_none S l A d :
      st_lists S !! l = Some A -> store_call (CDuplicate l d None) S S
  | sc_duplicate S l A nl d ys :
      st_lists S !! l = Some A -> st_lists S !! nl = None -> ys <> [] ->
      ys `sublist_of` duplicated d (elems A) ->
      store_call (CDuplicate l d (Some nl)) S (st_put S nl (AList ys None))
  | sc_remove_empty {P} S l A crit (prm : P) d :
      st_lists S !! l = Some A -> elems A = [] -> store_call (CRemove P l crit prm d (-1)) S S
  | sc_remove {P} S l A crit (prm : P) d :
      st_lists S !! l = Some A -> elems A <> [] ->
      store_call (CRemove P l crit prm d (Z.of_nat (length (removed crit prm (elems A))))) S
        (Store (<[l := AList (kept crit prm (elems A)) (remap_cursor crit prm (elems A) (cursor A))]>
                  (st_lists S))
               (st_destroyed S ++ destroyed_items d (removed crit prm (elems A))))
  | sc_join S lf ls A B :
      lf <> ls -> st_lists S !! lf = Some A -> st_lists S !! ls = Some B ->
      store_call (CJoin lf ls) S (Store (<[lf := a_join A B]> (delete ls (st_lists S))) (st_destroyed S))
  | sc_delete S l A d :
      st_lists S !! l = Some A ->
      store_call (CDelete l d) S (Store (delete l (st_lists S)) (st_destroyed S ++ destroyed_items d (elems A))).

(** ** Reading a heap back *)

Lemma abs_cursor_rel ls cur c : NoDup ls -> cur_rel ls cur c -> abs_cursor ls cur = c.
Proof.
  intros Hnd. destruct c as [i|]; simpl; [|by intros ->].
  intros [-> Hi]. destruct (lookup_lt_is_Some_2 ls i Hi) as [l Hl]. rewrite Hl. simpl.
  assert (list_find (fun l' => l' = l) ls = Some (i, l)) as ->; [|done].
  apply list_find_Some. split_and!; [done|done|].
  intros j y Hj Hlt ->. pose proof (NoDup_lookup _ _ _ _ Hnd Hj Hl). lia.
Qed.

Lemma abstract_rep s lp ls A : rep_at s lp ls A -> st_lists (abstract s) !! lp = Some A.
Proof.
  intros (L & HL & Hok). simpl. rewrite lookup_omap, HL. simpl. unfold abs_list.
  pose proof (ok_chain _ _ _ _ Hok) as Hc.
  rewrite (walk_complete _ _ _ _ _ Hc) by (pose proof (chain_length_le _ _ _ _ Hc); lia).
  rewrite (abs_cursor_rel _ _ (cursor A)); [by destruct A| |apply Hok].
  by eapply list_ok_NoDup.
Qed.

Lemma abstract_none s lp : lists s !! lp = None -> st_lists (abstract s) !! lp = None.
Proof. intros H. simpl. by rewrite lookup_omap, H. Qed.

(** A change confined to the containers [X] and the nodes [N], disjoint
    from the nodes of the other lists, keeps their abstraction. *)
Lemma abstract_frame s s' R X N lq :
  heap_wf_by s R -> frame s s' X N ->
  (forall lq lsq, lq ∉ X -> R !! lq = Some lsq -> lsq ## N) ->
  lq ∉ X -> st_lists (abstract s') !! lq = st_lists (abstract s) !! lq.
Proof.
  intros HR Hf Hd Hq. destruct (lists s !! lq) as [L|] eqn:E.
  - destruct (heap_wf_list _ _ lq HR) as (lsq & B & Hlq & Hr); [by eexists|].
    rewrite (abstract_rep _ _ _ _ Hr).
    apply (abstract_rep _ _ lsq). eapply frame_rep; eauto.
  - rewrite !abstract_none; [done|done|]. destruct Hf as [Hl _]. by rewrite Hl.
Qed.

(** The abstraction reads the members, the containers and the trace only. *)
Lemma abstract_same s s' :
  members s' = members s -> lists s' = lists s -> destroyed s' = destroyed s -> abstract s' = abstract s.
Proof. unfold abstract. by intros -> -> ->. Qed.

Lemma abstract_pop_oracle s : abstract (pop_oracle s) = abstract s.
Proof. by apply abstract_same. Qed.

Lemma abstract_eq s' L t : st_lists (abstract s') = L -> destroyed s' = t -> abstract s' = Store L t.
Proof. unfold abstract. simpl. by intros <- <-. Qed.

(** A call that changes the container [lp] and the nodes [N], none of
    another list, sets the abstract list at [lp] and keeps the others. *)
Lemma abstract_put s s' R lp ls' A' N :
  heap_wf_by s R -> rep_at s' lp ls' A' -> frame s s' [lp] N ->
  (forall lq lsq, lq <> lp -> R !! lq = Some lsq -> lsq ## N) ->
  st_lists (abstract s') = <[lp := A']> (st_lists (abstract s)).
Proof.
  intros HR Hr Hf Hd. apply map_eq. intros lq. destruct (decide (lq = lp)) as [->|Hq].
  - rewrite lookup_insert_eq. by eapply abstract_rep.
  - rewrite lookup_insert_ne by done. apply (abstract_frame _ _ R [lp] N lq); [done|done| |set_solver].
    intros lq' lsq Hq' Hl. apply (Hd lq'); [set_solver|done].
Qed.

Lemma abstract_put_store s s' R lp ls' A' N :
  heap_wf_by s R -> rep_at s' lp ls' A' -> frame s s' [lp] N ->
  (forall lq lsq, lq <> lp -> R !! lq = Some lsq -> lsq ## N) -> destroyed s' = destroyed s ->
  abstract s' = st_put (abstract s) lp A'.
Proof. intros. apply abstract_eq; [by eapply abstract_put|done]. Qed.

(** ** Each call is the same call of the abstract library *)

Lemma sim_create s s' r :
  heap_wf s -> create_list s = Ok (r, s') -> store_call (CCreate r) (abstract s) (abstract s').
Proof.
  intros [R HR] Hrun. destruct (decide (head (oracle s) = Some false)) as [Hf|Hf].
  - rewrite create_list_run_fail in Hrun by done. injection Hrun as <- <-.
    rewrite abstract_pop_oracle. constructor.
  - rewrite create_list_run_ok in Hrun by done. injection Hrun as <- Hs'.
    rewrite (abstract_put_store s s' R (fresh (used s)) [] a_empty []);
      [apply sc_create, abstract_none, fresh_list_free|done|subst s'; apply rep_at_fresh_empty| |set_solver|by subst s'].
    subst s'. split; [|done]. intros lq Hq. simpl. rewrite lookup_insert_ne; [done|set_solver].
Qed.

Lemma sim_append s s' lp ox r :
  heap_wf s -> is_Some (lists s !! lp) ->
  (forall ls A, rep_at s lp ls A -> (Z.of_nat (length ls) < INT_MAX)%Z) ->
  append_to_list (Some lp) ox s = Ok (r, s') -> store_call (CAppend lp ox r) (abstract s) (abstract s').
Proof.
  intros [R HR] Hl Hroom Hrun. destruct (heap_wf_list _ _ _ HR Hl) as (ls & A & HRl & Hrep).
  pose proof (abstract_rep _ _ _ _ Hrep) as HA.
  destruct ox as [x|]; [|injection Hrun as <- <-; by eapply sc_append_null].
  destruct (decide (head (oracle s) = Some false)) as [Hf|Hf].
  - unfold append_to_list in Hrun. rewrite bind_run, alloc_member_run_fail in Hrun by done.
    injection Hrun as <- <-. rewrite abstract_pop_oracle. by eapply sc_append_fail.
  - destruct (append_to_list_run s lp ls A x Hrep Hf (Hroom _ _ Hrep))
      as (l & s1 & H1 & Hr1 & Hfr & Hu & _ & Hd & Hfp).
    rewrite H1 in Hrun. injection Hrun as <- <-.
    rewrite (abstract_put_store s s1 R lp (ls ++ [l]) (a_append x A) (ls ++ [l]));
      [by apply sc_append|done|done|by apply (untouched_frame _ _ _ ls)|by eapply heap_wf_others_fresh|done].
Qed.

Lemma sim_size s s' lp r :
  heap_wf s -> is_Some (lists s !! lp) -> list_size (Some lp) s = Ok (r, s') ->
  store_call (CSize lp r) (abstract s) (abstract s').
Proof.
  intros [R HR] Hl Hrun. destruct (heap_wf_list _ _ _ HR Hl) as (ls & A & HRl & Hrep).
  rewrite (list_size_run _ _ _ _ Hrep) in Hrun. injection Hrun as <- <-.
  eapply sc_size. by eapply abstract_rep.
Qed.

(** The iterator calls: only the container [lp] changes. *)
Lemma sim_cursor s s' R lp ls A' :
  heap_wf_by s R -> rep_at s' lp ls A' -> cursor_step s s' lp -> abstract s' = st_put (abstract s) lp A'.
Proof. intros HR Hr Hc. eapply abstract_put_store; [done|done|by apply cursor_step_frame|set_solver|apply Hc]. Qed.

Lemma sim_get_next s s' lp o :
  heap_wf s -> is_Some (lists s !! lp) -> get_next_item (Some lp) s = Ok (o, s') ->
  store_call (CGetNext lp o) (abstract s) (abstract s').
Proof.
  intros [R HR] Hl Hrun. destruct (heap_wf_list _ _ _ HR Hl) as (ls & A & HRl & Hrep).
  destruct (get_next_item_run s lp ls A Hrep) as (s1 & H1 & Hr1 & Hc).
  rewrite H1 in Hrun. injection Hrun as <- <-.
  rewrite (sim_cursor _ _ _ _ _ _ HR Hr1 Hc). apply sc_get_next. by eapply abstract_rep.
Qed.

Lemma sim_reset s s' lp :
  heap_wf s -> is_Some (lists s !! lp) -> reset_list_item (Some lp) s = Ok (tt, s') ->
  store_call (CReset lp) (abstract s) (abstract s').
Proof.
  intros [R HR] Hl Hrun. destruct (heap_wf_list _ _ _ HR Hl) as (ls & A & HRl & Hrep).
  destruct (reset_list_item_run s lp ls A Hrep) as (s1 & H1 & Hr1 & Hc).
  rewrite H1 in Hrun. injection Hrun as <-.
  rewrite (sim_cursor _ _ _ _ _ _ HR Hr1 Hc). apply sc_reset. by eapply abstract_rep.
Qed.

Lemma sim_sort s s' lp (cmp : Item -> Item -> Z) `{!CmpTotal cmp} r :
  heap_wf s -> is_Some (lists s !! lp) -> sort_list (Some lp) (Some cmp) s = Ok (r, s') ->
  store_call (CSort lp cmp r) (abstract s) (abstract s').
Proof.
  intros [R HR] Hl Hrun. destruct (heap_wf_list _ _ _ HR Hl) as (ls & A & HRl & Hrep).
  pose proof (abstract_rep _ _ _ _ Hrep) as HA.
  destruct (decide (elems A = [])) as [He|He].
  - destruct (heap_wf_empty_list s lp ls A Hrep He) as (L & HL & Hf).
    revert Hrun. unfold sort_list. heap_unfold. hrun. intros [= <- <-]. apply (sc_sort_empty _ _ A); [by eapply abstract_rep|done].
  - destruct (sort_list_bubble_run s lp ls A cmp Hrep He)
      as (f & ys & s1 & Hb & H1 & Hr1 & Hs & Hp & [Hls [_ Hd]] & Hm).
    rewrite H1 in Hrun. injection Hrun as <- <-.
    rewrite (abstract_put_store s s1 R lp ls (AList ys (cursor A)) ls);
      [apply sc_sort; [done|done|done|done|intros Q HQ; by eapply bubble_sort_stable]
      |done|done| |by eapply heap_wf_others|done].
    split; [intros lq _; by rewrite Hls|exact Hm].
Qed.

(** [search_in_list], whatever [calloc] answers: NULL and no change, or
    a fresh list holding a subsequence of the selected items. *)
Lemma abstract_search {P} s s' lp crit (prm : P) dup r :
  heap_wf s -> is_Some (lists s !! lp) ->
  search_in_list (Some lp) (Some crit) prm (Some dup) s = Ok (r, s') ->
  exists A, st_lists (abstract s) !! lp = Some A /\
  ((r = None /\ abstract s' = abstract s) \/
   exists nl ys, r = Some nl /\ st_lists (abstract s) !! nl = None /\
     ys <> [] /\ ys `sublist_of` selected crit prm dup (elems A) /\
     abstract s' = st_put (abstract s) nl (AList ys None)).
Proof.
  intros [R HR] Hl Hrun. destruct (heap_wf_list _ _ _ HR Hl) as (ls & A & HRl & Hrep).
  destruct (search_in_list_gen_run crit prm dup s lp ls A Hrep) as (r' & s1 & H1 & Hd & Hcase).
  rewrite H1 in Hrun. injection Hrun as <- <-. exists A. split; [by eapply abstract_rep|].
  destruct Hcase as [(-> & Hm & Hls) | (nl & lsn & ys & -> & Hnl & Hr1 & Hne & Hsub & Hls & Hm & Hfr)].
  - left. split; [done|]. by apply abstract_same.
  - right. exists nl, ys. split_and!; [done|by apply abstract_none|done|done|].
    apply (abstract_put_store s s1 R nl lsn (AList ys None) lsn); [done|done| | |done].
    + split; [intros lq Hq; apply Hls; set_solver|exact Hm].
    + intros lq lsq _ Hq. destruct (hw_rep _ _ HR _ _ Hq) as [B HB]. exact (rep_at_fresh_disjoint _ _ _ _ _ HB Hfr).
Qed.

Lemma sim_search {P} s s' lp crit (prm : P) dup r :
  heap_wf s -> is_Some (lists s !! lp) ->
  search_in_list (Some lp) (Some crit) prm (Some dup) s = Ok (r, s') ->
  store_call (CSearch P lp crit prm dup r) (abstract s) (abstract s').
Proof.
  intros Hwf Hl Hrun. destruct (abstract_search s s' lp crit prm dup r Hwf Hl Hrun)
    as (A & HA & [[-> ->] | (nl & ys & -> & Hnl & Hne & Hsub & ->)]);
    [by eapply sc_search_none|by eapply sc_search].
Qed.

Lemma sim_duplicate s s' lp d r :
  heap_wf s -> is_Some (lists s !! lp) -> duplicate_list (Some lp) d s = Ok (r, s') ->
  store_call (CDuplicate lp d r) (abstract s) (abstract s').
Proof.
  intros Hwf Hl Hrun. rewrite duplicate_list_as_search in Hrun.
  destruct (abstract_search s s' lp _ _ _ r Hwf Hl Hrun)
    as (A & HA & [[-> ->] | (nl & ys & -> & Hnl & Hne & Hsub & ->)]); [by eapply sc_duplicate_none|].
  rewrite selected_accept_all in Hsub. by eapply sc_duplicate.
Qed.

Lemma sim_remove {P} s s' lp crit (prm : P) d r :
  heap_wf s -> is_Some (lists s !! lp) ->
  (forall ls A i x, rep_at s lp ls A -> cursor A = Some i -> elems A !! i = Some x ->
     keep crit prm x = true) ->
  remove_from_list (Some lp) (Some crit) prm d s = Ok (r, s') ->
  store_call (CRemove P lp crit prm d r) (abstract s) (abstract s').
Proof.
  intros [R HR] Hl Hcur Hrun. destruct (heap_wf_list _ _ _ HR Hl) as (ls & A & HRl & Hrep).
  pose proof (abstract_rep _ _ _ _ Hrep) as HA.
  destruct (decide (elems A = [])) as [He|He].
  - destruct (heap_wf_empty_list s lp ls A Hrep He) as (L & HL & Hf).
    revert Hrun. unfold remove_from_list. heap_unfold. hrun. intros [= <- <-]. apply (sc_remove_empty _ _ A); [by eapply abstract_rep|done].
  - destruct (remove_from_list_keep_run crit prm d s lp ls A Hrep) as (s1 & H1 & Hr1 & Hls & Hm & _ & _ & Hd);
      [done|eauto|].
    rewrite H1 in Hrun. injection Hrun as <- <-.
    rewrite (abstract_eq s1 (<[lp := AList (kept crit prm (elems A)) (remap_cursor crit prm (elems A) (cursor A))]>
        (st_lists (abstract s))) (st_destroyed (abstract s) ++ destroyed_items d (removed crit prm (elems A))));
      [by apply sc_remove| |done].
    eapply abstract_put; [done|done| |by eapply heap_wf_others].
    split; [intros lq Hq; apply Hls; set_solver|exact Hm].
Qed.

Lemma sim_join s s' lf ls :
  heap_wf s -> lf <> ls -> is_Some (lists s !! lf) -> is_Some (lists s !! ls) ->
  (forall lsf lss A B, rep_at s lf lsf A -> rep_at s ls lss B ->
     (lsf = [] \/ lss <> []) /\ (Z.of_nat (length lsf + length lss) <= INT_MAX)%Z) ->
  join_lists (Some lf) (Some ls) s = Ok (tt, s') -> store_call (CJoin lf ls) (abstract s) (abstract s').
Proof.
  intros [R HR] Hne Hlf Hls Hpre Hrun.
  destruct (heap_wf_list _ _ _ HR Hlf) as (lsf & A & HRf & Hf).
  destruct (heap_wf_list _ _ _ HR Hls) as (lss & B & HRs & Hs).
  destruct (Hpre _ _ _ _ Hf Hs) as [Hcase Hb].
  destruct (join_lists_run s lf ls lsf lss A B) as (s1 & H1 & Hr1 & Hgone & Hlists & Hm & _ & Hd);
    try done; [by apply (hw_disj _ _ HR lf ls)|].
  rewrite H1 in Hrun. injection Hrun as <-.
  rewrite (abstract_eq s1 (<[lf := a_join A B]> (delete ls (st_lists (abstract s)))) (st_destroyed (abstract s)));
    [apply sc_join; [done|by eapply abstract_rep|by eapply abstract_rep]| |done].
  apply map_eq. intros lq. destruct (decide (lq = lf)) as [->|Hq1].
  { rewrite lookup_insert_eq. by eapply abstract_rep. }
  rewrite lookup_insert_ne by done. destruct (decide (lq = ls)) as [->|Hq2].
  { rewrite lookup_delete_eq. by apply abstract_none. }
  rewrite lookup_delete_ne by done. apply (abstract_frame _ _ R [lf; ls] lsf lq); [done| | |set_solver].
  - split; [|done]. intros lq' Hq'. apply Hlists; set_solver.
  - intros lq' lsq Hq' Hl'. apply (hw_disj _ _ HR lq' lf); [set_solver|done|done].
Qed.

Lemma sim_delete s s' lp d :
  heap_wf s -> is_Some (lists s !! lp) -> delete_list (Some lp) d s = Ok (tt, s') ->
  store_call (CDelete lp d) (abstract s) (abstract s').
Proof.
  intros [R HR] Hl Hrun. destruct (heap_wf_list _ _ _ HR Hl) as (ls & A & HRl & Hrep).
  destruct (delete_list_run s lp ls A d) as [_ Hrun'].
  destruct (Hrun' Hrep) as (s1 & H1 & Hls & _ & Hm & Hd).
  rewrite H1 in Hrun. injection Hrun as <-.
  rewrite (abstract_eq s1 (delete lp (st_lists (abstract s))) (st_destroyed (abstract s) ++ destroyed_items d (elems A)));
    [by eapply sc_delete, abstract_rep| |done].
  apply map_eq. intros lq. destruct (decide (lq = lp)) as [->|Hq].
  - rewrite lookup_delete_eq. apply abstract_none. by rewrite Hls, lookup_delete_eq.
  - rewrite lookup_delete_ne by done.
    apply (abstract_frame _ _ R [lp] ls lq); [done|by apply delete_frame| |set_solver].
    intros lq' lsq Hq' Hl'. apply (hw_disj _ _ HR lq' lp); [set_solver|done|done].
Qed.

(** A labelled call is a call of [lib_step]. *)
Lemma lib_call_step c s s' : lib_call c s s' -> lib_step s s'.
Proof.
  destruct 1; [eapply step_create|eapply step_append|eapply step_size|eapply step_get_next
    |eapply step_reset|eapply step_sort|eapply step_search|eapply step_duplicate
    |eapply step_remove|eapply step_join|eapply step_delete]; eauto.
Qed.

(** Every library call on a well-formed heap is the same call of the
    abstract library on its abstraction. *)
Lemma lib_call_simulates c s s' : heap_wf s -> lib_call c s s' -> store_call c (abstract s) (abstract s').
Proof.
  intros Hwf Hst. revert Hwf. destruct Hst; intros Hwf;
    [eapply sim_create|eapply sim_append|eapply sim_size|eapply sim_get_next
    |eapply sim_reset|eapply sim_sort|eapply sim_search|eapply sim_duplicate
    |eapply sim_remove|eapply sim_join|eapply sim_delete]; eauto.
Qed.
End Store.

(** C7: refinement of the library by the abstract library of liblist.h:
    every sequence of calls of the C library (under the preconditions
    of [lib_step]) from a well-formed heap is matched, call by call, by
    the same sequence of calls of [store_call], with the same arguments
    (comparators, criteria, duplicators and destructors included) and
    the same results, on the abstract lists the heaps represent, reading
    each list back from its chain and its cursor from [current], and the
    items handed to the destructors from the trace. *)
Theorem reachable_refines {Item} (s s' : Mem Item) (cs : list (call Item)) :
  heap_wf s -> runs lib_call cs s s' -> runs store_call cs (abstract s) (abstract s').
Proof.
  intros Hwf Hst. induction Hst as [s|c cs s1 s2 s3 H12 H23 IH]; [constructor|].
  econstructor; [by apply lib_call_simulates|]. apply IH. by eapply lib_step_wf, lib_call_step.
Qed.

(** ** Witness *)

(** [append_to_list(l, 7)] then [delete_list(l, free)] on the list
    [5; 3]: the abstract library ends with no list and the three items
    freed, in order. *)
Lemma demo_delete_calls :
  runs lib_call [CAppend 1 (Some 7%Z) 0; CDelete 1 (Some (fun _ => tt))] (demo_mem [5; 3]%Z)
    (mkMem ∅ ∅ [] [5; 3; 7]%Z).
Proof.
  econstructor.
  - apply (lc_append _ _ 1 (Some 7%Z) 0%Z); [by eexists|..|vm_compute; reflexivity].
    intros ls A (L & HL & Hok). rewrite <- (ok_total _ _ _ _ Hok).
    vm_compute in HL. injection HL as <-. vm_compute. reflexivity.
  - econstructor; [|constructor]. apply lc_delete; [by eexists|vm_compute; reflexivity].
Qed.

Lemma reachable_refines_witness :
  heap_wf (demo_mem [5; 3]%Z) /\
  runs lib_call [CAppend 1 (Some 7%Z) 0; CDelete 1 (Some (fun _ => tt))] (demo_mem [5; 3]%Z)
    (mkMem ∅ ∅ [] [5; 3; 7]%Z) /\
  abstract (demo_mem [5; 3]%Z) = Store {[1%positive := AList [5; 3]%Z None]} [] /\
  abstract (mkMem ∅ ∅ [] [5; 3; 7]%Z) = Store ∅ [5; 3; 7]%Z /\
  runs store_call [CAppend 1 (Some 7%Z) 0; CDelete 1 (Some (fun _ => tt))]
    (abstract (demo_mem [5; 3]%Z)) (abstract (mkMem ∅ ∅ [] [5; 3; 7]%Z)).
Proof.
  split_and!; [exact demo_heap_wf|exact demo_delete_calls|vm_compute; reflexivity|vm_compute; reflexivity|].
  exact (reachable_refines _ _ _ demo_heap_wf demo_delete_calls).
Defined.
